(** * onnxscript: optimizer driver, rewrite guards and rules, IR (de)serialization

    A shallow embedding of
    - [onnxscript/optimizer/__init__.py]  (the [optimize] driver loop),
    - [onnxscript/rewriter/broadcast_to_matmul.py] and
      [onnxscript/rewriter/gemm_to_matmul_add.py] (guard, patterns, rules),
    - [onnxscript/ir/serde.py] (graph, node and tensor (de)serialization),
    followed by the properties established about them. *)

From Stdlib Require Import ZArith QArith.
From stdpp Require Import base option list gmap strings pretty.

#[local] Set Warnings "-register-all".

Local Open Scope string_scope.
Local Open Scope list_scope.
Local Open Scope Z_scope.

(** ** Python results: a value or a raised exception *)

Module Py.

Inductive Exn : Type :=
| KeyError (key : string)
| IndexError
| TypeError (msg : string)
| ValueError (msg : string)
| NotImplementedError (msg : string).

Inductive Result (A : Type) : Type :=
| Ok (a : A)
| Raise (e : Exn).
Arguments Ok {A} a.
Arguments Raise {A} e.

#[global] Instance result_ret : MRet Result := @Ok.
#[global] Instance result_bind : MBind Result := λ A B f r,
  match r with
  | Ok a => f a
  | Raise e => Raise e
  end.
#[global] Instance result_throw : MThrow Exn Result := @Raise.
#[global] Instance result_fmap : FMap Result := λ A B f r,
  match r with
  | Ok a => Ok (f a)
  | Raise e => Raise e
  end.

Definition is_ok {A} (r : Result A) : bool :=
  match r with Ok _ => true | Raise _ => false end.

(** [d[key]] on a dict. *)
Definition dict_getitem {V} (d : gmap string V) (key : string) : Result V :=
  match d !! key with
  | Some v => Ok v
  | None => Raise (KeyError key)
  end.

(** [l[i]] on a list, [i] possibly negative. *)
Definition list_getitem {A} (l : list A) (i : Z) : Result A :=
  let n := Z.of_nat (length l) in
  let j := if i <? 0 then n + i else i in
  if (j <? 0) || (n <=? j) then Raise IndexError
  else match l !! Z.to_nat j with
       | Some x => Ok x
       | None => Raise IndexError
       end.

(** [l[:stop]] on a list, [stop] possibly negative; slices never raise. *)
Definition list_slice_to {A} (l : list A) (stop : Z) : list A :=
  let n := Z.of_nat (length l) in
  let j := if stop <? 0 then Z.max 0 (n + stop) else Z.min stop n in
  take (Z.to_nat j) l.

(** [l.pop(i)]: the list without its element at [i]. *)
Definition list_pop {A} (l : list A) (i : Z) : Result (list A) :=
  let n := Z.of_nat (length l) in
  let j := if i <? 0 then n + i else i in
  if (j <? 0) || (n <=? j) then Raise IndexError
  else Ok (delete (Z.to_nat j) l).

(** [zip(xs, ys)] stops at the shorter argument. *)
Fixpoint zip {A B} (xs : list A) (ys : list B) : list (A * B) :=
  match xs, ys with
  | x :: xs', y :: ys' => (x, y) :: zip xs' ys'
  | _, _ => []
  end.

End Py.
Import Py.

(** ** What the guards read of [onnxscript._legacy_ir] and numpy *)

Module LegacyIR.

(** What [np.ndarray] offers to the guard: [.shape] and, for a one
    dimensional array of integers, [.tolist()]. *)
Record ndarray : Type := mk_ndarray {
  nd_shape : list Z;
  nd_tolist : list Z
}.

(** [value_as_np_array] is typed [np.ndarray | None]; the guard still tests
    [isinstance(shape_c, np.ndarray)], so other objects are representable. *)
Inductive PyObject : Type :=
| PyNdArray (arr : ndarray)
| PyOther (type_name : string).

(** The attributes of a bound [ir.Value] that the guard reads. *)
Record Value : Type := mk_Value {
  shape : option (list Z);
  value_as_np_array : option PyObject
}.

End LegacyIR.
Import LegacyIR.

(** ** [onnxscript/rewriter/broadcast_to_matmul.py]: the guard

    Here on shapes all of whose dimensions are integers; [SymbolicShapes]
    further down has the guard on shapes that also hold the names of
    symbolic dimensions, on which [max] may raise. *)

Module BroadcastToMatmulGuard.

(** Lines 86-99: the loop over the reversed, zipped dimensions.  [None]
    stands for the [return False] inside the loop. *)
Fixpoint broadcast_loop (idx : nat) (dims : list (Z * Z))
    (broadcast_matmul_output_shape : list Z) : option (list Z) :=
  match dims with
  | [] => Some broadcast_matmul_output_shape
  | (dim_from_a, dim_from_b) :: rest =>
      if negb ((dim_from_a =? 1) || (dim_from_a =? dim_from_b)) then None
      else if (0 <? idx)%nat then
        broadcast_loop (S idx) rest
          (Z.max dim_from_a dim_from_b :: broadcast_matmul_output_shape)
      else broadcast_loop (S idx) rest broadcast_matmul_output_shape
  end.

(** Lines 101-115: the shape that the guard expects [MatMul] to produce. *)
Definition expected_output_shape (input_a_shape input_b_shape : list Z)
    (dim_a dim_b : nat) (mimic_matmul_broadcast_behavior : bool)
    (broadcast_matmul_output_shape : list Z) : Result (list Z) :=
  let '(longer_shape, shorter_shape) :=
    if (dim_b <? dim_a)%nat then (input_a_shape, input_b_shape)
    else (input_b_shape, input_a_shape) in
  let out :=
    list_slice_to longer_shape (- Z.of_nat (length shorter_shape))
      ++ broadcast_matmul_output_shape in
  let out :=
    if mimic_matmul_broadcast_behavior && (dim_b =? 2)%nat
    then list_slice_to out (-1) else out in
  if mimic_matmul_broadcast_behavior && (dim_a =? 2)%nat
  then list_pop out (-2) else Ok out.

(** Lines 79-124, once both shapes have been padded to two dimensions. *)
Definition broadcast_matmul_output_shape (input_a_shape input_b_shape : list Z)
    (dim_a dim_b : nat) (mimic_matmul_broadcast_behavior : bool)
    : Result (option (list Z)) :=
  a_last ← list_getitem input_a_shape (-1);
  let input_a_shape_except_second_last_dim :=
    list_slice_to input_a_shape (-2) ++ [a_last] in
  let input_b_shape_except_last_dim := list_slice_to input_b_shape (-1) in
  a_second_last ← list_getitem input_a_shape (-2);
  b_last ← list_getitem input_b_shape (-1);
  match broadcast_loop 0
          (zip (reverse input_a_shape_except_second_last_dim)
               (reverse input_b_shape_except_last_dim))
          [a_second_last; b_last] with
  | None => Ok None
  | Some out =>
      Some <$> expected_output_shape input_a_shape input_b_shape dim_a dim_b
                 mimic_matmul_broadcast_behavior out
  end.

(** Lines 116-124: compare with [shape_c]. *)
Definition check_output_shape (input_a_shape input_b_shape : list Z)
    (dim_a dim_b : nat) (mimic_matmul_broadcast_behavior : bool)
    (shape_c : list Z) : Result bool :=
  r ← broadcast_matmul_output_shape input_a_shape input_b_shape dim_a dim_b
        mimic_matmul_broadcast_behavior;
  match r with
  | None => Ok false
  | Some out => Ok (bool_decide (shape_c = out))
  end.

(** Lines 69-78 (step 1.b): a one dimensional second input. *)
Definition check_second_input (input_a_shape input_b_shape : list Z)
    (dim_a dim_b : nat) (mimic_matmul_broadcast_behavior : bool)
    (shape_c : list Z) : Result bool :=
  if (dim_b <? 2)%nat then
    b_last ← list_getitem input_b_shape (-1);
    a_last ← list_getitem input_a_shape (-1);
    if negb (b_last =? a_last) then Ok false
    else
      let input_b_shape := input_b_shape ++ [1] in
      check_output_shape input_a_shape input_b_shape dim_a
        (length input_b_shape) true shape_c
  else
    check_output_shape input_a_shape input_b_shape dim_a dim_b
      mimic_matmul_broadcast_behavior shape_c.

(** Lines 54-68 (step 1.a): a one dimensional first input. *)
Definition check_shapes (input_a_shape input_b_shape shape_c : list Z)
    : Result bool :=
  let dim_a := length input_a_shape in
  let dim_b := length input_b_shape in
  if (dim_a <? 2)%nat then
    a_last ← list_getitem input_a_shape (-1);
    b_second_last ← list_getitem input_b_shape (-2);
    if negb (a_last =? b_second_last) then Ok false
    else
      let input_a_shape := 1 :: input_a_shape in
      check_second_input input_a_shape input_b_shape
        (length input_a_shape) dim_b true shape_c
  else
    check_second_input input_a_shape input_b_shape dim_a dim_b false shape_c.

(** Lines 16-52. *)
Definition check_if_need_reshape (match_bindings : gmap string Value)
    : Result bool :=
  input_a ← dict_getitem match_bindings "input_a";
  let input_a_shape := shape input_a in
  input_b ← dict_getitem match_bindings "input_b";
  let input_b_shape := shape input_b in
  shape_c ← dict_getitem match_bindings "shape_c";
  match value_as_np_array shape_c with
  | None => Ok false
  | Some (PyOther _) => Ok false
  | Some (PyNdArray arr) =>
      if negb (length (nd_shape arr) =? 1)%nat then Ok false
      else
        let shape_c := nd_tolist arr in
        match input_a_shape, input_b_shape with
        | Some input_a_shape, Some input_b_shape =>
            check_shapes input_a_shape input_b_shape shape_c
        | _, _ => Ok false
        end
  end.

End BroadcastToMatmulGuard.
Import BroadcastToMatmulGuard.


(** ** The rewrite engine behind [pattern.RewriteRule] and [pattern.RewriteRuleSet]

    [onnxscript/rewriter/pattern.py] is not among the sources; what follows is
    the engine as the specification describes it (sections 3 and 4.2 to 4.6). *)

Module Pattern.

(** Modelled from the spec: stable opaque handles for Values and Nodes
    (section 9); the class definitions of the IR are missing. *)
Definition handle : Type := nat.

(** Modelled from the spec: the Attribute union of section 3, restricted to
    the literal kinds that occur in templates and in [Constant] nodes; the
    attribute classes are missing. *)
Inductive Attr : Type :=
| AttrInt (i : Z)
| AttrFloat (f : Q)
| AttrString (s : string)
| AttrInts (l : list Z)
| AttrTensor (t : ndarray).

#[global] Instance ndarray_eq_dec : EqDecision ndarray.
Proof. solve_decision. Defined.

(** Modelled from the spec: an attribute literal of a template is "equal to
    the concrete Node's value" (section 4.3); floats are compared as numbers.
    The comparison of [pattern.py] is missing. *)
Definition attr_eqb (a b : Attr) : bool :=
  match a, b with
  | AttrInt i, AttrInt j => i =? j
  | AttrFloat f, AttrFloat h => Qeq_bool f h
  | AttrString s, AttrString t => bool_decide (s = t)
  | AttrInts l, AttrInts k => bool_decide (l = k)
  | AttrTensor t, AttrTensor u => bool_decide (t = u)
  | _, _ => false
  end.

(** Modelled from the spec: a Pattern (section 3) is a template whose Values
    are placeholders or outputs of template Nodes carrying attribute
    literals; the pattern classes of [pattern.py] are missing. *)
Inductive Pattern : Type :=
| Var (name : string)
| NodePattern (domain op_type : string) (inputs : list Pattern)
    (attributes : list (string * Attr)).

(** Modelled from the spec: Node and Graph of section 3, without nested
    subgraphs; the IR classes are missing. *)
Record Node : Type := mk_Node {
  node_id : handle;
  node_domain : string;
  node_op_type : string;
  node_inputs : list (option handle);
  node_outputs : list handle;
  node_attributes : gmap string Attr
}.

Record Graph : Type := mk_Graph {
  nodes : list Node;
  graph_inputs : list handle;
  graph_outputs : list handle;
  initializers : gmap handle ndarray;
  static_shapes : gmap handle (list Z);
  next_handle : handle
}.

(** Modelled from the spec: the producer of a Value, its consumers (derived
    back-references, section 3) and the Node behind a handle; the accessors
    of the IR classes are missing. *)
Definition producer (g : Graph) (v : handle) : option Node :=
  find (λ n, bool_decide (v ∈ node_outputs n)) (nodes g).

Definition consumers (g : Graph) (v : handle) : list Node :=
  filter (λ n, Some v ∈ node_inputs n) (nodes g).

Definition find_node (g : Graph) (id : handle) : option Node :=
  find (λ n, bool_decide (node_id n = id)) (nodes g).

(** Modelled from the spec: the resolved constant array accessor of section
    4.4, which succeeds only on an Initializer or on the output of a
    constant-producing Node; [value_as_np_array] of the IR is missing. *)
Definition resolved_constant (g : Graph) (v : handle) : option ndarray :=
  match initializers g !! v with
  | Some t => Some t
  | None =>
      n ← producer g v;
      if bool_decide (node_domain n = "") && bool_decide (node_op_type n = "Constant")
      then match node_attributes n !! "value" with
           | Some (AttrTensor t) => Some t
           | _ => None
           end
      else None
  end.

(** Modelled from the spec: the static shape metadata and the resolved
    constant of a bound Value, as the guard queries them (section 4.4); the
    [shape] and [value_as_np_array] properties of the IR are missing. *)
Definition value_of (g : Graph) (v : handle) : Value :=
  {| shape := static_shapes g !! v;
     value_as_np_array := PyNdArray <$> resolved_constant g v |}.

(** *** Pattern compiler (section 4.2) *)

(** Modelled from the spec: a graph-construction callable of a given arity,
    whose parameters are placeholders (section 4.2); Python's callables are
    not part of the sources. *)
Fixpoint Callable (n : nat) : Type :=
  match n with
  | O => Pattern
  | S k => Pattern → Callable k
  end.

(** Modelled from the spec: a callable together with its declared parameter
    names, which the pattern compiler of [pattern.py] (missing) reads off the
    [def]. *)
Record PyFunction : Type := def {
  param_names : list string;
  body : Callable (length param_names)
}.

(** Modelled from the spec: calling a callable on arguments; [None] when
    their number is not its arity (section 4.5); Python's call is missing. *)
Fixpoint call_with (n : nat) : Callable n → list Pattern → option Pattern :=
  match n with
  | O => λ f args, match args with [] => Some f | _ :: _ => None end
  | S k => λ f args,
      match args with
      | [] => None
      | a :: rest => call_with k (f a) rest
      end
  end.

(** Modelled from the spec: running the callable once in recording mode on
    placeholders named after its declared parameters (section 4.2). *)
Fixpoint record_call (names : list string) : Callable (length names) → Pattern :=
  match names with
  | [] => λ f, f
  | x :: xs => λ f, record_call xs (f (Var x))
  end.

(** Modelled from the spec: the PatternCompiler of section 4.2, whose code
    in [pattern.py] is missing. *)
Definition compile (f : PyFunction) : Pattern :=
  record_call (param_names f) (body f).

(** Modelled from the spec: a template with the placeholder [x] replaced by
    the template [t], which is what it means for one pattern to contain
    another as a sub-pattern (section 8, scenario D); the sources have no
    such operation. *)
Fixpoint subst (x : string) (t : Pattern) (p : Pattern) : Pattern :=
  match p with
  | Var y => if bool_decide (y = x) then t else Var y
  | NodePattern domain op_type ins lits =>
      NodePattern domain op_type (List.map (subst x t) ins) lits
  end.

(** *** Matcher (section 4.3) *)

(** Modelled from the spec: the state of one match attempt, the Binding of
    section 3 together with the Nodes matched so far; [MatchResult] of
    [pattern.py] is missing. *)
Record MatchState : Type := mk_MatchState {
  bindings : gmap string handle;
  matched : list handle
}.

(** Modelled from the spec: a placeholder already bound to a different
    Value makes the attempt fail (section 4.3); the code of [pattern.py] is
    missing. *)
Definition bind_placeholder (x : string) (v : handle) (st : MatchState)
    : option MatchState :=
  match bindings st !! x with
  | None => Some (mk_MatchState (<[x := v]> (bindings st)) (matched st))
  | Some v' => if bool_decide (v = v') then Some st else None
  end.

(** Modelled from the spec: every attribute literal of the template must
    equal the concrete Node's value (section 4.3); the code of [pattern.py]
    is missing. *)
Definition attributes_match (lits : list (string * Attr)) (n : Node) : bool :=
  forallb (λ '(k, lit),
             match node_attributes n !! k with
             | Some a => attr_eqb lit a
             | None => false
             end) lits.

(** Modelled from the spec: identical operator identity, domain and type
    (section 4.3); the code of [pattern.py] is missing. *)
Definition same_op (domain op_type : string) (n : Node) : bool :=
  bool_decide (node_domain n = domain) && bool_decide (node_op_type n = op_type).

(** Modelled from the spec: growing a match from the anchor Node towards the
    inputs, unifying placeholders with Values and template Nodes with Nodes
    of the same operator identity; greedy, without backtracking. *)
Fixpoint match_node (g : Graph) (p : Pattern) (n : Node) (st : MatchState)
    : option MatchState :=
  match p with
  | Var _ => None
  | NodePattern domain op_type ins lits =>
      if same_op domain op_type n && attributes_match lits n then
        (fix match_inputs (ps : list Pattern) (vs : list (option handle))
             (st : MatchState) : option MatchState :=
           match ps, vs with
           | [], [] => Some st
           | Var x :: ps', Some v :: vs' =>
               st' ← bind_placeholder x v st;
               match_inputs ps' vs' st'
           | (NodePattern _ _ _ _ as q) :: ps', Some v :: vs' =>
               m ← producer g v;
               st' ← match_node g q m st;
               match_inputs ps' vs' st'
           | _, _ => None
           end) ins (node_inputs n)
          (mk_MatchState (bindings st) (matched st ++ [node_id n]))
      else None
  end.

(** Modelled from the spec: an intermediate matched Value must not have a
    consumer outside the matched region, nor be a Graph Output. *)
Definition exclusive (g : Graph) (anchor : Node) (st : MatchState) : bool :=
  forallb (λ id,
    bool_decide (id = node_id anchor) ||
    match find_node g id with
    | None => false
    | Some n =>
        forallb (λ v,
          forallb (λ c, bool_decide (node_id c ∈ matched st)) (consumers g v)
          && negb (bool_decide (v ∈ graph_outputs g))) (node_outputs n)
    end) (matched st).

(** Modelled from the spec: the Matcher at one anchor (section 4.3), whose
    code in [pattern.py] is missing. *)
Definition match_pattern (g : Graph) (p : Pattern) (anchor : Node)
    : option MatchState :=
  st ← match_node g p anchor (mk_MatchState ∅ []);
  if exclusive g anchor st then Some st else None.

(** *** Replacement builder and splice (section 4.5) *)

(** Modelled from the spec: executing the replacement template on the bound
    Values creates new Nodes, each owning one fresh output Value. *)
Fixpoint instantiate (b : gmap string handle) (t : Pattern) (fresh : handle)
    : option (list Node * handle * handle) :=
  match t with
  | Var x => v ← b !! x; Some ([], v, fresh)
  | NodePattern domain op_type ins lits =>
      '(created, args, fresh) ←
        (fix build (ts : list Pattern) (fresh : handle)
             : option (list Node * list (option handle) * handle) :=
           match ts with
           | [] => Some ([], [], fresh)
           | t' :: ts' =>
               '(created, v, fresh) ← instantiate b t' fresh;
               '(created', vs, fresh) ← build ts' fresh;
               Some (created ++ created', Some v :: vs, fresh)
           end) ins fresh;
      let n := mk_Node fresh domain op_type args [fresh] (list_to_map lits) in
      Some (created ++ [n], fresh, S fresh)
  end.

(** Modelled from the spec: retargeting one input slot, one Node
    (section 4.1); the mutation primitives of the IR are missing. *)
Definition redirect (old new : handle) (v : handle) : handle :=
  if bool_decide (v = old) then new else v.

Definition redirect_node (old new : handle) (n : Node) : Node :=
  mk_Node (node_id n) (node_domain n) (node_op_type n)
    ((λ i : option handle, redirect old new <$> i) <$> node_inputs n) (node_outputs n)
    (node_attributes n).

(** Modelled from the spec: [replaceAllUsesWith(old, new)] with Output
    rebinding (section 4.1); the mutation primitives of the IR are missing. *)
Definition replace_all_uses_with (old new : handle) (g : Graph) : Graph :=
  mk_Graph (redirect_node old new <$> nodes g) (graph_inputs g)
    (redirect old new <$> graph_outputs g) (initializers g)
    (static_shapes g) (next_handle g).

(** Modelled from the spec: [insertNodesBefore(anchor, nodes)] of section
    4.1, which preserves definition order; the primitive is missing. *)
Fixpoint insert_nodes_before (anchor : handle) (new : list Node)
    (l : list Node) : list Node :=
  match l with
  | [] => new
  | n :: rest =>
      if bool_decide (node_id n = anchor) then new ++ n :: rest
      else n :: insert_nodes_before anchor new rest
  end.

(** Modelled from the spec: a Node none of whose outputs has a consumer or
    is a Graph Output (section 3, lifecycle); the use counts of the IR are
    missing. *)
Definition unused (g : Graph) (n : Node) : bool :=
  forallb (λ v, bool_decide (consumers g v = [])
                && negb (bool_decide (v ∈ graph_outputs g))) (node_outputs n).

(** Modelled from the spec: [removeNode] of section 4.1 applied to a matched
    Node once it has become unused; the primitive is missing. *)
Definition remove_if_unused (g : Graph) (id : handle) : Graph :=
  match find_node g id with
  | Some n =>
      if unused g n then
        mk_Graph (filter (λ m, node_id m ≠ id) (nodes g)) (graph_inputs g)
          (graph_outputs g) (initializers g) (static_shapes g) (next_handle g)
      else g
  | None => g
  end.

(** Modelled from the spec: the splice redirects the consumers of the matched
    Output to the replacement's output, then removes the matched Nodes that
    have become unused, the anchor first. *)
Definition splice (g : Graph) (anchor : Node) (st : MatchState)
    (created : list Node) (new_out fresh : handle) : option Graph :=
  match node_outputs anchor with
  | [old_out] =>
      let g1 :=
        mk_Graph (insert_nodes_before (node_id anchor) created (nodes g))
          (graph_inputs g) (graph_outputs g) (initializers g)
          (static_shapes g) fresh in
      let g2 := replace_all_uses_with old_out new_out g1 in
      Some (foldl remove_if_unused g2 (matched st))
  | _ => None
  end.

(** *** Rules, rule sets and sweeps (section 4.6) *)

(** Modelled from the spec: a Rule is a Pattern, a Guard and a
    ReplacementBuilder, a RuleSet an ordered list of Rules (section 4.6);
    the classes [RewriteRule] and [RewriteRuleSet] of [pattern.py] are
    missing. *)
Record RewriteRule : Type := mk_RewriteRule {
  target_pattern : PyFunction;
  replacement_pattern : PyFunction;
  condition_function : gmap string Value → Result bool
}.

Record RewriteRuleSet : Type := mk_RewriteRuleSet {
  rules : list RewriteRule
}.

(** Modelled from the spec: the replacement callable receives the bound
    placeholders in the pattern's parameter order; a different arity is a
    rule-construction error. *)
Definition replacement_template (r : RewriteRule) : Result Pattern :=
  match call_with _ (body (replacement_pattern r))
          (Var <$> param_names (target_pattern r)) with
  | Some t => Ok t
  | None => Raise (TypeError "replacement arity differs from the pattern's")
  end.

(** Modelled from the spec: Matcher, then Guard, then ReplacementBuilder and
    splice at one anchor; [None] when the rule does not apply there. *)
Definition try_rewrite (r : RewriteRule) (g : Graph) (anchor : Node)
    : Result (option Graph) :=
  match match_pattern g (compile (target_pattern r)) anchor with
  | None => Ok None
  | Some st =>
      accepted ← condition_function r (value_of g <$> bindings st);
      if accepted : bool then
        t ← replacement_template r;
        match instantiate (bindings st) t (next_handle g) with
        | Some (created, new_out, fresh) =>
            Ok (splice g anchor st created new_out fresh)
        | None => Raise (ValueError "replacement uses an unbound placeholder")
        end
      else Ok None
  end.

(** Modelled from the spec: rules are tried in list order and the first
    whose Matcher and Guard both succeed is applied (section 4.6); the code
    of [RewriteRuleSet] is missing. *)
Fixpoint apply_first (rs : list RewriteRule) (g : Graph) (anchor : Node)
    : Result (option Graph) :=
  match rs with
  | [] => Ok None
  | r :: rest =>
      o ← try_rewrite r g anchor;
      match o with
      | Some g' => Ok (Some g')
      | None => apply_first rest g anchor
      end
  end.

(** Modelled from the spec: one sweep over a definition-order snapshot of
    the Nodes, skipping those a rewrite has consumed, and returning whether
    any rewrite occurred (section 4.6); the code of [RewriteRuleSet] is
    missing. *)
Fixpoint sweep (rs : list RewriteRule) (snapshot : list handle) (g : Graph)
    (changed : bool) : Result (Graph * bool) :=
  match snapshot with
  | [] => Ok (g, changed)
  | id :: rest =>
      match find_node g id with
      | None => sweep rs rest g changed
      | Some n =>
          o ← apply_first rs g n;
          match o with
          | Some g' => sweep rs rest g' true
          | None => sweep rs rest g changed
          end
      end
  end.

(** Modelled from the spec: the sweep of a RuleSet over a Graph
    (section 4.6); the method of [RewriteRuleSet] is missing. *)
Definition apply_to_graph (rs : RewriteRuleSet) (g : Graph)
    : Result (Graph * bool) :=
  sweep (rules rs) (node_id <$> nodes g) g false.

End Pattern.
Import Pattern.

(** ** [onnxscript/rewriter/broadcast_to_matmul.py]: patterns and rules *)

Module BroadcastToMatmul.

(** Modelled from the spec: [op = pattern.onnxop], the operator builder of
    the default domain (section 4.2), whose code in [pattern.py] is missing;
    [op.T(inputs, **attributes)] records a template Node. *)
Definition op (op_type : string) (inputs : list Pattern)
    (attributes : list (string * Attr)) : Pattern :=
  NodePattern "" op_type inputs attributes.

Definition two_reshapes_matmul_reshape_pattern : PyFunction :=
  def ["input_a"; "input_b"; "shape_a"; "shape_b"; "shape_c"]
    (λ input_a input_b shape_a shape_b shape_c,
       let reshape_a := op "Reshape" [input_a; shape_a] [] in
       let reshape_b := op "Reshape" [input_b; shape_b] [] in
       let matmul := op "MatMul" [reshape_a; reshape_b] [] in
       op "Reshape" [matmul; shape_c] []).

Definition matmul_with_two_shape_inputs : PyFunction :=
  def ["input_a"; "input_b"; "shape_a"; "shape_b"; "shape_c"]
    (λ input_a input_b shape_a shape_b shape_c,
       op "MatMul" [input_a; input_b] []).

Definition one_reshape_matmul_reshape_pattern : PyFunction :=
  def ["input_a"; "input_b"; "shape_a"; "shape_c"]
    (λ input_a input_b shape_a shape_c,
       let reshape_a := op "Reshape" [input_a; shape_a] [] in
       let matmul := op "MatMul" [reshape_a; input_b] [] in
       op "Reshape" [matmul; shape_c] []).

Definition matmul_with_one_shape_input : PyFunction :=
  def ["input_a"; "input_b"; "shape_a"; "shape_c"]
    (λ input_a input_b shape_a shape_c,
       op "MatMul" [input_a; input_b] []).

Definition two_reshapes_matmul_reshape_rule : RewriteRule :=
  mk_RewriteRule two_reshapes_matmul_reshape_pattern
    matmul_with_two_shape_inputs check_if_need_reshape.

Definition one_reshape_matmul_reshape_rule : RewriteRule :=
  mk_RewriteRule one_reshape_matmul_reshape_pattern
    matmul_with_one_shape_input check_if_need_reshape.

Definition rules : RewriteRuleSet :=
  mk_RewriteRuleSet
    [two_reshapes_matmul_reshape_rule; one_reshape_matmul_reshape_rule].

End BroadcastToMatmul.

(** ** [onnxscript/rewriter/gemm_to_matmul_add.py] *)

Module GemmToMatmulAdd.

Definition op := BroadcastToMatmul.op.

Definition reshape_gemm_reshape_pattern : PyFunction :=
  def ["input_a"; "input_b"; "input_c"; "shape_a"; "shape_c"]
    (λ input_a input_b input_c shape_a shape_c,
       let reshape_a := op "Reshape" [input_a; shape_a] [] in
       let gemm :=
         op "Gemm" [reshape_a; input_b; input_c]
           [("alpha", AttrFloat 1%Q); ("beta", AttrFloat 1%Q)] in
       op "Reshape" [gemm; shape_c] []).

Definition matmul_add : PyFunction :=
  def ["input_a"; "input_b"; "input_c"; "shape_a"; "shape_d"]
    (λ input_a input_b input_c shape_a shape_d,
       let matmul := op "MatMul" [input_a; input_b] [] in
       op "Add" [matmul; input_c] []).

Definition rule : RewriteRule :=
  mk_RewriteRule reshape_gemm_reshape_pattern matmul_add check_if_need_reshape.

(** The chain of Scenario B in the words of the specification:
    [Reshape(a, shape_a)] feeds a [Gemm] with [alpha = 1] and [beta = 1],
    whose other inputs are [b] and [c], and which feeds the [Reshape] by
    [shape_c] at the anchor. *)
Definition reshape_gemm_reshape_chain (g : Pattern.Graph) (anchor : Pattern.Node)
    (a b c shape_a shape_c : handle) (gemm reshape : Pattern.Node) : Prop :=
  same_op "" "Reshape" anchor = true ∧
  (∃ gemm_out, Pattern.node_inputs anchor = [Some gemm_out; Some shape_c] ∧
               producer g gemm_out = Some gemm) ∧
  same_op "" "Gemm" gemm = true ∧
  (∃ alpha, Pattern.node_attributes gemm !! "alpha" = Some (AttrFloat alpha) ∧
            Qeq_bool 1 alpha = true) ∧
  (∃ beta, Pattern.node_attributes gemm !! "beta" = Some (AttrFloat beta) ∧
           Qeq_bool 1 beta = true) ∧
  (∃ reshape_out, Pattern.node_inputs gemm = [Some reshape_out; Some b; Some c] ∧
                  producer g reshape_out = Some reshape) ∧
  same_op "" "Reshape" reshape = true ∧
  Pattern.node_inputs reshape = [Some a; Some shape_a].

(** The binding that a match of the chain produces. *)
Definition chain_bindings (a b c shape_a shape_c : handle) : gmap string handle :=
  <["shape_c" := shape_c]> (<["input_c" := c]> (<["input_b" := b]>
    (<["shape_a" := shape_a]> (<["input_a" := a]> ∅)))).

(** The replacement in the words of the specification: [Add(MatMul(a, b), c)],
    built on the handles from [fresh] on. *)
Definition matmul_add_nodes (a b c fresh : handle) : list Pattern.Node :=
  [Pattern.mk_Node fresh "" "MatMul" [Some a; Some b] [fresh] ∅;
   Pattern.mk_Node (S fresh) "" "Add" [Some fresh; Some c] [S fresh] ∅].

End GemmToMatmulAdd.

(** ** [onnxscript/optimizer/__init__.py] *)

Module Optimizer.

(** The passes that [optimize] sequences.  Their modules are not among the
    sources, so they are taken as parameters: each receives the model and
    hands back the model it leaves behind (mutated in place or rebuilt), or
    raises. *)
Class Passes (ModelProto : Type) : Type := {
  ByteSize : ModelProto → Z;
  (** [onnx.shape_inference.infer_shapes(model, check_type=True,
      strict_mode=True, data_prop=True)] *)
  infer_shapes : ModelProto → Result ModelProto;
  inline_simple_functions : ModelProto → Result ModelProto;
  (** [fold_constants(model, external_data_folder, onnx_shape_inference=...)]
      also returns its [modified] flag. *)
  fold_constants : ModelProto → string → bool → Result (ModelProto * bool);
  remove_unused_nodes : ModelProto → Result ModelProto;
  remove_unused_functions : ModelProto → Result ModelProto;
  inline_functions_with_unused_outputs : ModelProto → Result ModelProto;
  (** [rewriter.rewrite(model, pattern_rewrite_rules=...)] *)
  rewrite : ModelProto → list RewriteRule → Result ModelProto;
  no_op_rules : RewriteRuleSet;
  cast_constant_of_shape_rules : RewriteRuleSet
}.

(** What a run of [optimize] does that is observable besides its result:
    the iterations it enters, its calls of shape inference, its calls of
    constant folding with the arguments they receive, and what it logs. *)
Inductive Event (ModelProto : Type) : Type :=
| Iteration (i : nat) (model : ModelProto)
| InferShapes (model : ModelProto)
| FoldConstants (model : ModelProto) (external_data_folder : string)
    (onnx_shape_inference : bool)
| LogWarning (msg : string)
| LogDebugStopping (i : nat).
Arguments Iteration {ModelProto} i model.
Arguments InferShapes {ModelProto} model.
Arguments FoldConstants {ModelProto} model external_data_folder
  onnx_shape_inference.
Arguments LogWarning {ModelProto} msg.
Arguments LogDebugStopping {ModelProto} i.

(** A computation that records events and may raise. *)
Definition Run (ModelProto A : Type) : Type :=
  list (Event ModelProto) * Result A.

#[global] Instance run_ret {ModelProto} : MRet (Run ModelProto) :=
  λ A a, ([], Ok a).
#[global] Instance run_bind {ModelProto} : MBind (Run ModelProto) :=
  λ A B f m,
    match m with
    | (log, Ok a) => let '(log', r) := f a in (log ++ log', r)
    | (log, Raise e) => (log, Raise e)
    end.

Definition emit {ModelProto} (e : Event ModelProto) : Run ModelProto () :=
  ([e], Ok ()).
Definition lift {ModelProto A} (r : Result A) : Run ModelProto A := ([], r).

(** [__all__] *)
Definition __all__ : list string :=
  ["fold_constants"; "remove_unused_nodes"; "optimize";
   "do_copy_propagation"; "do_sequence_simplification"].

Section Optimize.
Context {ModelProto : Type} `{Passes ModelProto}.

Definition pattern_rewrite_rules : list RewriteRule :=
  rules no_op_rules ++ rules BroadcastToMatmul.rules
    ++ [GemmToMatmulAdd.rule] ++ rules cast_constant_of_shape_rules.

(** Lines 58-67. *)
Definition refresh_shapes (onnx_shape_inference : bool) (model : ModelProto)
    : Run ModelProto ModelProto :=
  if onnx_shape_inference then
    if ByteSize model <? 1024 * 1024 * 1024 * 2 then
      emit (InferShapes model);;
      lift (infer_shapes model)
    else
      emit (LogWarning
        "The model size is too large for full model shape inference. Skipping this step.");;
      mret model
  else mret model.

(** Lines 58-87: the body of the loop; returns the model and [modified]. *)
Definition iteration (onnx_shape_inference : bool)
    (external_data_folder : string) (model : ModelProto)
    : Run ModelProto (ModelProto * bool) :=
  model ← refresh_shapes onnx_shape_inference model;
  model ← lift (inline_simple_functions model);
  emit (FoldConstants model external_data_folder onnx_shape_inference);;
  '(model, modified) ←
    lift (fold_constants model external_data_folder onnx_shape_inference);
  model ← lift (remove_unused_nodes model);
  model ← lift (inline_simple_functions model);
  model ← lift (remove_unused_functions model);
  model ← lift (inline_functions_with_unused_outputs model);
  model ← lift (rewrite model pattern_rewrite_rules);
  mret (model, modified).

(** Lines 57-90: [for _ in range(num_iterations)], entered at index [i]
    with [remaining] indices left. *)
Fixpoint iterations (onnx_shape_inference stop_if_no_change : bool)
    (external_data_folder : string) (remaining i : nat) (model : ModelProto)
    : Run ModelProto ModelProto :=
  match remaining with
  | O => mret model
  | S remaining =>
      emit (Iteration i model);;
      '(model, modified) ←
        iteration onnx_shape_inference external_data_folder model;
      if stop_if_no_change && negb modified then
        emit (LogDebugStopping i);;
        mret model
      else
        iterations onnx_shape_inference stop_if_no_change
          external_data_folder remaining (S i) model
  end.

(** Lines 51-56: the text of the deprecation warning. *)
Definition function_aware_folding_is_deprecated : string :=
  "'function_aware_folding' is deprecated. 'optimize' now supports both fully inlined models and models with functions. "
  +:+ "To achieve the same behavior as 'function_aware_folding=True' before, set 'onnx_shape_inference=False'. "
  +:+ "This would turn off incremental onnx shape inference and rely on model carried shapes and types. "
  +:+ "See 'onnx_shape_inference' for more details.".

(** Lines 28-107.  [function_aware_folding] is the only keyword looked for
    in [kwargs]; the closing debug logging of the nodes has no effect on
    the model and is left out. *)
Definition optimize (model : ModelProto) (num_iterations : Z)
    (onnx_shape_inference stop_if_no_change : bool)
    (external_data_folder : string) (function_aware_folding : option bool)
    : Run ModelProto ModelProto :=
  (if function_aware_folding is Some _ then
     emit (LogWarning function_aware_folding_is_deprecated)
   else mret ());;
  iterations onnx_shape_inference stop_if_no_change external_data_folder
    (Z.to_nat num_iterations) 0 model.

(** The iterations entered in a run, in order. *)
Definition iterations_of (log : list (Event ModelProto))
    : list (nat * ModelProto) :=
  omap (λ e, match e with Iteration i m => Some (i, m) | _ => None end) log.

(** The models handed to shape inference in a run, in order. *)
Definition inferred_of (log : list (Event ModelProto)) : list ModelProto :=
  omap (λ e, match e with InferShapes m => Some m | _ => None end) log.

(** The calls of [fold_constants] in a run, in order: the model, the
    external data folder and the value of [onnx_shape_inference] that each
    call receives. *)
Definition folded_of (log : list (Event ModelProto))
    : list (ModelProto * string * bool) :=
  omap (λ e, match e with
             | FoldConstants m folder flag => Some (m, folder, flag)
             | _ => None
             end) log.

(** No pass of an iteration entered with [model] changes it: each one, run
    on [model], hands [model] back. *)
Definition no_pass_changed (onnx_shape_inference : bool)
    (external_data_folder : string) (model : ModelProto) : Prop :=
  (refresh_shapes onnx_shape_inference model).2 = Ok model ∧
  inline_simple_functions model = Ok model ∧
  (∃ modified,
     fold_constants model external_data_folder onnx_shape_inference
     = Ok (model, modified)) ∧
  remove_unused_nodes model = Ok model ∧
  remove_unused_functions model = Ok model ∧
  inline_functions_with_unused_outputs model = Ok model ∧
  rewrite model pattern_rewrite_rules = Ok model.

(** The contract on the [modified] flag of [fold_constants] (section 4.7 of
    the specification): it is not raised when the model is left as it was. *)
Definition fold_constants_accurate : Prop :=
  ∀ model external_data_folder onnx_shape_inference modified,
    fold_constants model external_data_folder onnx_shape_inference
    = Ok (model, modified) →
    modified = false.

End Optimize.

End Optimizer.

(** ** [onnxscript/ir/serde.py] *)

Module Serde.

(** *** Protos and enums *)

(** [_enums.DataType]; the enum is not among the sources, its members carry
    the values of [onnx.TensorProto.DataType]. *)
Inductive DataType : Type :=
| UNDEFINED | FLOAT | UINT8 | INT8 | UINT16 | INT16 | INT32 | INT64 | STRING
| BOOL | FLOAT16 | DOUBLE | UINT32 | UINT64 | COMPLEX64 | COMPLEX128
| BFLOAT16 | FLOAT8E4M3FN | FLOAT8E4M3FNUZ | FLOAT8E5M2 | FLOAT8E5M2FNUZ
| UINT4 | INT4.

Definition DataType_value (d : DataType) : Z :=
  match d with
  | UNDEFINED => 0 | FLOAT => 1 | UINT8 => 2 | INT8 => 3 | UINT16 => 4
  | INT16 => 5 | INT32 => 6 | INT64 => 7 | STRING => 8 | BOOL => 9
  | FLOAT16 => 10 | DOUBLE => 11 | UINT32 => 12 | UINT64 => 13
  | COMPLEX64 => 14 | COMPLEX128 => 15 | BFLOAT16 => 16 | FLOAT8E4M3FN => 17
  | FLOAT8E4M3FNUZ => 18 | FLOAT8E5M2 => 19 | FLOAT8E5M2FNUZ => 20
  | UINT4 => 21 | INT4 => 22
  end.

Definition all_data_types : list DataType :=
  [UNDEFINED; FLOAT; UINT8; INT8; UINT16; INT16; INT32; INT64; STRING; BOOL;
   FLOAT16; DOUBLE; UINT32; UINT64; COMPLEX64; COMPLEX128; BFLOAT16;
   FLOAT8E4M3FN; FLOAT8E4M3FNUZ; FLOAT8E5M2; FLOAT8E5M2FNUZ; UINT4; INT4].

(** [_enums.DataType(n)] *)
Definition DataType_of (n : Z) : Result DataType :=
  match find (λ d, DataType_value d =? n) all_data_types with
  | Some d => Ok d
  | None => Raise (ValueError "not a valid DataType")
  end.

(** [n in compatible_types], for the integer [n] of a proto. *)
Definition in_types (n : Z) (types : list DataType) : bool :=
  existsb (λ d, DataType_value d =? n) types.

(** A float is kept as its IEEE-754 bit pattern, bytes as a string. *)
Definition float : Type := Z.
Definition bytes : Type := string.

Inductive DataLocation : Type := DEFAULT | EXTERNAL.

#[global] Instance DataLocation_eq_dec : EqDecision DataLocation.
Proof. solve_decision. Defined.

(** The entries of [external_data], as [ExternalDataInfo] reads them. *)
Module ExternalDataInfo.
Record t : Type := mk {
  location : string;
  offset : option Z;
  length : option Z
}.
End ExternalDataInfo.

Module TensorProto.
Record t : Type := mk {
  dims : list Z;
  data_type : Z;
  float_data : list float;
  int32_data : list Z;
  string_data : list bytes;
  int64_data : list Z;
  name : string;
  doc_string : string;
  raw_data : option bytes;
  external_data : ExternalDataInfo.t;
  data_location : DataLocation;
  double_data : list float;
  uint64_data : list Z
}.

(** [onnx.TensorProto()] *)
Definition empty : t :=
  mk [] 0 [] [] [] [] "" "" None (ExternalDataInfo.mk "" None None) DEFAULT
    [] [].

(** At least one of the data fields holds something. *)
Definition has_data (p : t) : bool :=
  bool_decide (raw_data p ≠ None) || bool_decide (float_data p ≠ [])
  || bool_decide (int32_data p ≠ []) || bool_decide (string_data p ≠ [])
  || bool_decide (int64_data p ≠ []) || bool_decide (double_data p ≠ [])
  || bool_decide (uint64_data p ≠ []).
End TensorProto.

Record DimensionProto : Type := mk_DimensionProto {
  dim_value : option (Z + string);   (* the [value] oneof *)
  dim_denotation : option string
}.

Inductive TypeProto : Type :=
| tensor_type (denotation : option string) (elem_type : option Z)
    (shape : option (list DimensionProto))
| sparse_tensor_type (denotation : option string) (elem_type : option Z)
    (shape : option (list DimensionProto))
| sequence_type (denotation : option string) (elem_type : option TypeProto)
| optional_type (denotation : option string) (elem_type : option TypeProto)
| map_type (denotation : option string)
| no_type (denotation : option string).

Record ValueInfoProto : Type := mk_ValueInfoProto {
  vi_name : string;
  vi_type : TypeProto
}.

(** [_enums.AttributeType], as far as [_deserialize_attribute] tells the
    members apart. *)
Inductive AttributeType : Type :=
| INT | FLOAT_ | STRING_ | INTS | FLOATS | STRINGS | TENSOR | GRAPH
| TENSORS | GRAPHS | OTHER (n : Z).

Inductive GraphProto : Type :=
  mk_GraphProto (name doc_string : option string)
    (initializer : list TensorProto.t) (input output value_info : list ValueInfoProto)
    (node : list NodeProto)
with NodeProto : Type :=
  mk_NodeProto (input output : list string) (name op_type domain overload : string)
    (attribute : list AttributeProto) (metadata_props : list (string * string))
with AttributeProto : Type :=
  mk_AttributeProto (name : string) (doc_string ref_attr_name : option string)
    (type : AttributeType) (i : Z) (f : float) (s : bytes)
    (t : TensorProto.t) (g : GraphProto) (ints : list Z) (floats : list float)
    (strings : list bytes) (tensors : list TensorProto.t)
    (graphs : list GraphProto).

(** *** IR objects *)

Inductive TensorClass : Type :=
| TensorProtoTensor | FloatDataTensor | Int32DataTensor | Int64DataTensor
| DoubleDataTensor | UInt64DataTensor.

Definition compatible_types (cls : TensorClass) : list DataType :=
  match cls with
  | TensorProtoTensor => all_data_types
  | FloatDataTensor => [FLOAT; COMPLEX64]
  | Int32DataTensor =>
      [INT32; INT16; INT8; INT4; UINT16; UINT8; UINT4; BOOL; FLOAT16;
       BFLOAT16; FLOAT8E4M3FN; FLOAT8E4M3FNUZ; FLOAT8E5M2; FLOAT8E5M2FNUZ]
  | Int64DataTensor => [INT64]
  | DoubleDataTensor => [DOUBLE; COMPLEX128]
  | UInt64DataTensor => [UINT64; UINT32]
  end.

(** A tensor of the IR: an [_core.ExternalTensor], or an instance of
    [TensorProtoTensor] or of one of its subclasses, which keeps the proto
    it was made from in [_proto].  The [doc_string] of an external tensor is
    a string or [None]. *)
Inductive Tensor : Type :=
| ExternalTensor (path : string) (offset length : option Z) (dtype : DataType)
    (name : string) (shape : list Z) (doc_string : option string)
| ProtoTensor (cls : TensorClass) (_proto : TensorProto.t).

(** [isinstance(from_, TensorProtoTensor)] *)
Definition is_TensorProtoTensor (x : Tensor) : bool :=
  match x with ProtoTensor _ _ => true | ExternalTensor _ _ _ _ _ _ _ => false end.

Definition tensor_name (x : Tensor) : string :=
  match x with
  | ExternalTensor _ _ _ _ name _ _ => name
  | ProtoTensor _ p => TensorProto.name p
  end.

Definition tensor_shape (x : Tensor) : list Z :=
  match x with
  | ExternalTensor _ _ _ _ _ shape _ => shape
  | ProtoTensor _ p => TensorProto.dims p
  end.

Definition tensor_dtype (x : Tensor) : Result DataType :=
  match x with
  | ExternalTensor _ _ _ dtype _ _ _ => Ok dtype
  | ProtoTensor _ p => DataType_of (TensorProto.data_type p)
  end.

(** [__init__] of [TensorProtoTensor] and of its subclasses. *)
Definition new_tensor (cls : TensorClass) (proto : TensorProto.t) : Result Tensor :=
  match cls with
  | TensorProtoTensor => Ok (ProtoTensor cls proto)
  | _ =>
      if in_types (TensorProto.data_type proto) (compatible_types cls)
      then Ok (ProtoTensor cls proto)
      else Raise (ValueError "unexpected data type")
  end.

(** [os.path.join(base_path, location)] on POSIX paths. *)
Definition path_join (base_path location : string) : string :=
  if String.prefix "/" location then location
  else if bool_decide (base_path = "") then location
  else if String.prefix "/" (String.rev base_path) then base_path +:+ location
  else base_path +:+ "/" +:+ location.

(** *** Tensors (lines 538-570 and 972-1004) *)

Definition deserialize_tensor (tensor : TensorProto.t) (base_path : string)
    : Result Tensor :=
  if bool_decide (TensorProto.data_location tensor = EXTERNAL) then
    let external_info := TensorProto.external_data tensor in
    dtype ← DataType_of (TensorProto.data_type tensor);
    Ok (ExternalTensor
          (path_join base_path (ExternalDataInfo.location external_info))
          (ExternalDataInfo.offset external_info)
          (ExternalDataInfo.length external_info) dtype
          (TensorProto.name tensor) (TensorProto.dims tensor)
          (Some (TensorProto.doc_string tensor)))
  else if bool_decide (TensorProto.raw_data tensor ≠ None) then
    new_tensor TensorProtoTensor tensor
  else if in_types (TensorProto.data_type tensor) (compatible_types FloatDataTensor) then
    new_tensor FloatDataTensor tensor
  else if in_types (TensorProto.data_type tensor) (compatible_types Int32DataTensor) then
    new_tensor Int32DataTensor tensor
  else if in_types (TensorProto.data_type tensor) (compatible_types Int64DataTensor) then
    new_tensor Int64DataTensor tensor
  else if in_types (TensorProto.data_type tensor) (compatible_types DoubleDataTensor) then
    new_tensor DoubleDataTensor tensor
  else if in_types (TensorProto.data_type tensor) (compatible_types UInt64DataTensor) then
    new_tensor UInt64DataTensor tensor
  else
    Raise (ValueError
      ("TensorProto(name=" +:+ TensorProto.name tensor +:+
       ") does not have any data fields set and is not an external tensor.")).

(** The integers that an [int64] field of a proto holds. *)
Definition int64 (n : Z) : bool := (- 2 ^ 63 <=? n) && (n <? 2 ^ 63).

(** [field = value] on an [int64] field, and what [field.append(value)]
    appends to a repeated one: protobuf raises [ValueError] on an integer
    that the field cannot hold. *)
Definition set_int64 (value : Z) : Result Z :=
  if int64 value then Ok value
  else Raise (ValueError ("Value out of range: " +:+ pretty value)).

(** [field.extend(values)] on a repeated [int64] field. *)
Fixpoint extend_int64 (field values : list Z) : Result (list Z) :=
  match values with
  | [] => Ok field
  | value :: values =>
      value ← set_int64 value;
      extend_int64 (field ++ [value]) values
  end.

(** Lines 978-1003.  Of the tensors that are not instances of
    [TensorProtoTensor], only the external ones are modelled. *)
Definition serialize_tensor_into (tensor_proto : TensorProto.t) (from_ : Tensor)
    : Result TensorProto.t :=
  match from_ with
  | ProtoTensor _ raw => Ok raw         (* [tensor_proto.CopyFrom(from_.raw)] *)
  | ExternalTensor path offset length dtype name shape doc_string =>
      let p := tensor_proto in
      let doc_string :=
        match doc_string with
        | Some doc_string =>
            if bool_decide (doc_string = "") then TensorProto.doc_string p
            else doc_string
        | None => TensorProto.doc_string p
        end in
      dims ← extend_int64 (TensorProto.dims p) shape;
      Ok (TensorProto.mk
            dims
            (DataType_value dtype)
            (TensorProto.float_data p) (TensorProto.int32_data p)
            (TensorProto.string_data p) (TensorProto.int64_data p)
            name
            doc_string
            (TensorProto.raw_data p)
            (ExternalDataInfo.mk path offset length)
            EXTERNAL
            (TensorProto.double_data p) (TensorProto.uint64_data p))
  end.

(** Lines 972-975. *)
Definition serialize_tensor (tensor : Tensor) : Result TensorProto.t :=
  serialize_tensor_into TensorProto.empty tensor.

(** *** Objects of [_core] built by deserialization *)

Record Dimension : Type := mk_Dimension {
  dimension_value : option (Z + string);
  dimension_denotation : option string
}.

Definition Shape : Type := list Dimension.

Inductive TypeProtocol : Type :=
| TensorType (dtype : DataType) (denotation : option string)
| SparseTensorType (dtype : DataType) (denotation : option string)
| SequenceType (elem_type : TypeProtocol) (denotation : option string)
| OptionalType (elem_type : TypeProtocol) (denotation : option string).

(** A [_core.Value] (or [_core.Input]) object. *)
Module Value.
Record t : Type := mk {
  name : option string;
  shape : option Shape;
  type : option TypeProtocol;
  const_value : option Tensor
}.
End Value.

(** Objects are referred to by their address in a store. *)
Definition ref : Type := nat.

Inductive Graph : Type :=
  mk_Graph (inputs outputs : list ref) (nodes : list Node)
    (initializers : list Tensor) (doc_string name : option string)
with Node : Type :=
  mk_Node (domain op_type : string) (inputs : list (option ref))
    (attributes : list Attr) (overload : string) (outputs : list ref)
    (name : string) (metadata_props : gmap string string)
with Attr : Type :=
| AttrInt64 (name : string) (value : Z) (doc_string : option string)
| AttrFloat32 (name : string) (value : float) (doc_string : option string)
| AttrString (name : string) (value : string) (doc_string : option string)
| AttrInt64s (name : string) (value : list Z) (doc_string : option string)
| AttrFloat32s (name : string) (value : list float) (doc_string : option string)
| AttrStrings (name : string) (value : list string) (doc_string : option string)
| AttrTensor (name : string) (value : Tensor) (doc_string : option string)
| AttrGraph (name : string) (value : Graph) (doc_string : option string)
| AttrTensors (name : string) (value : list Tensor) (doc_string : option string)
| AttrGraphs (name : string) (value : list Graph) (doc_string : option string)
| RefAttr (name ref_attr_name : string) (type : AttributeType)
    (doc_string : option string).

Definition node_inputs (n : Node) : list (option ref) :=
  match n with mk_Node _ _ inputs _ _ _ _ _ => inputs end.
Definition node_outputs (n : Node) : list ref :=
  match n with mk_Node _ _ _ _ _ outputs _ _ => outputs end.

(** *** Type and shape protos (lines 457-535) *)

Definition deserialize_dimension (proto : DimensionProto) : Dimension :=
  match dim_value proto with
  | Some v => mk_Dimension (Some v) (dim_denotation proto)
  | None => mk_Dimension None None
  end.

Fixpoint deserialize_type_proto_for_shape (proto : TypeProto)
    : Result (option Shape) :=
  match proto with
  | tensor_type _ _ shape_proto | sparse_tensor_type _ _ shape_proto =>
      Ok (fmap (M:=option) (fmap (M:=list) deserialize_dimension) shape_proto)
  | sequence_type _ elem_type | optional_type _ elem_type =>
      match elem_type with
      | None => Ok None
      | Some elem_type => deserialize_type_proto_for_shape elem_type
      end
  | map_type _ => Raise (NotImplementedError "Map types are not supported yet")
  | no_type _ => Ok None
  end.

Fixpoint deserialize_type_proto_for_type (proto : TypeProto)
    : Result (option TypeProtocol) :=
  match proto with
  | tensor_type denotation elem_type _ =>
      match elem_type with
      | None => Ok None
      | Some elem_type =>
          dtype ← DataType_of elem_type; Ok (Some (TensorType dtype denotation))
      end
  | sparse_tensor_type denotation elem_type _ =>
      match elem_type with
      | None => Ok None
      | Some elem_type =>
          dtype ← DataType_of elem_type;
          Ok (Some (SparseTensorType dtype denotation))
      end
  | sequence_type denotation elem_type =>
      match elem_type with
      | None => Raise (ValueError "SequenceTypeProto must have elem_type set")
      | Some elem_type =>
          nested_type ← deserialize_type_proto_for_type elem_type;
          match nested_type with
          | None => Raise (ValueError "SequenceType must have elem_type set")
          | Some nested_type => Ok (Some (SequenceType nested_type denotation))
          end
      end
  | optional_type denotation elem_type =>
      match elem_type with
      | None => Raise (ValueError "SequenceTypeProto must have elem_type set")
      | Some elem_type =>
          nested_type ← deserialize_type_proto_for_type elem_type;
          match nested_type with
          | None => Raise (ValueError "SequenceType must have elem_type set")
          | Some nested_type => Ok (Some (OptionalType nested_type denotation))
          end
      end
  | map_type _ => Raise (NotImplementedError "Map types are not supported yet")
  | no_type _ => Ok None
  end.

(** *** The state threaded through deserialization

    [scoped_values] is a Python list of dict objects; the dicts and the
    Value objects they map names to are shared and mutated in place, so both
    live in stores and are referred to by address. *)
Record State : Type := mk_State {
  scoped_values : list ref;
  dicts : list (gmap string ref);
  heap : list Value.t
}.

Definition M (A : Type) : Type := State → Result (A * State).

#[global] Instance M_ret : MRet M := λ A a st, Ok (a, st).
#[global] Instance M_bind : MBind M := λ A B f m st,
  match m st with
  | Ok (a, st') => f a st'
  | Raise e => Raise e
  end.

Definition raise {A} (e : Exn) : M A := λ _, Raise e.
Definition lift {A} (r : Result A) : M A := λ st,
  match r with Ok a => Ok (a, st) | Raise e => Raise e end.

(** [[f(x) for x in l]] where [f] touches no shared object. *)
Fixpoint mapR {A B} (f : A → Result B) (l : list A) : Result (list B) :=
  match l with
  | [] => Ok []
  | x :: xs => y ← f x; ys ← mapR f xs; Ok (y :: ys)
  end.

Section Loops.
Context {A B : Type} (f : A → M B).

(** [[f(x) for x in l]] *)
Fixpoint mapM (l : list A) : M (list B) :=
  match l with
  | [] => mret []
  | x :: xs => y ← f x; ys ← mapM xs; mret (y :: ys)
  end.
End Loops.

(** [for x in l: f(x)] *)
Definition forM_ {A} (f : A → M ()) (l : list A) : M () :=
  mapM f l;; mret ().

(** Allocation of a Value object, and assignment to its attributes. *)
Definition new_value (v : Value.t) : M ref := λ st,
  Ok (List.length (heap st),
      mk_State (scoped_values st) (dicts st) (heap st ++ [v])).

Definition update_value (r : ref) (f : Value.t → Value.t) : M () := λ st,
  Ok ((), mk_State (scoped_values st) (dicts st) (alter f r (heap st))).

(** Allocation of a dict object, reading it and [d[key] = v]. *)
Definition new_dict (d : gmap string ref) : M ref := λ st,
  Ok (List.length (dicts st),
      mk_State (scoped_values st) (dicts st ++ [d]) (heap st)).

Definition read_dict (d : ref) : M (gmap string ref) := λ st,
  Ok (default ∅ (dicts st !! d), st).

Definition dict_setitem (d : ref) (key : string) (v : ref) : M () := λ st,
  Ok ((), mk_State (scoped_values st) (alter (insert key v) d (dicts st)) (heap st)).

(** [scoped_values.append(values)], [scoped_values.pop()] and
    [scoped_values[-1]]. *)
Definition scoped_values_append (values : ref) : M () := λ st,
  Ok ((), mk_State (scoped_values st ++ [values]) (dicts st) (heap st)).

Definition scoped_values_pop : M () := λ st,
  match scoped_values st with
  | [] => Raise IndexError
  | _ :: _ => Ok ((), mk_State (removelast (scoped_values st)) (dicts st) (heap st))
  end.

Definition scoped_values_last : M ref := λ st,
  match last (scoped_values st) with
  | Some d => Ok (d, st)
  | None => Raise IndexError
  end.

(** [{k: v for k, v in items}]: a later item overwrites an earlier one. *)
Definition dict_of {V} (items : list (string * V)) : gmap string V :=
  foldl (λ d kv, <[kv.1 := kv.2]> d) ∅ items.

(** Lines 457-465. *)
Definition deserialize_value_info_proto (proto : ValueInfoProto)
    (value : option ref) : M ref :=
  value ← match value with
          | Some value => mret value
          | None => new_value (Value.mk (Some (vi_name proto)) None None None)
          end;
  shape ← lift (deserialize_type_proto_for_shape (vi_type proto));
  update_value value (λ v, Value.mk (Value.name v) shape (Value.type v)
                             (Value.const_value v));;
  type ← lift (deserialize_type_proto_for_type (vi_type proto));
  update_value value (λ v, Value.mk (Value.name v) (Value.shape v) type
                             (Value.const_value v));;
  mret value.

(** *** Graphs, nodes and attributes (lines 364-419 and 573-674) *)

(** Lines 639-644: the scopes are searched from the innermost outwards. *)
Fixpoint find_in_scopes (dicts : list (gmap string ref)) (name : string)
    (reversed_scoped_values : list ref) : option ref :=
  match reversed_scoped_values with
  | [] => None
  | values :: rest =>
      match default ∅ (dicts !! values) !! name with
      | Some value => Some value
      | None => find_in_scopes dicts name rest
      end
  end.

Definition not_found_message (name node_name domain op_type overload : string)
    (depth : nat) : string :=
  "Input '" +:+ name +:+ "' of node '" +:+ node_name +:+ "(" +:+ domain
    +:+ "::" +:+ op_type +:+ ":" +:+ overload
    +:+ ")' not found in any scope (current depth: " +:+ pretty depth +:+ ")".

(** Lines 633-649: one round of the loop over [proto.input]. *)
Definition resolve_input (node_name domain op_type overload : string)
    (name : string) : M (option ref) := λ st,
  if bool_decide (name = "") then Ok (None, st)
  else
    match find_in_scopes (dicts st) name (reverse (scoped_values st)) with
    | Some value => Ok (Some value, st)
    | None =>
        Raise (ValueError
                 (not_found_message name node_name domain op_type overload
                    (List.length (scoped_values st))))
    end.

(** Lines 385-400: one round of the loop over the initializers. *)
Definition register_initializer (values : ref) (initializer : Tensor) : M () :=
  d ← read_dict values;
  match d !! tensor_name initializer with
  | Some value =>
      update_value value
        (λ v, Value.mk (Value.name v) (Value.shape v) (Value.type v)
                (Some initializer))
  | None =>
      let shape := (λ n, mk_Dimension (Some (inl n)) None) <$> tensor_shape initializer in
      dtype ← lift (tensor_dtype initializer);
      initializer_value ←
        new_value (Value.mk (Some (tensor_name initializer)) (Some shape)
                     (Some (TensorType dtype None)) (Some initializer));
      dict_setitem values (tensor_name initializer) initializer_value
  end.

(** Lines 660-671: one round of the loop over the outputs of a node. *)
Definition register_output (value_info : gmap string ValueInfoProto)
    (output : string) (value : ref) : M () :=
  update_value value
    (λ v, Value.mk (Some output) (Value.shape v) (Value.type v)
            (Value.const_value v));;
  match value_info !! output with
  | Some info => deserialize_value_info_proto info (Some value);; mret ()
  | None => mret ()
  end;;
  innermost ← scoped_values_last;
  dict_setitem innermost output value.

(** Line 410: one element of the list of graph outputs. *)
Definition graph_output (values : ref) (info : ValueInfoProto) : M ref :=
  d ← read_dict values;
  match d !! vi_name info with
  | Some value => deserialize_value_info_proto info (Some value)
  | None => raise (KeyError (vi_name info))
  end.

Fixpoint _deserialize_graph (proto : GraphProto) : M Graph :=
  match proto with
  | mk_GraphProto name doc_string initializer input output value_info node =>
      initializers ← lift (mapR (λ tensor, deserialize_tensor tensor "") initializer);
      inputs ← mapM (λ info, new_value (Value.mk (Some (vi_name info)) None None None))
                 input;
      forM_ (λ '(info, value),
               deserialize_value_info_proto info (Some value);; mret ())
        (zip input inputs);;
      values ← new_dict (dict_of (zip (vi_name <$> input) inputs));
      scoped_values_append values;;
      forM_ (register_initializer values) initializers;;
      let value_info := dict_of ((λ info, (vi_name info, info)) <$> value_info) in
      nodes ← mapM (λ node, _deserialize_node node value_info) node;
      outputs ← mapM (graph_output values) output;
      scoped_values_pop;;
      mret (mk_Graph inputs outputs nodes initializers doc_string name)
  end

with _deserialize_node (proto : NodeProto)
    (value_info : gmap string ValueInfoProto) : M Node :=
  match proto with
  | mk_NodeProto input output name op_type domain overload attribute
      metadata_props =>
      node_inputs ← mapM (resolve_input name domain op_type overload) input;
      attributes ← mapM _deserialize_attribute attribute;
      outputs ← mapM (λ _, new_value (Value.mk None None None None)) output;
      forM_ (λ '(output, value), register_output value_info output value)
        (zip output outputs);;
      mret (mk_Node domain op_type node_inputs attributes overload outputs
              name (dict_of metadata_props))
  end

with _deserialize_attribute (proto : AttributeProto) : M Attr :=
  match proto with
  | mk_AttributeProto name doc_string ref_attr_name type_ i f s t g ints
      floats strings tensors graphs =>
      if bool_decide (ref_attr_name ≠ None ∧ ref_attr_name ≠ Some "") then
        mret (RefAttr name (default "" ref_attr_name) type_ doc_string)
      else
        match type_ with
        | INT => mret (AttrInt64 name i doc_string)
        | FLOAT_ => mret (AttrFloat32 name f doc_string)
        | STRING_ => mret (AttrString name s doc_string)
        | INTS => mret (AttrInt64s name ints doc_string)
        | FLOATS => mret (AttrFloat32s name floats doc_string)
        | STRINGS => mret (AttrStrings name strings doc_string)
        | TENSOR =>
            tensor ← lift (deserialize_tensor t "");
            mret (AttrTensor name tensor doc_string)
        | GRAPH =>
            graph ← _deserialize_graph g;
            mret (AttrGraph name graph doc_string)
        | TENSORS =>
            l ← lift (mapR (λ t, deserialize_tensor t "") tensors);
            mret (AttrTensors name l doc_string)
        | GRAPHS =>
            l ← mapM _deserialize_graph graphs;
            mret (AttrGraphs name l doc_string)
        | OTHER _ => raise (ValueError "Unsupported attribute type")
        end
  end.

(** What a name resolves to in the scopes of a state, innermost first; and
    what the loop over the inputs of a node makes of a name. *)
Definition visible (st : State) (name : string) : option ref :=
  find_in_scopes (dicts st) name (reverse (scoped_values st)).

Definition resolved (st : State) (name : string) : option ref :=
  if bool_decide (name = "") then None else visible st name.

(** Every dict on the scope stack is an object of the store. *)
Definition wf_scopes (st : State) : Prop :=
  ∀ d, d ∈ scoped_values st → (d < List.length (dicts st))%nat.

(** [st'] comes after [st]: the stores have only grown, and every dict that
    existed in [st], except possibly [top], still maps the same names to the
    same values. *)
Definition stores_grow (top : option ref) (st st' : State) : Prop :=
  (List.length (dicts st) ≤ List.length (dicts st'))%nat ∧
  (List.length (heap st) ≤ List.length (heap st'))%nat ∧
  ∀ d, (d < List.length (dicts st))%nat → Some d ≠ top →
       dicts st' !! d = dicts st !! d.

(** The same, with the scope stack as it was. *)
Definition stable (top : option ref) (st st' : State) : Prop :=
  scoped_values st' = scoped_values st ∧ stores_grow top st st'.

Definition empty_state : State := mk_State [] [] [].

(** [deserialize_graph(proto)], [deserialize_node(proto)] and
    [deserialize_attribute(proto)] start from [scoped_values = []]. *)
Definition deserialize_graph (proto : GraphProto) : Result (Graph * State) :=
  _deserialize_graph proto empty_state.

Definition deserialize_node (proto : NodeProto) : Result (Node * State) :=
  _deserialize_node proto ∅ empty_state.

Definition deserialize_attribute (proto : AttributeProto) : Result (Attr * State) :=
  _deserialize_attribute proto empty_state.

End Serde.

(** ** Concrete graphs and passes used to exercise the definitions *)

Module Scenarios.

Local Open Scope nat_scope.

Definition shape_tensor (l : list Z) : ndarray :=
  mk_ndarray [Z.of_nat (length l)] l.

Definition plain_node (id : handle) (op_type : string) (inputs : list handle)
    : Pattern.Node :=
  Pattern.mk_Node id "" op_type (Some <$> inputs) [id] ∅.

(** Scenario A: [Reshape(a, shape_a) → MatMul(_, b) → Reshape(_, shape_c)]
    with [a : [2,3,4]], [shape_a = [6,4]], [b : [4,5]], [shape_c = [2,3,5]],
    consumed by a [Relu].  Values 0 and 1 are [a] and [b], 2 and 3 the
    initializers [shape_a] and [shape_c]. *)
Definition scenario_a : Pattern.Graph :=
  Pattern.mk_Graph
    [plain_node 4 "Reshape" [0; 2]; plain_node 5 "MatMul" [4; 1];
     plain_node 6 "Reshape" [5; 3]; plain_node 7 "Relu" [6]]
    [0; 1] [7]
    (<[2 := shape_tensor [6; 4]%Z]> (<[3 := shape_tensor [2; 3; 5]%Z]> ∅))
    (<[0 := [2; 3; 4]%Z]> (<[1 := [4; 5]%Z]> (<[4 := [6; 4]%Z]> ∅)))
    8.

Definition scenario_a_rewritten : Pattern.Graph :=
  Pattern.mk_Graph
    [plain_node 8 "MatMul" [0; 1]; plain_node 7 "Relu" [8]]
    [0; 1] [7]
    (<[2 := shape_tensor [6; 4]%Z]> (<[3 := shape_tensor [2; 3; 5]%Z]> ∅))
    (<[0 := [2; 3; 4]%Z]> (<[1 := [4; 5]%Z]> (<[4 := [6; 4]%Z]> ∅)))
    9.

(** Scenario C: as scenario A, but [shape_c] (value 3) is the output of a
    [Shape] node, not a constant. *)
Definition scenario_c : Pattern.Graph :=
  Pattern.mk_Graph
    [plain_node 3 "Shape" [1];
     plain_node 4 "Reshape" [0; 2]; plain_node 5 "MatMul" [4; 1];
     plain_node 6 "Reshape" [5; 3]; plain_node 7 "Relu" [6]]
    [0; 1] [7]
    (<[2 := shape_tensor [6; 4]%Z]> ∅)
    (<[0 := [2; 3; 4]%Z]> (<[1 := [4; 5]%Z]> (<[4 := [6; 4]%Z]> ∅)))
    8.

(** Scenario D: both inputs are reshaped, so the two-reshape pattern and the
    one-reshape pattern both match at the final [Reshape] (node 8). *)
Definition scenario_d : Pattern.Graph :=
  Pattern.mk_Graph
    [plain_node 5 "Reshape" [0; 2]; plain_node 6 "Reshape" [1; 3];
     plain_node 7 "MatMul" [5; 6]; plain_node 8 "Reshape" [7; 4]]
    [0; 1] [8]
    (<[2 := shape_tensor [6; 4]%Z]>
       (<[3 := shape_tensor [4; 5]%Z]> (<[4 := shape_tensor [2; 3; 5]%Z]> ∅)))
    (<[0 := [2; 3; 4]%Z]> (<[1 := [4; 5]%Z]> (<[6 := [4; 5]%Z]> ∅)))
    9.

Definition scenario_d_anchor : Pattern.Node := plain_node 8 "Reshape" [7; 4].

Definition scenario_d_by_larger_rule : Pattern.Graph :=
  Pattern.mk_Graph
    [plain_node 9 "MatMul" [0; 1]]
    [0; 1] [9]
    (<[2 := shape_tensor [6; 4]%Z]>
       (<[3 := shape_tensor [4; 5]%Z]> (<[4 := shape_tensor [2; 3; 5]%Z]> ∅)))
    (<[0 := [2; 3; 4]%Z]> (<[1 := [4; 5]%Z]> (<[6 := [4; 5]%Z]> ∅)))
    10.

Definition scenario_d_by_smaller_rule : Pattern.Graph :=
  Pattern.mk_Graph
    [plain_node 6 "Reshape" [1; 3]; plain_node 9 "MatMul" [0; 6]]
    [0; 1] [9]
    (<[2 := shape_tensor [6; 4]%Z]>
       (<[3 := shape_tensor [4; 5]%Z]> (<[4 := shape_tensor [2; 3; 5]%Z]> ∅)))
    (<[0 := [2; 3; 4]%Z]> (<[1 := [4; 5]%Z]> (<[6 := [4; 5]%Z]> ∅)))
    10.

(** Scenario B: [Reshape(a, shape_a) → Gemm(_, b, c; alpha=1, beta=1) →
    Reshape(_, shape_c)] with [a : [2,3,4]], [b : [4,5]], [c : [5]].  Values
    0, 1, 2 are [a], [b], [c]; 3 and 4 the initializers [shape_a], [shape_c]. *)
Definition gemm_node (id : handle) (inputs : list handle) (alpha beta : Q)
    : Pattern.Node :=
  Pattern.mk_Node id "" "Gemm" (Some <$> inputs) [id]
    (<["alpha" := AttrFloat alpha]> (<["beta" := AttrFloat beta]> ∅)).

Definition scenario_b_anchor : Pattern.Node := plain_node 7 "Reshape" [6; 4].

Definition scenario_b : Pattern.Graph :=
  Pattern.mk_Graph
    [plain_node 5 "Reshape" [0; 3]; gemm_node 6 [5; 1; 2] 1 1; scenario_b_anchor]
    [0; 1; 2] [7]
    (<[3 := shape_tensor [6; 4]%Z]> (<[4 := shape_tensor [2; 3; 5]%Z]> ∅))
    (<[0 := [2; 3; 4]%Z]> (<[1 := [4; 5]%Z]> (<[2 := [5]%Z]> ∅)))
    8.

Definition scenario_b_rewritten : Pattern.Graph :=
  Pattern.mk_Graph
    [plain_node 8 "MatMul" [0; 1]; plain_node 9 "Add" [8; 2]]
    [0; 1; 2] [9]
    (<[3 := shape_tensor [6; 4]%Z]> (<[4 := shape_tensor [2; 3; 5]%Z]> ∅))
    (<[0 := [2; 3; 4]%Z]> (<[1 := [4; 5]%Z]> (<[2 := [5]%Z]> ∅)))
    10.

(** As scenario B, with [alpha = 2] on the [Gemm]. *)
Definition scenario_b_scaled : Pattern.Graph :=
  Pattern.mk_Graph
    [plain_node 5 "Reshape" [0; 3]; gemm_node 6 [5; 1; 2] 2 1; scenario_b_anchor]
    [0; 1; 2] [7]
    (<[3 := shape_tensor [6; 4]%Z]> (<[4 := shape_tensor [2; 3; 5]%Z]> ∅))
    (<[0 := [2; 3; 4]%Z]> (<[1 := [4; 5]%Z]> (<[2 := [5]%Z]> ∅)))
    8.

(** A small instance of the passes, to run the driver on: a model is the list
    of the operator types of its nodes and weighs one GiB per node; constant
    folding drops the [Constant] nodes, the rewriter drops the [Identity]
    nodes, and the other passes find nothing to do. *)
#[local] Instance toy_passes : Optimizer.Passes (list string) := {|
  Optimizer.ByteSize model := (Z.of_nat (length model) * 1024 * 1024 * 1024)%Z;
  Optimizer.infer_shapes model := Ok model;
  Optimizer.inline_simple_functions model := Ok model;
  Optimizer.fold_constants model _ _ :=
    let folded := filter (λ op_type, op_type ≠ "Constant") model in
    Ok (folded, bool_decide (folded ≠ model));
  Optimizer.remove_unused_nodes model := Ok model;
  Optimizer.remove_unused_functions model := Ok model;
  Optimizer.inline_functions_with_unused_outputs model := Ok model;
  Optimizer.rewrite model _ :=
    Ok (filter (λ op_type, op_type ≠ "Identity") model);
  Optimizer.no_op_rules := mk_RewriteRuleSet [];
  Optimizer.cast_constant_of_shape_rules := mk_RewriteRuleSet []
|}.

(** A tensor of two floats stored in [float_data] ([data_type = FLOAT (1)]). *)
Definition float_tensor : Serde.TensorProto.t :=
  Serde.TensorProto.mk [2%Z] 1%Z [1065353216%Z; 1073741824%Z] [] [] [] "w" ""
    None (Serde.ExternalDataInfo.mk "" None None) Serde.DEFAULT [] [].

(** A tensor of one string, stored in [string_data] as strings must be:
    [data_type = STRING (8)], no [raw_data], not external. *)
Definition string_tensor : Serde.TensorProto.t :=
  Serde.TensorProto.mk [1%Z] 8%Z [] [] ["a"] [] "labels" "" None
    (Serde.ExternalDataInfo.mk "" None None) Serde.DEFAULT [] [].

(** A state with one scope, in which only [x] is defined (as value 0). *)
Definition one_scope : Serde.State :=
  Serde.mk_State [0] [{[ "x" := 0 ]}] [Serde.Value.mk (Some "x") None None None].

(** [Add(x, <missing>, y)]: the second input is left out, the third is not
    defined anywhere. *)
Definition node_with_undefined_input : Serde.NodeProto :=
  Serde.mk_NodeProto ["x"; ""; "y"] ["z"] "n0" "Add" "" "" [] [].

(** [Clip(x, <missing>)]: every named input is defined. *)
Definition node_with_omitted_input : Serde.NodeProto :=
  Serde.mk_NodeProto ["x"; ""] ["z"] "n1" "Clip" "" "" [] [].

(** A graph with a subgraph: [z = If(x)] whose [then_branch] computes
    [inner_y = Relu(x)] from the [x] of the enclosing graph. *)
Definition untyped (name : string) : Serde.ValueInfoProto :=
  Serde.mk_ValueInfoProto name (Serde.no_type None).

Definition empty_graph_proto : Serde.GraphProto :=
  Serde.mk_GraphProto None None [] [] [] [] [].

Definition graph_attribute (name : string) (g : Serde.GraphProto)
    : Serde.AttributeProto :=
  Serde.mk_AttributeProto name None None Serde.GRAPH 0%Z 0%Z ""
    Serde.TensorProto.empty g [] [] [] [] [].

Definition then_branch : Serde.GraphProto :=
  Serde.mk_GraphProto (Some "then") None [] [] [untyped "inner_y"] []
    [Serde.mk_NodeProto ["x"] ["inner_y"] "relu0" "Relu" "" "" [] []].

Definition if_node : Serde.NodeProto :=
  Serde.mk_NodeProto ["x"] ["z"] "if0" "If" "" ""
    [graph_attribute "then_branch" then_branch] [].

Definition nested_graph : Serde.GraphProto :=
  Serde.mk_GraphProto (Some "main") None [] [untyped "x"] [untyped "z"] []
    [if_node].

(** The same, followed by a node of the enclosing graph that tries to use
    [inner_y]. *)
Definition leaking_graph : Serde.GraphProto :=
  Serde.mk_GraphProto (Some "main") None [] [untyped "x"] [untyped "z"] []
    [if_node; Serde.mk_NodeProto ["x"; "inner_y"] ["w"] "add0" "Add" "" "" [] []].

End Scenarios.


From stdpp Require sorting.

(** * Further scenarios *)

Module MoreScenarios.
Local Open Scope nat_scope.

(** Passes as [Scenarios.toy_passes], except that shape inference raises on
    a model that holds a node of the operator type [Unknown], as strict
    shape inference does on an operator it has no schema for. *)
#[local] Instance strict_passes : Optimizer.Passes (list string) := {|
  Optimizer.ByteSize model := (Z.of_nat (length model) * 1024 * 1024 * 1024)%Z;
  Optimizer.infer_shapes model :=
    if bool_decide ("Unknown" ∈ model)
    then Raise (ValueError "No Schema registered for Unknown")
    else Ok model;
  Optimizer.inline_simple_functions model := Ok model;
  Optimizer.fold_constants model _ _ :=
    let folded := filter (λ op_type, op_type ≠ "Constant") model in
    Ok (folded, bool_decide (folded ≠ model));
  Optimizer.remove_unused_nodes model := Ok model;
  Optimizer.remove_unused_functions model := Ok model;
  Optimizer.inline_functions_with_unused_outputs model := Ok model;
  Optimizer.rewrite model _ :=
    Ok (filter (λ op_type, op_type ≠ "Identity") model);
  Optimizer.no_op_rules := mk_RewriteRuleSet [];
  Optimizer.cast_constant_of_shape_rules := mk_RewriteRuleSet []
|}.

End MoreScenarios.

(** * [onnxscript/ir/serde.py]: serialization of values, types and shapes *)

Module Serialize.
Import Serde.

(** [if s:] on an attribute that holds a string or [None]. *)
Definition truthy (s : option string) : bool :=
  match s with
  | Some s => negb (bool_decide (s = ""))
  | None => false
  end.

(** [onnx.TensorShapeProto.Dimension()] and [onnx.TypeProto()] *)
Definition empty_dimension : DimensionProto := mk_DimensionProto None None.
Definition empty_type : TypeProto := no_type None.

(** The [denotation] field of a [TypeProto]; it lies outside the [value]
    oneof. *)
Definition denotation_of (type_proto : TypeProto) : option string :=
  match type_proto with
  | tensor_type d _ _ | sparse_tensor_type d _ _ | sequence_type d _
  | optional_type d _ | map_type d | no_type d => d
  end.

(** [from_.denotation] on a type of the IR. *)
Definition type_denotation (from_ : TypeProtocol) : option string :=
  match from_ with
  | TensorType _ d | SparseTensorType _ d | SequenceType _ d
  | OptionalType _ d => d
  end.

(** Lines 1136-1146.  [dim_value] and [dim_param] are the two members of the
    oneof [value]; [dim_value] is an [int64] field. *)
Definition serialize_dimension_into (dim_proto : DimensionProto)
    (from_ : Dimension) : Result DimensionProto :=
  let value := dimension_value from_ in
  let dim_proto :=
    if truthy (dimension_denotation from_)
    then mk_DimensionProto (dim_value dim_proto) (dimension_denotation from_)
    else dim_proto in
  match value with
  | Some (inl value) =>
      value ← set_int64 value;
      Ok (mk_DimensionProto (Some (inl value)) (dim_denotation dim_proto))
  | Some (inr value) =>
      Ok (mk_DimensionProto (Some (inr value)) (dim_denotation dim_proto))
  | None => Ok dim_proto
  end.

(** Lines 1132-1133: [for dim in from_], each dimension into a proto newly
    added to [shape.dim]. *)
Fixpoint serialize_dimensions (from_ : list Dimension)
    : Result (list DimensionProto) :=
  match from_ with
  | [] => Ok []
  | dim :: from_ =>
      dim_proto ← serialize_dimension_into empty_dimension dim;
      dim_protos ← serialize_dimensions from_;
      Ok (dim_proto :: dim_protos)
  end.

(** Lines 1128-1133.  Touching [type_proto.tensor_type.shape] makes
    [tensor_type] the member of the oneof that is set, with a shape, and the
    dimensions that were there are cleared. *)
Definition serialize_shape_into (type_proto : TypeProto) (from_ : Shape)
    : Result TypeProto :=
  let elem_type :=
    match type_proto with tensor_type _ elem_type _ => elem_type | _ => None end in
  dim_protos ← serialize_dimensions from_;
  Ok (tensor_type (denotation_of type_proto) elem_type (Some dim_protos)).

(** Lines 1109-1125.  Writing into one member of the oneof unsets the member
    that was set before; the four classes of types are all that the IR has,
    so that the closing [raise TypeError] is not reached. *)
Fixpoint serialize_type_into (type_proto : TypeProto) (from_ : TypeProtocol)
    : TypeProto :=
  let denotation :=
    if truthy (type_denotation from_) then type_denotation from_
    else denotation_of type_proto in
  match from_ with
  | TensorType dtype _ =>
      tensor_type denotation (Some (DataType_value dtype))
        match type_proto with tensor_type _ _ shape => shape | _ => None end
  | SparseTensorType dtype _ =>
      sparse_tensor_type denotation (Some (DataType_value dtype))
        match type_proto with sparse_tensor_type _ _ shape => shape | _ => None end
  | SequenceType elem_type _ =>
      sequence_type denotation
        (Some (serialize_type_into
                 match type_proto with
                 | sequence_type _ (Some elem_type_proto) => elem_type_proto
                 | _ => empty_type
                 end elem_type))
  | OptionalType elem_type _ =>
      optional_type denotation
        (Some (serialize_type_into
                 match type_proto with
                 | optional_type _ (Some elem_type_proto) => elem_type_proto
                 | _ => empty_type
                 end elem_type))
  end.

(** Lines 718-728. *)
Definition _should_create_value_info_for_value (value : Value.t) : bool :=
  negb (bool_decide (Value.shape value = None)
        && bool_decide (Value.type value = None)).

(** Lines 1084-1106.  A name that is [None] cannot be assigned to the field
    of the proto; [metadata_props], which deserialization does not read, are
    left out. *)
Definition serialize_value_into (value_info_proto : ValueInfoProto)
    (from_ : Value.t) (name : string) : Result ValueInfoProto :=
  name ← (if negb (bool_decide (name = "")) then Ok name
          else match Value.name from_ with
               | Some name => Ok name
               | None => Raise (TypeError "bad argument type for built-in operation")
               end);
  let type_proto := vi_type value_info_proto in
  type_proto ←
    match Value.shape from_ with
    | Some shape => serialize_shape_into type_proto shape
    | None => Ok type_proto
    end;
  let type_proto :=
    match Value.type from_ with
    | Some type => serialize_type_into type_proto type
    | None => type_proto
    end in
  Ok (mk_ValueInfoProto name type_proto).

(** Lines 1071-1081. *)
Definition serialize_value (value : Value.t) (name : string)
    : Result ValueInfoProto :=
  serialize_value_into (mk_ValueInfoProto "" empty_type) value name.

(** A denotation that serialization writes as it is: [None], or a string
    that is not empty. *)
Definition kept (denotation : option string) : Prop := denotation ≠ Some "".

(** A dimension that serialization writes in full. *)
Definition dimension_kept (d : Dimension) : Prop :=
  kept (dimension_denotation d) ∧
  (dimension_value d = None → dimension_denotation d = None).

(** A dimension whose value, if it is an integer, is one that [dim_value]
    holds. *)
Definition dimension_fits (d : Dimension) : Prop :=
  match dimension_value d with
  | Some (inl n) => int64 n = true
  | _ => True
  end.

Fixpoint type_kept (t : TypeProtocol) : Prop :=
  match t with
  | TensorType _ d | SparseTensorType _ d => kept d
  | SequenceType elem_type d | OptionalType elem_type d =>
      kept d ∧ type_kept elem_type
  end.

(** A type of the IR with its empty denotations replaced by [None]. *)
Definition drop_empty (denotation : option string) : option string :=
  if truthy denotation then denotation else None.

Fixpoint without_empty_denotations (t : TypeProtocol) : TypeProtocol :=
  match t with
  | TensorType dtype d => TensorType dtype (drop_empty d)
  | SparseTensorType dtype d => SparseTensorType dtype (drop_empty d)
  | SequenceType elem_type d =>
      SequenceType (without_empty_denotations elem_type) (drop_empty d)
  | OptionalType elem_type d =>
      OptionalType (without_empty_denotations elem_type) (drop_empty d)
  end.

(** [isinstance(type, _core.TensorType)] *)
Definition is_TensorType (t : TypeProtocol) : bool :=
  match t with TensorType _ _ => true | _ => false end.

End Serialize.

(** * Strings of Python *)

Module Str.
Import Stdlib.Strings.Ascii.

(** [s.split(sep)] for a separator that is not empty: the pieces between
    the occurrences of [sep], which are found from left to right and do not
    overlap.  [skip] counts the characters of an occurrence still to be
    passed over, [piece] is the piece read so far. *)
Fixpoint split_from (sep : string) (skip : nat) (piece : string) (s : string)
    : list string :=
  match s with
  | EmptyString => [piece]
  | String c s' =>
      match skip with
      | S skip => split_from sep skip piece s'
      | O =>
          if String.prefix sep (String c s')
          then piece :: split_from sep (String.length sep - 1) "" s'
          else split_from sep 0 (piece +:+ String c "") s'
      end
  end.

Definition split (s sep : string) : list string := split_from sep 0 "" s.

(** [c in s] for a character [c]. *)
Fixpoint has_char (c : ascii) (s : string) : bool :=
  match s with
  | EmptyString => false
  | String c' s' => bool_decide (c' = c) || has_char c s'
  end.

End Str.

(** * [onnxscript/ir/serde.py]: the names of value infos of functions *)

Module FunctionValueInfoName.

(** Lines 254-280. *)
Definition _parse_experimental_function_value_info_name (name : string)
    : option (string * string * string) :=
  let parts := Str.split name "/" in
  match parts with
  | [function; value_name] =>
      let parts := Str.split function "::" in
      match parts with
      | [function_domain; function_name] =>
          Some (function_domain, function_name, value_name)
      | _ => None
      end
  | _ => None
  end.

(** Lines 748-751: [format_name] for a function of the given domain and
    name. *)
Definition format_name (function_domain function_name value_name : string)
    : string :=
  let function_qualified_name := function_domain +:+ "::" +:+ function_name in
  function_qualified_name +:+ "/" +:+ value_name.

End FunctionValueInfoName.

(** * [onnxscript/ir/serde.py]: the names that a graph defines *)

Module GraphNames.
Import Serde.

(** [proto.input] of a node. *)
Definition node_proto_input (proto : NodeProto) : list string :=
  match proto with mk_NodeProto input _ _ _ _ _ _ _ => input end.

(** [proto.output] of a node. *)
Definition node_proto_output (proto : NodeProto) : list string :=
  match proto with mk_NodeProto _ output _ _ _ _ _ _ => output end.

(** The names of the inputs and of the initializers of a graph, and of the
    outputs of its own nodes: the nodes of subgraphs are not among them. *)
Definition defined_names (input : list ValueInfoProto)
    (initializer : list TensorProto.t) (node : list NodeProto) : list string :=
  (vi_name <$> input) ++ (TensorProto.name <$> initializer)
    ++ (node ≫= node_proto_output).

(** The innermost scope is the dict [values], and it holds no other names
    than [names]. *)
Definition innermost_within (names : list string) (values : ref) (st : State)
    : Prop :=
  last (scoped_values st) = Some values ∧
  ∃ d, dicts st !! values = Some d ∧ ∀ name, is_Some (d !! name) → name ∈ names.

End GraphNames.

(** * Dicts of Python, with their order *)

Module PyDict.

(** A dict keeps its items in the order in which their keys were first
    inserted; the keys are distinct. *)
Definition t (K V : Type) : Type := list (K * V).

Section Dict.
Context {K V : Type} `{EqDecision K}.

(** [d[k] = v] *)
Definition setitem (d : t K V) (k : K) (v : V) : t K V :=
  if decide (k ∈ d.*1)
  then (λ item, if decide (item.1 = k) then (k, v) else item) <$> d
  else d ++ [(k, v)].

(** [{k: v for k, v in items}] *)
Definition of_items (items : list (K * V)) : t K V :=
  foldl (λ d item, setitem d item.1 item.2) [] items.

(** [d.items()] *)
Definition items (d : t K V) : list (K * V) := d.

(** [d.get(k)] *)
Definition get (d : t K V) (k : K) : option V :=
  match list_find (λ item, item.1 = k) d with
  | Some (_, item) => Some item.2
  | None => None
  end.

End Dict.
End PyDict.

(** * [onnxscript/ir/serde.py]: opset imports and metadata props *)

Module OpsetImports.

(** An [onnx.OperatorSetIdProto]: [domain] and [version]. *)
Definition OperatorSetIdProto : Type := (string * Z)%type.

(** Lines 248-251. *)
Definition deserialize_opset_import (protos : list OperatorSetIdProto)
    : PyDict.t string Z :=
  PyDict.of_items protos.

(** Lines 784-796: the items are written in the order of the dict. *)
Definition _serialize_opset_imports_into (opset_ids : list OperatorSetIdProto)
    (from_ : PyDict.t string Z) : list OperatorSetIdProto :=
  opset_ids ++ PyDict.items from_.

End OpsetImports.

Module MetadataProps.

(** An [onnx.StringStringEntryProto]: [key] and [value]. *)
Definition StringStringEntryProto : Type := (string * string)%type.

(** [sorted(from_)]: the keys of a dict in the order of strings. *)
Definition sorted (from_ : gmap string string) : list string :=
  sorting.merge_sort String.le (map_to_list from_).*1.

(** Lines 799-813. *)
Definition _serialize_metadata_props_into
    (string_string_entries : list StringStringEntryProto)
    (from_ : gmap string string) : list StringStringEntryProto :=
  string_string_entries
    ++ ((λ key, (key, from_ !!! key)) <$> sorted from_).

End MetadataProps.

(** * [onnxscript/ir/serde.py]: functions *)

Module Functions.
Import Serde.

(** [onnx.FunctionProto] *)
Record FunctionProto : Type := mk_FunctionProto {
  fp_name : string;
  fp_domain : string;
  fp_overload : string;
  fp_doc_string : option string;
  fp_input : list string;
  fp_output : list string;
  fp_attribute : list string;
  fp_attribute_proto : list AttributeProto;
  fp_node : list NodeProto;
  fp_opset_import : list OpsetImports.OperatorSetIdProto;
  fp_value_info : list ValueInfoProto
}.

(** An attribute of a function: with its default, or
    [_core.Attr(name, _enums.AttributeType.UNDEFINED, None)]. *)
Inductive FunctionAttr : Type :=
| WithDefault (attr : Attr)
| WithoutDefault (name : string).

(** A [_core.Function]; the opset imports that are handed to its graph are
    kept beside the graph. *)
Record Function : Type := mk_Function {
  domain : string;
  name : string;
  overload : string;
  graph : Graph;
  opset_imports : PyDict.t string Z;
  attributes : list FunctionAttr
}.

(** A call that is handed a list of scopes of its own: [[values]] or [[]].
    What the callee does to that list is lost with it; the dicts and the
    values are shared. *)
Definition with_scopes {A} (scopes : list ref) (call : M A) : M A := λ st,
  match call (mk_State scopes (dicts st) (heap st)) with
  | Ok (a, st') => Ok (a, mk_State (scoped_values st) (dicts st') (heap st'))
  | Raise e => Raise e
  end.

(** Lines 422-454. *)
Definition deserialize_function (proto : FunctionProto) : M Function :=
  inputs ← mapM (λ name, new_value (Value.mk (Some name) None None None))
             (fp_input proto);
  values ← new_dict (dict_of (zip (fp_input proto) inputs));
  let value_info :=
    dict_of ((λ info, (vi_name info, info)) <$> fp_value_info proto) in
  nodes ← mapM (λ node, with_scopes [values] (_deserialize_node node value_info))
            (fp_node proto);
  d ← read_dict values;
  outputs ← lift (mapR (dict_getitem d) (fp_output proto));
  let graph :=
    mk_Graph inputs outputs nodes [] (fp_doc_string proto)
      (Some (if negb (bool_decide (fp_overload proto = ""))
             then fp_name proto +:+ "_" +:+ fp_domain proto
                    +:+ "__" +:+ fp_overload proto
             else "")) in
  attributes ← mapM (λ attr, with_scopes [] (_deserialize_attribute attr))
                 (fp_attribute_proto proto);
  mret (mk_Function (fp_domain proto) (fp_name proto) (fp_overload proto) graph
          (OpsetImports.deserialize_opset_import (fp_opset_import proto))
          ((WithDefault <$> attributes)
             ++ (WithoutDefault <$> fp_attribute proto))).

(** The names that the body of a function can use and return. *)
Definition defined_names (proto : FunctionProto) : list string :=
  fp_input proto ++ (fp_node proto ≫= GraphNames.node_proto_output).

(** The dict [values] holds no other names than [names]. *)
Definition dict_within (names : list string) (values : ref) (st : State)
    : Prop :=
  ∃ d, dicts st !! values = Some d ∧ ∀ name, is_Some (d !! name) → name ∈ names.

End Functions.

Module FunctionScenarios.

(** [y = Relu(x)] as the body of a function [pkg::f] of one input. *)
Definition relu_function : Functions.FunctionProto :=
  Functions.mk_FunctionProto "f" "pkg" "" None ["x"] ["y"] [] []
    [Serde.mk_NodeProto ["x"] ["y"] "relu0" "Relu" "" "" [] []]
    [("", 18)] [].

End FunctionScenarios.

(** * [onnxscript/rewriter/onnxruntime/transformers/multihead_attention.py] *)

Module MultiheadAttention.

(** What [infer_attn_size_config] can raise: the error of the rewriter, and
    the errors of indexing a shape and of dividing. *)
Inductive Exn : Type :=
| FunctionRewriteError (msg : string)
| IndexError
| ZeroDivisionError.

Inductive Outcome (A : Type) : Type :=
| Return (a : A)
| Raised (e : Exn).
Arguments Return {A} a.
Arguments Raised {A} e.

#[global] Instance outcome_ret : MRet Outcome := @Return.
#[global] Instance outcome_bind : MBind Outcome := λ A B f r,
  match r with
  | Return a => f a
  | Raised e => Raised e
  end.

(** Lines 62-67. *)
Record AttnSizeConfig : Type := mk_AttnSizeConfig {
  num_attention_heads : Z;
  num_key_value_heads : Z;
  head_size : Z;
  hidden_size : Z
}.

(** [shape[i]] for an index that is not negative, on a shape all of whose
    dimensions are integers. *)
Definition getitem (shape : list Z) (i : nat) : Outcome Z :=
  match shape !! i with
  | Some dim => Return dim
  | None => Raised IndexError
  end.

(** [a // b] on integers. *)
Definition floordiv (a b : Z) : Outcome Z :=
  if b =? 0 then Raised ZeroDivisionError else Return (a / b).

Section AttentionRewriteRule.

(** [self.lookup(function, name)] of [function_rule.FunctionRewriteRule],
    which is not among the sources: the value of that name in the function,
    if it is known. *)
Variable lookup : Functions.FunctionProto → string → option LegacyIR.Value.

(** Lines 71-94. *)
Definition infer_attn_size_config (function : Functions.FunctionProto)
    : Outcome AttnSizeConfig :=
  match Functions.fp_output function with
  | [present_value; _; attn_output] =>
      match lookup function present_value ≫= LegacyIR.shape with
      | None =>
          Raised (FunctionRewriteError "Failed to find shape for present_value.")
      | Some present_value_shape =>
          match lookup function attn_output ≫= LegacyIR.shape with
          | None =>
              Raised (FunctionRewriteError "Failed to find shape for attn_output.")
          | Some attn_output_shape =>
              head_size ← getitem present_value_shape 3;
              num_key_value_heads ← getitem present_value_shape 1;
              hidden_size ← getitem attn_output_shape 2;
              num_attention_heads ← floordiv hidden_size head_size;
              Return (mk_AttnSizeConfig num_attention_heads num_key_value_heads
                        head_size hidden_size)
          end
      end
  | output =>
      Raised (FunctionRewriteError
                ("Unexpected number of outputs. Expected 3, got "
                   +:+ pretty (length output) +:+ "."))
  end.

End AttentionRewriteRule.

(** A function with the three outputs of an attention layer, and what is
    known of two of them. *)
Definition attention : Functions.FunctionProto :=
  Functions.mk_FunctionProto "LlamaAttention" "pkg.transformers" "" None
    [] ["present_value"; "present_key"; "attn_output"] [] [] [] [] [].

Definition known_shapes (present_value attn_output : list Z)
    (function : Functions.FunctionProto) (name : string)
    : option LegacyIR.Value :=
  if bool_decide (name = "present_value")
  then Some (LegacyIR.mk_Value (Some present_value) None)
  else if bool_decide (name = "attn_output")
  then Some (LegacyIR.mk_Value (Some attn_output) None)
  else None.

End MultiheadAttention.

(** * The guard of [broadcast_to_matmul.py] on shapes with symbolic dimensions

    [ir.Value.shape] holds, besides integers, the names of symbolic
    dimensions and [None] for a dimension that is not known.  The guard is the
    one of [BroadcastToMatmulGuard], line by line, with its comparisons
    and its [max] as Python carries them out on such dimensions. *)

Module SymbolicShapes.

Inductive Dim : Type :=
| DInt (n : Z)
| DSym (name : string)
| DNone.

#[global] Instance Dim_eq_dec : EqDecision Dim.
Proof. solve_decision. Defined.

(** [type(d).__name__] *)
Definition type_name (d : Dim) : string :=
  match d with
  | DInt _ => "int"
  | DSym _ => "str"
  | DNone => "NoneType"
  end.

(** [a > b]: integers and strings are ordered among themselves, and nothing
    else is. *)
Definition gt (a b : Dim) : Result bool :=
  match a, b with
  | DInt x, DInt y => Ok (y <? x)
  | DSym x, DSym y => Ok (String.ltb y x)
  | _, _ =>
      Raise (TypeError ("'>' not supported between instances of '"
                          +:+ type_name a +:+ "' and '" +:+ type_name b +:+ "'"))
  end.

(** [max(a, b)]: [b] if [b > a], and [a] otherwise. *)
Definition max (a b : Dim) : Result Dim :=
  greater ← gt b a;
  Ok (if greater : bool then b else a).

(** The attributes of a bound [ir.Value] that the guard reads. *)
Record Value : Type := mk_Value {
  shape : option (list Dim);
  value_as_np_array : option PyObject
}.

(** Lines 86-99: the loop over the reversed, zipped dimensions.  [None]
    stands for the [return False] inside the loop. *)
Fixpoint broadcast_loop (idx : nat) (dims : list (Dim * Dim))
    (broadcast_matmul_output_shape : list Dim) : Result (option (list Dim)) :=
  match dims with
  | [] => Ok (Some broadcast_matmul_output_shape)
  | (dim_from_a, dim_from_b) :: rest =>
      if negb (bool_decide (dim_from_a = DInt 1)
               || bool_decide (dim_from_a = dim_from_b)) then Ok None
      else if (0 <? idx)%nat then
        dim ← max dim_from_a dim_from_b;
        broadcast_loop (S idx) rest (dim :: broadcast_matmul_output_shape)
      else broadcast_loop (S idx) rest broadcast_matmul_output_shape
  end.

(** Lines 101-115: the shape that the guard expects [MatMul] to produce. *)
Definition expected_output_shape (input_a_shape input_b_shape : list Dim)
    (dim_a dim_b : nat) (mimic_matmul_broadcast_behavior : bool)
    (broadcast_matmul_output_shape : list Dim) : Result (list Dim) :=
  let '(longer_shape, shorter_shape) :=
    if (dim_b <? dim_a)%nat then (input_a_shape, input_b_shape)
    else (input_b_shape, input_a_shape) in
  let out :=
    list_slice_to longer_shape (- Z.of_nat (length shorter_shape))
      ++ broadcast_matmul_output_shape in
  let out :=
    if mimic_matmul_broadcast_behavior && (dim_b =? 2)%nat
    then list_slice_to out (-1) else out in
  if mimic_matmul_broadcast_behavior && (dim_a =? 2)%nat
  then list_pop out (-2) else Ok out.

(** Lines 79-124, once both shapes have been padded to two dimensions. *)
Definition broadcast_matmul_output_shape (input_a_shape input_b_shape : list Dim)
    (dim_a dim_b : nat) (mimic_matmul_broadcast_behavior : bool)
    : Result (option (list Dim)) :=
  a_last ← list_getitem input_a_shape (-1);
  let input_a_shape_except_second_last_dim :=
    list_slice_to input_a_shape (-2) ++ [a_last] in
  let input_b_shape_except_last_dim := list_slice_to input_b_shape (-1) in
  a_second_last ← list_getitem input_a_shape (-2);
  b_last ← list_getitem input_b_shape (-1);
  r ← broadcast_loop 0
         (zip (reverse input_a_shape_except_second_last_dim)
              (reverse input_b_shape_except_last_dim))
         [a_second_last; b_last];
  match r with
  | None => Ok None
  | Some out =>
      Some <$> expected_output_shape input_a_shape input_b_shape dim_a dim_b
                 mimic_matmul_broadcast_behavior out
  end.

(** Lines 116-124: compare with [shape_c], the list of the integers of the
    array. *)
Definition check_output_shape (input_a_shape input_b_shape : list Dim)
    (dim_a dim_b : nat) (mimic_matmul_broadcast_behavior : bool)
    (shape_c : list Z) : Result bool :=
  r ← broadcast_matmul_output_shape input_a_shape input_b_shape dim_a dim_b
        mimic_matmul_broadcast_behavior;
  match r with
  | None => Ok false
  | Some out => Ok (bool_decide (DInt <$> shape_c = out))
  end.

(** Lines 69-78 (step 1.b): a one dimensional second input. *)
Definition check_second_input (input_a_shape input_b_shape : list Dim)
    (dim_a dim_b : nat) (mimic_matmul_broadcast_behavior : bool)
    (shape_c : list Z) : Result bool :=
  if (dim_b <? 2)%nat then
    b_last ← list_getitem input_b_shape (-1);
    a_last ← list_getitem input_a_shape (-1);
    if negb (bool_decide (b_last = a_last)) then Ok false
    else
      let input_b_shape := input_b_shape ++ [DInt 1] in
      check_output_shape input_a_shape input_b_shape dim_a
        (length input_b_shape) true shape_c
  else
    check_output_shape input_a_shape input_b_shape dim_a dim_b
      mimic_matmul_broadcast_behavior shape_c.

(** Lines 54-68 (step 1.a): a one dimensional first input. *)
Definition check_shapes (input_a_shape input_b_shape : list Dim)
    (shape_c : list Z) : Result bool :=
  let dim_a := length input_a_shape in
  let dim_b := length input_b_shape in
  if (dim_a <? 2)%nat then
    a_last ← list_getitem input_a_shape (-1);
    b_second_last ← list_getitem input_b_shape (-2);
    if negb (bool_decide (a_last = b_second_last)) then Ok false
    else
      let input_a_shape := DInt 1 :: input_a_shape in
      check_second_input input_a_shape input_b_shape
        (length input_a_shape) dim_b true shape_c
  else
    check_second_input input_a_shape input_b_shape dim_a dim_b false shape_c.

(** Lines 16-52. *)
Definition check_if_need_reshape (match_bindings : gmap string Value)
    : Result bool :=
  input_a ← dict_getitem match_bindings "input_a";
  let input_a_shape := shape input_a in
  input_b ← dict_getitem match_bindings "input_b";
  let input_b_shape := shape input_b in
  shape_c ← dict_getitem match_bindings "shape_c";
  match value_as_np_array shape_c with
  | None => Ok false
  | Some (PyOther _) => Ok false
  | Some (PyNdArray arr) =>
      if negb (length (nd_shape arr) =? 1)%nat then Ok false
      else
        let shape_c := nd_tolist arr in
        match input_a_shape, input_b_shape with
        | Some input_a_shape, Some input_b_shape =>
            check_shapes input_a_shape input_b_shape shape_c
        | _, _ => Ok false
        end
  end.

(** [isinstance(d, int)] *)
Definition is_int (d : Dim) : Prop :=
  match d with DInt _ => True | _ => False end.

(** A value all of whose dimensions are integers. *)
Definition of_integers (value : LegacyIR.Value) : Value :=
  mk_Value (fmap (M := list) DInt <$> LegacyIR.shape value)
    (LegacyIR.value_as_np_array value).

End SymbolicShapes.
(** * Properties *)

(** ** The guard [check_if_need_reshape] *)

Section GuardFacts.
Implicit Types (match_bindings : gmap string Value) (v : Value).

Lemma dict_getitem_Some {V} (d : gmap string V) key x :
  d !! key = Some x → dict_getitem d key = Ok x.
Proof. intros E. unfold dict_getitem. by rewrite E. Qed.

(** Once the three placeholders are bound, the guard only depends on the
    shapes of [input_a] and [input_b] and on the constant of [shape_c]. *)
Lemma check_if_need_reshape_bound match_bindings va vb vc :
  match_bindings !! "input_a" = Some va →
  match_bindings !! "input_b" = Some vb →
  match_bindings !! "shape_c" = Some vc →
  check_if_need_reshape match_bindings =
    match value_as_np_array vc with
    | None => Ok false
    | Some (PyOther _) => Ok false
    | Some (PyNdArray arr) =>
        if negb (length (nd_shape arr) =? 1)%nat then Ok false
        else match shape va, shape vb with
             | Some a, Some b => check_shapes a b (nd_tolist arr)
             | _, _ => Ok false
             end
    end.
Proof.
  intros Ha Hb Hc. unfold check_if_need_reshape.
  rewrite (dict_getitem_Some _ _ _ Ha), (dict_getitem_Some _ _ _ Hb),
    (dict_getitem_Some _ _ _ Hc).
  reflexivity.
Qed.

Lemma check_if_need_reshape_unknown match_bindings va vb vc :
  match_bindings !! "input_a" = Some va →
  match_bindings !! "input_b" = Some vb →
  match_bindings !! "shape_c" = Some vc →
  value_as_np_array vc = None ∨ shape va = None ∨ shape vb = None →
  check_if_need_reshape match_bindings = Ok false.
Proof.
  intros Ha Hb Hc Hnone.
  rewrite (check_if_need_reshape_bound _ _ _ _ Ha Hb Hc).
  destruct (value_as_np_array vc) as [[arr|other]|]; try reflexivity.
  - destruct (negb _); [reflexivity|].
    destruct Hnone as [Hn|[Hn|Hn]]; [discriminate| |].
    + by rewrite Hn.
    + rewrite Hn. by destruct (shape va).
Qed.

End GuardFacts.

(** ** Rules guarded by [check_if_need_reshape] in the rewrite engine *)

Section GuardedRuleFacts.
Implicit Types (g : Pattern.Graph) (anchor : Pattern.Node) (r : RewriteRule)
  (st : MatchState).

(** A guard that answers [False] leaves the graph as it is. *)
Lemma try_rewrite_rejected r g anchor st :
  match_pattern g (compile (target_pattern r)) anchor = Some st →
  condition_function r (value_of g <$> bindings st) = Ok false →
  try_rewrite r g anchor = Ok None.
Proof.
  intros Hm Hc. unfold try_rewrite. rewrite Hm. cbn. rewrite Hc. reflexivity.
Qed.

Lemma try_rewrite_no_match r g anchor :
  match_pattern g (compile (target_pattern r)) anchor = None →
  try_rewrite r g anchor = Ok None.
Proof. intros Hm. unfold try_rewrite. by rewrite Hm. Qed.

(** A sweep in which no rule applies at any node returns the graph itself. *)
Lemma sweep_nothing_applies rs snapshot g changed :
  (∀ n, n ∈ Pattern.nodes g → apply_first rs g n = Ok None) →
  sweep rs snapshot g changed = Ok (g, changed).
Proof.
  intros Hnone. induction snapshot as [|id rest IH]; [reflexivity|].
  cbn. destruct (find_node g id) as [n|] eqn:Hfind; [|exact IH].
  assert (n ∈ Pattern.nodes g) as Hin.
  { unfold find_node in Hfind. apply find_some in Hfind as [Hin _].
    by apply list_elem_of_In. }
  rewrite (Hnone n Hin). cbn. exact IH.
Qed.

(** The replacement of the accepted one-reshape and two-reshape rules is a
    single [MatMul] of the values bound to [input_a] and [input_b]. *)
Lemma try_rewrite_matmul r g anchor st a b :
  r ∈ rules BroadcastToMatmul.rules →
  match_pattern g (compile (target_pattern r)) anchor = Some st →
  condition_function r (value_of g <$> bindings st) = Ok true →
  bindings st !! "input_a" = Some a →
  bindings st !! "input_b" = Some b →
  try_rewrite r g anchor =
    Ok (splice g anchor st
          [Pattern.mk_Node (next_handle g) "" "MatMul" [Some a; Some b]
             [next_handle g] ∅]
          (next_handle g) (S (next_handle g))).
Proof.
  intros Hr Hm Hc Ha Hb. unfold try_rewrite. rewrite Hm. cbn. rewrite Hc.
  cbn in Hr. rewrite !elem_of_cons in Hr.
  destruct Hr as [->|[->|Hr]]; [| |by apply elem_of_nil in Hr];
    cbn; rewrite Ha; cbn; rewrite Hb; reflexivity.
Qed.

End GuardedRuleFacts.

(** C3. Whenever the constant array of the value bound to [shape_c] is unknown
    ([None]), or the static shape of the value bound to [input_a] or to
    [input_b] is unavailable ([None]), [check_if_need_reshape] returns [False];
    a rule guarded by it is then rejected at an anchor whose match produced
    this binding, and no rewrite takes place there. *)
Theorem check_if_need_reshape_rejects_unknown
    (match_bindings : gmap string Value) (va vb vc : Value) :
  match_bindings !! "input_a" = Some va →
  match_bindings !! "input_b" = Some vb →
  match_bindings !! "shape_c" = Some vc →
  value_as_np_array vc = None ∨ shape va = None ∨ shape vb = None →
  check_if_need_reshape match_bindings = Ok false ∧
  ∀ (r : RewriteRule) (g : Pattern.Graph) (anchor : Pattern.Node) (st : MatchState),
    condition_function r = check_if_need_reshape →
    match_pattern g (compile (target_pattern r)) anchor = Some st →
    value_of g <$> bindings st = match_bindings →
    try_rewrite r g anchor = Ok None.
Proof.
  intros Ha Hb Hc Hnone.
  pose proof (check_if_need_reshape_unknown _ _ _ _ Ha Hb Hc Hnone) as Hfalse.
  split; [exact Hfalse|].
  intros r g anchor st Hguard Hm Hbind.
  apply (try_rewrite_rejected r g anchor st Hm).
  by rewrite Hguard, Hbind.
Qed.

(** Scenario C: the binding found at the final [Reshape] of [scenario_c]. *)
Lemma check_if_need_reshape_rejects_unknown_witness :
  let match_bindings : gmap string Value :=
    value_of Scenarios.scenario_c <$>
      ({[ "input_a" := 0%nat; "input_b" := 1%nat; "shape_a" := 2%nat;
          "shape_c" := 3%nat ]} : gmap string handle) in
  check_if_need_reshape match_bindings = Ok false ∧
  ∀ (r : RewriteRule) (g : Pattern.Graph) (anchor : Pattern.Node) (st : MatchState),
    condition_function r = check_if_need_reshape →
    match_pattern g (compile (target_pattern r)) anchor = Some st →
    value_of g <$> bindings st = match_bindings →
    try_rewrite r g anchor = Ok None.
Proof.
  intros match_bindings.
  apply (check_if_need_reshape_rejects_unknown match_bindings
           (value_of Scenarios.scenario_c 0%nat)
           (value_of Scenarios.scenario_c 1%nat)
           (value_of Scenarios.scenario_c 3%nat)).
  - vm_compute. reflexivity.
  - vm_compute. reflexivity.
  - vm_compute. reflexivity.
  - left. vm_compute. reflexivity.
Defined.

(** Scenario C on the engine: the sweep leaves the chain untouched. *)
Lemma scenario_c_untouched :
  apply_to_graph BroadcastToMatmul.rules Scenarios.scenario_c
  = Ok (Scenarios.scenario_c, false).
Proof. vm_compute. reflexivity. Qed.

(** C4. For a binding with [input_a : [2,3,4]], [input_b : [4,5]] and
    [shape_c] resolving to the constant array [[2,3,5]], the guard computes
    [[2,3,5]] as the shape that the plain batched [MatMul] yields and returns
    [True]; the one-reshape and two-reshape rules are then applied at an anchor
    whose match produced this binding, each replacing the chain by the single
    node [MatMul(input_a, input_b)]. *)
Theorem check_if_need_reshape_scenario_a
    (match_bindings : gmap string Value) (va vb vc : Value) (arr : ndarray) :
  match_bindings !! "input_a" = Some va → shape va = Some [2; 3; 4] →
  match_bindings !! "input_b" = Some vb → shape vb = Some [4; 5] →
  match_bindings !! "shape_c" = Some vc →
  value_as_np_array vc = Some (PyNdArray arr) →
  nd_shape arr = [3] → nd_tolist arr = [2; 3; 5] →
  broadcast_matmul_output_shape [2; 3; 4] [4; 5] 3 2 false = Ok (Some [2; 3; 5]) ∧
  check_if_need_reshape match_bindings = Ok true ∧
  ∀ (r : RewriteRule) (g : Pattern.Graph) (anchor : Pattern.Node) (st : MatchState),
    r ∈ rules BroadcastToMatmul.rules →
    match_pattern g (compile (target_pattern r)) anchor = Some st →
    value_of g <$> bindings st = match_bindings →
    ∃ a b : handle,
      bindings st !! "input_a" = Some a ∧ bindings st !! "input_b" = Some b ∧
      try_rewrite r g anchor =
        Ok (splice g anchor st
              [Pattern.mk_Node (next_handle g) "" "MatMul" [Some a; Some b]
                 [next_handle g] ∅]
              (next_handle g) (S (next_handle g))).
Proof.
  intros Ha Hsa Hb Hsb Hc Hvc Hrank Hlist.
  assert (check_if_need_reshape match_bindings = Ok true) as Htrue.
  { rewrite (check_if_need_reshape_bound _ _ _ _ Ha Hb Hc).
    rewrite Hvc, Hrank, Hsa, Hsb, Hlist. reflexivity. }
  split; [reflexivity|]. split; [exact Htrue|].
  intros r g anchor st Hr Hm Hbind.
  assert (∃ a, bindings st !! "input_a" = Some a) as [a Hba].
  { rewrite <- Hbind, lookup_fmap in Ha.
    destruct (bindings st !! "input_a") as [a|]; [by exists a|discriminate]. }
  assert (∃ b, bindings st !! "input_b" = Some b) as [b Hbb].
  { rewrite <- Hbind, lookup_fmap in Hb.
    destruct (bindings st !! "input_b") as [b|]; [by exists b|discriminate]. }
  exists a, b. split; [exact Hba|]. split; [exact Hbb|].
  apply try_rewrite_matmul; try assumption.
  assert (condition_function r = check_if_need_reshape) as ->.
  { cbn in Hr. rewrite !elem_of_cons in Hr.
    destruct Hr as [->|[->|Hr]]; [reflexivity|reflexivity|by apply elem_of_nil in Hr]. }
  by rewrite Hbind.
Qed.

(** Scenario A: the binding found at the final [Reshape] of [scenario_a]. *)
Lemma check_if_need_reshape_scenario_a_witness :
  let match_bindings : gmap string Value :=
    value_of Scenarios.scenario_a <$>
      ({[ "input_a" := 0%nat; "input_b" := 1%nat; "shape_a" := 2%nat;
          "shape_c" := 3%nat ]} : gmap string handle) in
  broadcast_matmul_output_shape [2; 3; 4] [4; 5] 3 2 false = Ok (Some [2; 3; 5]) ∧
  check_if_need_reshape match_bindings = Ok true ∧
  ∀ (r : RewriteRule) (g : Pattern.Graph) (anchor : Pattern.Node) (st : MatchState),
    r ∈ rules BroadcastToMatmul.rules →
    match_pattern g (compile (target_pattern r)) anchor = Some st →
    value_of g <$> bindings st = match_bindings →
    ∃ a b : handle,
      bindings st !! "input_a" = Some a ∧ bindings st !! "input_b" = Some b ∧
      try_rewrite r g anchor =
        Ok (splice g anchor st
              [Pattern.mk_Node (next_handle g) "" "MatMul" [Some a; Some b]
                 [next_handle g] ∅]
              (next_handle g) (S (next_handle g))).
Proof.
  intros match_bindings.
  apply (check_if_need_reshape_scenario_a match_bindings
           (value_of Scenarios.scenario_a 0%nat)
           (value_of Scenarios.scenario_a 1%nat)
           (value_of Scenarios.scenario_a 3%nat)
           (Scenarios.shape_tensor [2; 3; 5])).
  all: vm_compute; reflexivity.
Defined.

(** Scenario A on the engine: the three nodes of the chain collapse into one
    [MatMul] whose output feeds the consumer of the chain. *)
Lemma scenario_a_collapses :
  apply_to_graph BroadcastToMatmul.rules Scenarios.scenario_a
  = Ok (Scenarios.scenario_a_rewritten, true).
Proof. vm_compute. reflexivity. Qed.

(** ** The driver [optimize] *)

Section OptimizeFacts.
Import Optimizer.
Context {ModelProto : Type} `{Passes ModelProto}.
Implicit Types (model : ModelProto) (log : list (Event ModelProto)).

Lemma iterations_of_app log1 log2 :
  iterations_of (log1 ++ log2) = iterations_of log1 ++ iterations_of log2.
Proof. apply omap_app. Qed.

Lemma inferred_of_app log1 log2 :
  inferred_of (log1 ++ log2) = inferred_of log1 ++ inferred_of log2.
Proof. apply omap_app. Qed.

Lemma folded_of_app log1 log2 :
  folded_of (log1 ++ log2) = folded_of log1 ++ folded_of log2.
Proof. apply omap_app. Qed.

(** The log of the shape refresh: at most one call of shape inference. *)
Lemma refresh_shapes_log osi model :
  iterations_of (refresh_shapes osi model).1 = [] ∧
  inferred_of (refresh_shapes osi model).1 =
    (if osi && (ByteSize model <? 2 * 1024 ^ 3) then [model] else []) ∧
  folded_of (refresh_shapes osi model).1 = [].
Proof.
  unfold refresh_shapes. destruct osi; [|by repeat split].
  change (1024 * 1024 * 1024 * 2) with (2 * 1024 ^ 3).
  destruct (ByteSize model <? 2 * 1024 ^ 3); cbn.
  - destruct (infer_shapes model); by repeat split.
  - by repeat split.
Qed.

(** What the shape refresh hands on when the model is not below the limit or
    the flag is off: the model as it is. *)
Lemma refresh_shapes_skipped osi model :
  osi && (ByteSize model <? 2 * 1024 ^ 3) = false →
  (refresh_shapes osi model).2 = Ok model.
Proof.
  unfold refresh_shapes.
  change (1024 * 1024 * 1024 * 2) with (2 * 1024 ^ 3).
  destruct osi; [|reflexivity]. cbn. by intros ->.
Qed.

(** The log of an iteration: that of the shape refresh, then the call of
    [fold_constants], reached when the refresh and the inlining before it
    return, with the folder and the flag of the run. *)
Lemma iteration_log osi folder model :
  (iteration osi folder model).1 =
    (refresh_shapes osi model).1 ++
    match (refresh_shapes osi model).2 with
    | Ok m1 =>
        match inline_simple_functions m1 with
        | Ok m2 => [FoldConstants m2 folder osi]
        | Raise _ => []
        end
    | Raise _ => []
    end.
Proof.
  unfold iteration.
  destruct (refresh_shapes osi model) as [l [m1|e]]; cbn [fst snd];
    [|by rewrite app_nil_r].
  cbn. destruct (inline_simple_functions m1) as [m2|e]; cbn;
    [|by rewrite app_nil_r].
  destruct (fold_constants m2 folder osi) as [[m3 modified]|e]; cbn;
    [|reflexivity].
  destruct (remove_unused_nodes m3) as [m4|e]; cbn; [|reflexivity].
  destruct (inline_simple_functions m4) as [m5|e]; cbn; [|reflexivity].
  destruct (remove_unused_functions m5) as [m6|e]; cbn; [|reflexivity].
  destruct (inline_functions_with_unused_outputs m6) as [m7|e]; cbn;
    [|reflexivity].
  by destruct (rewrite m7 pattern_rewrite_rules) as [m8|e].
Qed.

Lemma iteration_events osi folder model :
  iterations_of (iteration osi folder model).1 = [] ∧
  inferred_of (iteration osi folder model).1 =
    (if osi && (ByteSize model <? 2 * 1024 ^ 3) then [model] else []) ∧
  folded_of (iteration osi folder model).1 =
    match (refresh_shapes osi model).2 with
    | Ok m1 =>
        match inline_simple_functions m1 with
        | Ok m2 => [(m2, folder, osi)]
        | Raise _ => []
        end
    | Raise _ => []
    end.
Proof.
  rewrite iteration_log, iterations_of_app, inferred_of_app, folded_of_app.
  destruct (refresh_shapes_log osi model) as (-> & -> & ->).
  destruct (refresh_shapes osi model).2 as [m1|e];
    [destruct (inline_simple_functions m1)|];
    by rewrite ?app_nil_r.
Qed.

(** One round of the loop. *)
Lemma iterations_S osi stop folder remaining i model :
  iterations osi stop folder (S remaining) i model =
    match iteration osi folder model with
    | (l, Ok (model', modified)) =>
        if stop && negb modified
        then (Iteration i model :: l ++ [LogDebugStopping i], Ok model')
        else
          let rest := iterations osi stop folder remaining (S i) model' in
          (Iteration i model :: l ++ rest.1, rest.2)
    | (l, Raise e) => (Iteration i model :: l, Raise e)
    end.
Proof.
  cbn. destruct (iteration osi folder model) as [l [[model' modified]|e]];
    [|reflexivity].
  destruct stop, modified; cbn; try reflexivity;
    by destruct (iterations osi _ folder remaining (S i) model').
Qed.

(** The trace of the loop: the iterations entered carry consecutive indices,
    there are at most [remaining] of them, and shape inference is called on
    exactly those entry models that pass the test of line 59. *)
Lemma iterations_trace osi stop folder remaining i model :
  let log := (iterations osi stop folder remaining i model).1 in
  (iterations_of log).*1 = seq i (length (iterations_of log)) ∧
  (length (iterations_of log) ≤ remaining)%nat ∧
  inferred_of log =
    filter (λ m, osi && (ByteSize m <? 2 * 1024 ^ 3) = true) (iterations_of log).*2.
Proof.
  revert i model. induction remaining as [|remaining IH]; intros i model.
  { cbn. split; [reflexivity|]. split; [lia|reflexivity]. }
  cbv zeta. rewrite iterations_S.
  destruct (iteration_events osi folder model) as (Hi & Hf & _).
  assert (∀ rest : list (Event ModelProto),
            iterations_of (Iteration i model :: (iteration osi folder model).1 ++ rest)
            = (i, model) :: iterations_of rest) as Hits.
  { intros rest. change (Iteration i model :: ?l) with ([Iteration i model] ++ l).
    by rewrite !iterations_of_app, Hi. }
  assert (∀ rest : list (Event ModelProto),
            inferred_of (Iteration i model :: (iteration osi folder model).1 ++ rest)
            = filter (λ m, osi && (ByteSize m <? 2 * 1024 ^ 3) = true) [model]
              ++ inferred_of rest) as Hinf.
  { intros rest. change (Iteration i model :: ?l) with ([Iteration i model] ++ l).
    rewrite !inferred_of_app, Hf.
    destruct (osi && (ByteSize model <? 2 * 1024 ^ 3)) eqn:E.
    - by rewrite filter_cons_True.
    - rewrite filter_cons_False; [done|]. by rewrite E. }
  destruct (iteration osi folder model) as [l [[model' modified]|e]]; cbn [fst] in *.
  - destruct (stop && negb modified).
    + cbn [fst]. rewrite Hits, Hinf. cbn. split; [reflexivity|].
      split; [lia|]. by rewrite app_nil_r.
    + cbv zeta. cbn [fst].
      destruct (IH (S i) model') as (IH1 & IH2 & IH3).
      rewrite Hits, Hinf. cbn [length fmap list_fmap fst snd seq].
      rewrite IH1 at 1. split; [reflexivity|]. split; [lia|].
      rewrite IH3. by rewrite <- filter_app.
  - cbn [fst]. specialize (Hits []). specialize (Hinf []).
    rewrite app_nil_r in Hits, Hinf. rewrite Hits, Hinf. cbn.
    split; [reflexivity|]. split; [lia|]. by rewrite app_nil_r.
Qed.

Lemma no_pass_changed_iteration osi folder model :
  fold_constants_accurate →
  no_pass_changed osi folder model →
  ∃ l, iteration osi folder model = (l, Ok (model, false)).
Proof.
  intros Hacc (H1 & H2 & [modified H3] & H4 & H5 & H6 & H7).
  pose proof (Hacc _ _ _ _ H3) as ->.
  unfold iteration. destruct (refresh_shapes osi model) as [l r].
  cbn in H1. subst r. exists (l ++ [FoldConstants model folder osi]). cbn.
  rewrite H2. cbn. rewrite H3. cbn. rewrite H4. cbn. rewrite H2. cbn.
  rewrite H5. cbn. rewrite H6. cbn. rewrite H7. cbn.
  reflexivity.
Qed.

(** With [stop_if_no_change], an iteration in which no pass changes the model
    is the last one entered. *)
Lemma iterations_stop_at_fixpoint osi folder remaining i model0 k model :
  fold_constants_accurate →
  (k, model) ∈ iterations_of (iterations osi true folder remaining i model0).1 →
  no_pass_changed osi folder model →
  (i ≤ k)%nat ∧
  length (iterations_of (iterations osi true folder remaining i model0).1)
  = S (k - i).
Proof.
  intros Hacc. revert i model0.
  induction remaining as [|remaining IH]; intros i model0 Hin Hfix.
  { cbn in Hin. by apply elem_of_nil in Hin. }
  rewrite iterations_S in Hin |- *.
  destruct (iteration_events osi folder model0) as (Hi & _).
  assert (∀ rest : list (Event ModelProto),
            iterations_of (Iteration i model0 :: (iteration osi folder model0).1 ++ rest)
            = (i, model0) :: iterations_of rest) as Hits.
  { intros rest. change (Iteration i model0 :: ?l) with ([Iteration i model0] ++ l).
    by rewrite !iterations_of_app, Hi. }
  destruct (iteration osi folder model0) as [l [[model' modified]|e]] eqn:Hit;
    cbn [fst] in *.
  - destruct modified; cbn [andb negb] in *.
    + cbv zeta in *. cbn [fst] in *. rewrite Hits in Hin |- *.
      apply elem_of_cons in Hin as [Heq|Hin].
      * injection Heq as -> ->.
        destruct (no_pass_changed_iteration _ _ _ Hacc Hfix) as [l' Hit'].
        rewrite Hit' in Hit. discriminate.
      * destruct (IH _ _ Hin Hfix) as [Hle Hlen].
        cbn [length]. rewrite Hlen. split; [lia|]. f_equal. lia.
    + cbn [fst] in *. rewrite Hits in Hin |- *. cbn in Hin |- *.
      apply list_elem_of_singleton in Hin. injection Hin as -> ->.
      split; [lia|]. f_equal. lia.
  - specialize (Hits []). rewrite app_nil_r in Hits.
    rewrite Hits in Hin |- *. cbn in Hin |- *.
    apply list_elem_of_singleton in Hin. injection Hin as -> ->.
    split; [lia|]. f_equal. lia.
Qed.

Lemma optimize_unfold model n osi stop folder faf :
  optimize model n osi stop folder faf =
    ((if faf is Some _
      then [LogWarning function_aware_folding_is_deprecated] else [])
       ++ (iterations osi stop folder (Z.to_nat n) 0 model).1,
     (iterations osi stop folder (Z.to_nat n) 0 model).2).
Proof.
  unfold optimize.
  destruct (iterations osi stop folder (Z.to_nat n) 0 model) as [l r].
  by destruct faf.
Qed.

Lemma optimize_iterations_of model n osi stop folder faf :
  iterations_of (optimize model n osi stop folder faf).1
  = iterations_of (iterations osi stop folder (Z.to_nat n) 0 model).1.
Proof.
  rewrite optimize_unfold. cbn [fst]. rewrite iterations_of_app.
  by destruct faf.
Qed.

Lemma optimize_inferred_of model n osi stop folder faf :
  inferred_of (optimize model n osi stop folder faf).1
  = inferred_of (iterations osi stop folder (Z.to_nat n) 0 model).1.
Proof.
  rewrite optimize_unfold. cbn [fst]. rewrite inferred_of_app.
  by destruct faf.
Qed.

(** What the loop returns is what the last iteration entered has left. *)
Lemma iterations_result osi stop folder remaining i model model' :
  (iterations osi stop folder remaining i model).2 = Ok model' →
  match last (iterations_of (iterations osi stop folder remaining i model).1) with
  | None => model' = model
  | Some (_, m) => ∃ modified, (iteration osi folder m).2 = Ok (model', modified)
  end.
Proof.
  revert i model. induction remaining as [|remaining IH]; intros i model Hres.
  { cbn in *. congruence. }
  rewrite iterations_S in Hres |- *.
  destruct (iteration_events osi folder model) as (Hi & _).
  assert (∀ rest : list (Event ModelProto),
            iterations_of (Iteration i model :: (iteration osi folder model).1 ++ rest)
            = (i, model) :: iterations_of rest) as Hits.
  { intros rest. change (Iteration i model :: ?l) with ([Iteration i model] ++ l).
    by rewrite !iterations_of_app, Hi. }
  destruct (iteration osi folder model) as [l [[model1 modified]|e]] eqn:Hit;
    cbn [fst snd] in *; [|discriminate].
  destruct (stop && negb modified).
  - cbn [fst snd] in *. rewrite Hits. cbn. injection Hres as ->.
    exists modified. by rewrite Hit.
  - cbv zeta in *. cbn [fst snd] in *. rewrite Hits.
    specialize (IH _ _ Hres). rewrite last_cons.
    destruct (last (iterations_of _)) as [[k m]|]; [exact IH|].
    exists modified. by rewrite Hit, IH.
Qed.

Lemma optimize_folded_of model n osi stop folder faf :
  folded_of (optimize model n osi stop folder faf).1
  = folded_of (iterations osi stop folder (Z.to_nat n) 0 model).1.
Proof.
  rewrite optimize_unfold. cbn [fst]. rewrite folded_of_app.
  by destruct faf.
Qed.

(** The calls of [fold_constants] in a log: each receives the folder and the
    flag of the run, and each iteration entered on a model that is not handed
    to shape inference, and that the inlining leaves as [m1], calls it on
    [m1]. *)
Definition folds_as_called (osi : bool) (folder : string)
    (log : list (Event ModelProto)) : Prop :=
  (∀ m f flag, (m, f, flag) ∈ folded_of log → f = folder ∧ flag = osi) ∧
  (∀ k m m1, (k, m) ∈ iterations_of log →
             osi && (ByteSize m <? 2 * 1024 ^ 3) = false →
             inline_simple_functions m = Ok m1 →
             (m1, folder, osi) ∈ folded_of log).

Lemma folds_as_called_step osi folder i model rest :
  folds_as_called osi folder rest →
  folds_as_called osi folder
    (Iteration i model :: (iteration osi folder model).1 ++ rest).
Proof.
  intros [Hall Hcall].
  destruct (iteration_events osi folder model) as (Hi & _ & Hfo).
  change (Iteration i model :: ?l) with ([Iteration i model] ++ l).
  unfold folds_as_called.
  rewrite !iterations_of_app, !folded_of_app, Hi, Hfo.
  change (folded_of [Iteration i model]) with (@nil (ModelProto * string * bool)).
  change (iterations_of [Iteration i model]) with [(i, model)].
  cbn [app]. split.
  - intros m f flag [Hin|Hin]%elem_of_app; [|exact (Hall m f flag Hin)].
    destruct (refresh_shapes osi model).2 as [m1|e];
      [destruct (inline_simple_functions m1) as [m2|e]|];
      try (by apply elem_of_nil in Hin).
    apply list_elem_of_singleton in Hin. by injection Hin as -> -> ->.
  - intros k m m1 Hin Hskip Hinline. apply elem_of_app.
    apply elem_of_cons in Hin as [Heq|Hin]; [|right; by eapply Hcall].
    injection Heq as -> ->. left.
    rewrite (refresh_shapes_skipped _ _ Hskip), Hinline.
    apply list_elem_of_here.
Qed.

Lemma iterations_folds_as_called osi stop folder remaining i model :
  folds_as_called osi folder (iterations osi stop folder remaining i model).1.
Proof.
  assert (folds_as_called osi folder []) as Hnil.
  { split; [intros m f flag Hin|intros k m m1 Hin]; by apply elem_of_nil in Hin. }
  revert i model. induction remaining as [|remaining IH]; intros i model.
  { exact Hnil. }
  rewrite iterations_S.
  pose proof (folds_as_called_step osi folder i model) as Hstep.
  destruct (iteration osi folder model) as [l [[model' modified]|e]];
    cbn [fst] in *.
  - destruct (stop && negb modified); cbn [fst].
    + apply Hstep. split; [intros m f flag Hin|intros k m m1 Hin];
        by apply elem_of_nil in Hin.
    + apply Hstep, IH.
  - specialize (Hstep [] Hnil). by rewrite app_nil_r in Hstep.
Qed.

(** C1. [optimize] enters at most [num_iterations] iterations of the pass
    sequence, numbered from 0 without gaps; with [stop_if_no_change], and with
    a [modified] flag of [fold_constants] that is not raised when the model is
    left unchanged, an iteration in which no pass changes the model is the
    last one: no further iteration is entered. *)
Theorem optimize_iteration_bound_and_early_stop
    model num_iterations osi stop_if_no_change folder faf :
  let log := (optimize model num_iterations osi stop_if_no_change folder faf).1 in
  (length (iterations_of log) ≤ Z.to_nat num_iterations)%nat ∧
  (iterations_of log).*1 = seq 0 (length (iterations_of log)) ∧
  (stop_if_no_change = true →
   fold_constants_accurate →
   ∀ k m, (k, m) ∈ iterations_of log →
          no_pass_changed osi folder m →
          length (iterations_of log) = S k).
Proof.
  cbv zeta. rewrite optimize_iterations_of.
  destruct (iterations_trace osi stop_if_no_change folder
              (Z.to_nat num_iterations) 0 model) as (Hidx & Hlen & _).
  split; [exact Hlen|]. split; [exact Hidx|].
  intros -> Hacc k m Hin Hfix.
  destruct (iterations_stop_at_fixpoint _ _ _ _ _ _ _ Hacc Hin Hfix) as [_ ->].
  f_equal. lia.
Qed.

(** C9, as amended. Full-model shape inference is only ever called with
    [onnx_shape_inference] set and on a model of fewer than [2 * 1024^3]
    bytes: a model of that size or more is never handed to it, and an
    iteration entered with the flag set on a model strictly below the limit
    does call it on that model.  The limit does not reach [fold_constants]:
    every call of it receives the [external_data_folder] and the
    [onnx_shape_inference] of the run, and an iteration entered with the flag
    set on a model of [2 * 1024^3] bytes or more, which the inlining leaves as
    [m1], calls [fold_constants] on [m1] with [onnx_shape_inference=True]. *)
Theorem optimize_shape_inference_size_limit
    model num_iterations osi stop_if_no_change folder faf :
  let log := (optimize model num_iterations osi stop_if_no_change folder faf).1 in
  (∀ m, m ∈ inferred_of log → osi = true ∧ ByteSize m < 2 * 1024 ^ 3) ∧
  (∀ m, 2 * 1024 ^ 3 ≤ ByteSize m → m ∉ inferred_of log) ∧
  (∀ k m, (k, m) ∈ iterations_of log →
          osi = true → ByteSize m < 2 * 1024 ^ 3 → m ∈ inferred_of log) ∧
  (∀ m f flag, (m, f, flag) ∈ folded_of log → f = folder ∧ flag = osi) ∧
  (∀ k m m1, (k, m) ∈ iterations_of log →
             osi = true → 2 * 1024 ^ 3 ≤ ByteSize m →
             inline_simple_functions m = Ok m1 →
             (m1, folder, true) ∈ folded_of log).
Proof.
  cbv zeta.
  rewrite optimize_iterations_of, optimize_inferred_of, optimize_folded_of.
  destruct (iterations_folds_as_called osi stop_if_no_change folder
              (Z.to_nat num_iterations) 0 model) as [Hall Hcall].
  destruct (iterations_trace osi stop_if_no_change folder
              (Z.to_nat num_iterations) 0 model) as (_ & _ & Hinf).
  rewrite Hinf.
  assert (∀ m, m ∈ filter (λ m, osi && (ByteSize m <? 2 * 1024 ^ 3) = true)
                     (iterations_of
                        (iterations osi stop_if_no_change folder
                           (Z.to_nat num_iterations) 0 model).1).*2 →
               osi = true ∧ ByteSize m < 2 * 1024 ^ 3) as Hsmall.
  { intros m [Hm _]%list_elem_of_filter.
    apply andb_true_iff in Hm as [-> Hm]. split; [reflexivity|lia]. }
  split; [exact Hsmall|]. split; [|split; [|split; [exact Hall|]]].
  - intros m Hbig Hin. apply Hsmall in Hin as [_ Hin]. lia.
  - intros k m Hin -> Hlt. apply list_elem_of_filter. split.
    + apply andb_true_iff. split; [reflexivity|lia].
    + apply list_elem_of_fmap. by exists (k, m).
  - intros k m m1 Hin -> Hbig Hinline. eapply Hcall; [exact Hin| |exact Hinline].
    cbn. lia.
Qed.

(** C2, as amended. The package exports five names: [optimize],
    [fold_constants], [remove_unused_nodes], [do_copy_propagation] and
    [do_sequence_simplification], and no other.  [optimize] takes the model,
    the iteration count, the flags [onnx_shape_inference] and
    [stop_if_no_change] and the external data folder, and returns the model
    alone: the input model when no iteration is entered, and otherwise the
    model that the last iteration entered has left. *)
Theorem optimize_returns_the_model_only
    model num_iterations osi stop_if_no_change folder faf model' :
  (optimize model num_iterations osi stop_if_no_change folder faf).2 = Ok model' →
  "optimize" ∈ __all__ ∧ length __all__ = 5%nat ∧
  (∀ name, name ∈ __all__ ↔
           name = "optimize" ∨ name = "fold_constants" ∨
           name = "remove_unused_nodes" ∨ name = "do_copy_propagation" ∨
           name = "do_sequence_simplification") ∧
  match last (iterations_of
                (optimize model num_iterations osi stop_if_no_change folder faf).1) with
  | None => model' = model
  | Some (_, m) => ∃ modified, (iteration osi folder m).2 = Ok (model', modified)
  end.
Proof.
  intros Hres. split; [|split; [reflexivity|split]].
  { unfold __all__. rewrite !elem_of_cons. auto. }
  { intros name. unfold __all__. rewrite !elem_of_cons, elem_of_nil. tauto. }
  rewrite optimize_iterations_of. rewrite optimize_unfold in Hres.
  by apply iterations_result.
Qed.

End OptimizeFacts.

(** *** The driver on the toy passes *)

Lemma toy_fold_constants_accurate :
  Optimizer.fold_constants_accurate (H := Scenarios.toy_passes).
Proof.
  intros model folder osi modified Hfold. cbn in Hfold.
  injection Hfold as Hsame <-. rewrite Hsame.
  apply bool_decide_eq_false. auto.
Qed.

(** On a model holding one [MatMul], nothing changes in iteration 0, which is
    therefore the only one of the two allowed. *)
Lemma optimize_iteration_bound_and_early_stop_witness :
  let log :=
    (Optimizer.optimize (H := Scenarios.toy_passes) ["MatMul"] 2 true true "" None).1 in
  length (Optimizer.iterations_of log) = 1%nat.
Proof.
  intros log.
  apply (proj2 (proj2 (optimize_iteration_bound_and_early_stop
                         (H := Scenarios.toy_passes) ["MatMul"] 2 true true "" None))
           eq_refl toy_fold_constants_accurate 0%nat ["MatMul"]).
  - vm_compute. apply list_elem_of_here.
  - vm_compute. repeat split; try reflexivity. by exists false.
Defined.

(** A model of one GiB is handed to shape inference. *)
Lemma optimize_shape_inference_size_limit_witness :
  let log :=
    (Optimizer.optimize (H := Scenarios.toy_passes) ["MatMul"] 2 true true "" None).1 in
  ["MatMul"] ∈ Optimizer.inferred_of log.
Proof.
  intros log.
  apply (proj1 (proj2 (proj2 (optimize_shape_inference_size_limit
                         (H := Scenarios.toy_passes) ["MatMul"] 2 true true "" None)))
           0%nat ["MatMul"]).
  - vm_compute. apply list_elem_of_here.
  - reflexivity.
  - vm_compute. reflexivity.
Defined.

(** C9, as stated, fails: a model of two GiB, optimized with
    [onnx_shape_inference] set, is not handed to full-model shape inference,
    yet it is not handled on the shapes it carries either, since
    [fold_constants] is called on it with [onnx_shape_inference=True]. *)
Lemma optimize_folds_oversized_model_with_shape_inference :
  2 * 1024 ^ 3 ≤ Optimizer.ByteSize (Passes := Scenarios.toy_passes) ["MatMul"; "Relu"] ∧
  Optimizer.inferred_of
    (Optimizer.optimize (H := Scenarios.toy_passes) ["MatMul"; "Relu"] 2 true true
       "" None).1 = [] ∧
  Optimizer.folded_of
    (Optimizer.optimize (H := Scenarios.toy_passes) ["MatMul"; "Relu"] 2 true true
       "" None).1 = [(["MatMul"; "Relu"], "", true)] ∧
  ¬ ∀ m f flag,
      (m, f, flag) ∈ Optimizer.folded_of
        (Optimizer.optimize (H := Scenarios.toy_passes) ["MatMul"; "Relu"] 2 true
           true "" None).1 →
      2 * 1024 ^ 3 ≤ Optimizer.ByteSize (Passes := Scenarios.toy_passes) m →
      flag = false.
Proof.
  split; [vm_compute; discriminate|]. split; [reflexivity|].
  split; [reflexivity|].
  intros Hcarried.
  specialize (Hcarried ["MatMul"; "Relu"] "" true).
  assert (true = false) as Habs; [|discriminate Habs].
  apply Hcarried.
  - vm_compute. apply list_elem_of_here.
  - vm_compute. discriminate.
Qed.

(** A model of two GiB is not, although [onnx_shape_inference] is set. *)
Lemma optimize_skips_shape_inference_at_two_gib :
  let log :=
    (Optimizer.optimize (H := Scenarios.toy_passes) ["MatMul"; "Relu"] 2 true true
       "" None).1 in
  Optimizer.iterations_of log = [(0%nat, ["MatMul"; "Relu"])] ∧
  Optimizer.inferred_of log = [].
Proof. vm_compute. split; reflexivity. Qed.

(** The rewriter drops the [Identity] node; the model returned is the one the
    single iteration entered has left. *)
Lemma optimize_returns_the_model_only_witness :
  "optimize" ∈ Optimizer.__all__ ∧ length Optimizer.__all__ = 5%nat ∧
  (∀ name, name ∈ Optimizer.__all__ ↔
           name = "optimize" ∨ name = "fold_constants" ∨
           name = "remove_unused_nodes" ∨ name = "do_copy_propagation" ∨
           name = "do_sequence_simplification") ∧
  match last (Optimizer.iterations_of
                (Optimizer.optimize (H := Scenarios.toy_passes)
                   ["Identity"; "MatMul"] 2 true true "" None).1) with
  | None => ["MatMul"] = ["Identity"; "MatMul"]
  | Some (_, m) =>
      ∃ modified,
        (Optimizer.iteration (H := Scenarios.toy_passes) true "" m).2
        = Ok (["MatMul"], modified)
  end.
Proof.
  apply (optimize_returns_the_model_only (H := Scenarios.toy_passes)
           ["Identity"; "MatMul"] 2 true true "" None ["MatMul"]).
  vm_compute. reflexivity.
Defined.

(** C2, as stated, fails: [__all__] exports more than [optimize], and no
    "changed" flag can be read off what [optimize] returns, since a call that
    changes the model and a call that leaves it as it was return the same
    value. *)
Lemma optimize_exposes_no_changed_flag :
  Optimizer.__all__ ≠ ["optimize"] ∧
  ¬ ∃ changed : Result (list string) → bool,
      ∀ model model',
        (Optimizer.optimize (H := Scenarios.toy_passes) model 2 true true "" None).2
        = Ok model' →
        (changed (Optimizer.optimize (H := Scenarios.toy_passes) model 2 true true
                    "" None).2 = true
         ↔ model' ≠ model).
Proof.
  split; [discriminate|].
  intros [changed Hflag].
  pose proof (Hflag ["Identity"; "MatMul"] ["MatMul"] eq_refl) as H1.
  pose proof (Hflag ["MatMul"] ["MatMul"] eq_refl) as H2.
  change (Optimizer.optimize ["Identity"; "MatMul"] 2 true true "" None).2
    with (Ok ["MatMul"] : Result (list string)) in H1.
  change (Optimizer.optimize ["MatMul"] 2 true true "" None).2
    with (Ok ["MatMul"] : Result (list string)) in H2.
  apply H2; [|reflexivity]. apply H1. discriminate.
Qed.

(** The early stop only consults [fold_constants]: here the rewriter changes
    the model in iteration 0, and no second iteration is entered. *)
Lemma optimize_stops_although_rewrite_changed :
  let run :=
    Optimizer.optimize (H := Scenarios.toy_passes) ["Identity"; "MatMul"] 2 true
      true "" None in
  Optimizer.iterations_of run.1 = [(0%nat, ["Identity"; "MatMul"])] ∧
  run.2 = Ok ["MatMul"].
Proof. vm_compute. split; reflexivity. Qed.

(** ** Tensors: [deserialize_tensor] and [serialize_tensor] *)

Section TensorFacts.
Import Serde.
Implicit Types (proto : TensorProto.t) (tensor : Tensor).

Lemma new_tensor_Ok cls proto tensor :
  new_tensor cls proto = Ok tensor → tensor = ProtoTensor cls proto.
Proof.
  unfold new_tensor.
  destruct cls; try (destruct (in_types _ _)); congruence.
Qed.

(** A tensor that is not external is only ever deserialized into an instance
    of [TensorProtoTensor] that keeps the proto. *)
Lemma deserialize_tensor_keeps_proto proto base_path tensor :
  TensorProto.data_location proto ≠ EXTERNAL →
  deserialize_tensor proto base_path = Ok tensor →
  ∃ cls, tensor = ProtoTensor cls proto.
Proof.
  intros Hloc. unfold deserialize_tensor.
  rewrite bool_decide_eq_false_2 by exact Hloc.
  repeat case_match; try discriminate;
    intros Hnew%new_tensor_Ok; eauto.
Qed.

(** X28. Round trip, for what [deserialize_tensor] accepts: a tensor read
    from a proto that is not external is an instance of [TensorProtoTensor],
    and [serialize_tensor] gives the proto back. *)
Lemma serialize_deserialize_tensor proto base_path tensor :
  TensorProto.data_location proto ≠ EXTERNAL →
  deserialize_tensor proto base_path = Ok tensor →
  is_TensorProtoTensor tensor = true ∧ serialize_tensor tensor = Ok proto.
Proof.
  intros Hloc Hde.
  destruct (deserialize_tensor_keeps_proto _ _ _ Hloc Hde) as [cls ->].
  by split.
Qed.

(** X29. What [deserialize_tensor] accepts of a proto that is not external:
    [raw_data] set, or a [data_type] of one of the five specialised classes;
    the data fields themselves are not looked at. *)
Lemma deserialize_tensor_accepts proto base_path :
  TensorProto.data_location proto ≠ EXTERNAL →
  is_ok (deserialize_tensor proto base_path) =
    bool_decide (TensorProto.raw_data proto ≠ None)
    || in_types (TensorProto.data_type proto)
         (compatible_types FloatDataTensor ++ compatible_types Int32DataTensor
            ++ compatible_types Int64DataTensor
            ++ compatible_types DoubleDataTensor
            ++ compatible_types UInt64DataTensor).
Proof.
  intros Hloc. unfold deserialize_tensor, in_types.
  rewrite bool_decide_eq_false_2 by exact Hloc.
  rewrite !existsb_app.
  destruct (bool_decide (TensorProto.raw_data proto ≠ None)); [reflexivity|].
  cbn [orb]. unfold new_tensor, in_types.
  destruct (existsb _ (compatible_types FloatDataTensor)); [reflexivity|].
  destruct (existsb _ (compatible_types Int32DataTensor)); [reflexivity|].
  destruct (existsb _ (compatible_types Int64DataTensor)); [reflexivity|].
  destruct (existsb _ (compatible_types DoubleDataTensor)); [reflexivity|].
  destruct (existsb _ (compatible_types UInt64DataTensor)); reflexivity.
Qed.

End TensorFacts.

(** C10, at a failing input. The string tensor has a data field set and is
    not external, yet [deserialize_tensor] raises, and with a message that
    says no data field is set; so it has no round trip. *)
Theorem deserialize_tensor_rejects_string_data :
  Serde.TensorProto.has_data Scenarios.string_tensor = true ∧
  Serde.TensorProto.data_location Scenarios.string_tensor = Serde.DEFAULT ∧
  Serde.TensorProto.data_type Scenarios.string_tensor
  = Serde.DataType_value Serde.STRING ∧
  Serde.deserialize_tensor Scenarios.string_tensor ""
  = Raise (ValueError
             "TensorProto(name=labels) does not have any data fields set and is not an external tensor.").
Proof. repeat split. Qed.

(** ** Deserialization of graphs and nodes *)

Section SerdeMonadFacts.
Import Serde.

Lemma bind_Ok {A B} (m : M A) (f : A → M B) st b st' :
  (m ≫= f) st = Ok (b, st') →
  ∃ a st1, m st = Ok (a, st1) ∧ f a st1 = Ok (b, st').
Proof.
  unfold mbind, M_bind. destruct (m st) as [[a st1]|e]; [|discriminate].
  intros Hf. by exists a, st1.
Qed.

Lemma bind_Raise {A B} (m : M A) (f : A → M B) st e :
  m st = Raise e → (m ≫= f) st = Raise e.
Proof. unfold mbind, M_bind. by intros ->. Qed.

Lemma bind_step {A B} (m : M A) (f : A → M B) st a st1 :
  m st = Ok (a, st1) → (m ≫= f) st = f a st1.
Proof. unfold mbind, M_bind. by intros ->. Qed.

Lemma mret_Ok {A} (a b : A) st st' :
  (mret a : M A) st = Ok (b, st') → b = a ∧ st' = st.
Proof. unfold mret, M_ret. intros [= -> ->]. by split. Qed.

Lemma lift_Ok {A} (r : Result A) a st st' :
  lift r st = Ok (a, st') → r = Ok a ∧ st' = st.
Proof. unfold lift. destruct r; intros [= -> ->]; by split. Qed.

End SerdeMonadFacts.

Section ResolveInputs.
Import Serde.
Context (node_name domain op_type overload : string) (st : State).

Lemma resolve_inputs_accepts input :
  (∀ n, n ∈ input → n ≠ "" → is_Some (visible st n)) →
  mapM (resolve_input node_name domain op_type overload) input st
  = Ok (resolved st <$> input, st).
Proof.
  induction input as [|x input IH]; intros Hdef; [reflexivity|].
  cbn [mapM].
  assert (resolve_input node_name domain op_type overload x st
          = Ok (resolved st x, st)) as Hx.
  { unfold resolve_input, resolved. case_bool_decide as Hempty; [reflexivity|].
    destruct (Hdef x) as [v Hv]; [apply list_elem_of_here|exact Hempty|].
    unfold visible in Hv |- *. by rewrite Hv. }
  rewrite (bind_step _ _ _ _ _ Hx).
  rewrite (bind_step _ _ _ _ _ (IH (λ n Hn, Hdef n (list_elem_of_further _ _ _ Hn)))).
  reflexivity.
Qed.

Lemma resolve_inputs_rejects input n :
  n ∈ input → n ≠ "" → visible st n = None →
  ∃ missing,
    missing ∈ input ∧ missing ≠ "" ∧ visible st missing = None ∧
    mapM (resolve_input node_name domain op_type overload) input st
    = Raise (ValueError
               (not_found_message missing node_name domain op_type overload
                  (length (scoped_values st)))).
Proof.
  induction input as [|x input IH]; intros Hin Hne Hundef.
  { by apply elem_of_nil in Hin. }
  cbn [mapM].
  destruct (decide (x ≠ "" ∧ visible st x = None)) as [[Hx1 Hx2]|Hx].
  - exists x. split; [apply list_elem_of_here|]. split; [exact Hx1|].
    split; [exact Hx2|]. apply bind_Raise.
    unfold resolve_input. rewrite bool_decide_eq_false_2 by exact Hx1.
    unfold visible in Hx2. by rewrite Hx2.
  - apply elem_of_cons in Hin as [->|Hin]; [by destruct Hx|].
    destruct (IH Hin Hne Hundef) as (missing & Hm1 & Hm2 & Hm3 & Hm4).
    exists missing. split; [by apply list_elem_of_further|].
    split; [exact Hm2|]. split; [exact Hm3|].
    assert (resolve_input node_name domain op_type overload x st
            = Ok (resolved st x, st)) as Hrx.
    { unfold resolve_input, resolved. case_bool_decide as Hempty; [reflexivity|].
      fold (visible st x). destruct (visible st x) as [v|] eqn:Hv; [reflexivity|].
      destruct Hx. by split. }
    rewrite (bind_step _ _ _ _ _ Hrx). by apply bind_Raise.
Qed.

Lemma resolve_inputs_Ok input l st' :
  mapM (resolve_input node_name domain op_type overload) input st = Ok (l, st') →
  st' = st ∧ l = resolved st <$> input ∧
  ∀ n, n ∈ input → n ≠ "" → is_Some (visible st n).
Proof.
  intros Hok.
  destruct (decide (Exists (λ n, n ≠ "" ∧ visible st n = None) input)) as [Hex|Hall].
  - apply Exists_exists in Hex as (n & Hin & Hne & Hundef).
    destruct (resolve_inputs_rejects input n Hin Hne Hundef)
      as (missing & _ & _ & _ & Hraise).
    rewrite Hraise in Hok. discriminate.
  - assert (∀ n, n ∈ input → n ≠ "" → is_Some (visible st n)) as Hdef.
    { intros n Hin Hne. destruct (visible st n) as [v|] eqn:Hv; [by exists v|].
      destruct Hall. apply Exists_exists. by exists n. }
    rewrite (resolve_inputs_accepts input Hdef) in Hok.
    injection Hok as <- <-. by repeat split.
Qed.

End ResolveInputs.

Section NodeFacts.
Import Serde.

Lemma deserialize_node_unfold input output name op_type domain overload
    attribute metadata_props value_info :
  _deserialize_node
    (mk_NodeProto input output name op_type domain overload attribute
       metadata_props) value_info
  = (node_inputs ← mapM (resolve_input name domain op_type overload) input;
     attributes ← mapM _deserialize_attribute attribute;
     outputs ← mapM (λ _, new_value (Value.mk None None None None)) output;
     forM_ (λ '(output, value), register_output value_info output value)
       (zip output outputs);;
     mret (mk_Node domain op_type node_inputs attributes overload outputs
             name (dict_of metadata_props))).
Proof. reflexivity. Qed.

End NodeFacts.



(** The same node, evaluated: the missing input is [y]; and a node whose
    named inputs are all defined is accepted, its omitted input being [None]. *)
Lemma deserialize_node_examples :
  Serde._deserialize_node Scenarios.node_with_undefined_input ∅
    Scenarios.one_scope
  = Raise (ValueError
             "Input 'y' of node 'n0(::Add:)' not found in any scope (current depth: 1)") ∧
  Serde.node_inputs
    <$> (fst <$> Serde._deserialize_node Scenarios.node_with_omitted_input ∅
                   Scenarios.one_scope)
  = Ok [Some 0%nat; None].
Proof. vm_compute. split; reflexivity. Qed.

(** *** The scope stack *)

Section ProtoInduction.
Import Serde.
Context (Pg : GraphProto → Prop) (Pn : NodeProto → Prop)
  (Pa : AttributeProto → Prop).
Context
  (Hg : ∀ name doc_string initializer input output value_info node,
      Forall Pn node →
      Pg (mk_GraphProto name doc_string initializer input output value_info node))
  (Hn : ∀ input output name op_type domain overload attribute metadata_props,
      Forall Pa attribute →
      Pn (mk_NodeProto input output name op_type domain overload attribute
            metadata_props))
  (Ha : ∀ name doc_string ref_attr_name type_ i f s t g ints floats strings
          tensors graphs,
      Pg g → Forall Pg graphs →
      Pa (mk_AttributeProto name doc_string ref_attr_name type_ i f s t g ints
            floats strings tensors graphs)).

(** Induction over a graph proto, through its nodes, their attributes and
    the graphs these hold. *)
Fixpoint GraphProto_nested_ind (p : GraphProto) : Pg p :=
  match p with
  | mk_GraphProto name doc_string initializer input output value_info node =>
      Hg name doc_string initializer input output value_info node
        ((fix all (l : list NodeProto) : Forall Pn l :=
            match l with
            | [] => @List.Forall_nil _ Pn
            | n :: l' => @List.Forall_cons _ Pn n l' (NodeProto_nested_ind n) (all l')
            end) node)
  end
with NodeProto_nested_ind (p : NodeProto) : Pn p :=
  match p with
  | mk_NodeProto input output name op_type domain overload attribute
      metadata_props =>
      Hn input output name op_type domain overload attribute metadata_props
        ((fix all (l : list AttributeProto) : Forall Pa l :=
            match l with
            | [] => @List.Forall_nil _ Pa
            | a :: l' => @List.Forall_cons _ Pa a l' (AttributeProto_nested_ind a) (all l')
            end) attribute)
  end
with AttributeProto_nested_ind (p : AttributeProto) : Pa p :=
  match p with
  | mk_AttributeProto name doc_string ref_attr_name type_ i f s t g ints floats
      strings tensors graphs =>
      Ha name doc_string ref_attr_name type_ i f s t g ints floats strings
        tensors graphs (GraphProto_nested_ind g)
        ((fix all (l : list GraphProto) : Forall Pg l :=
            match l with
            | [] => @List.Forall_nil _ Pg
            | x :: l' => @List.Forall_cons _ Pg x l' (GraphProto_nested_ind x) (all l')
            end) graphs)
  end.

End ProtoInduction.

Section ScopeFacts.
Import Serde.
Implicit Types (st : State) (top : option ref).

Lemma stores_grow_refl top st : stores_grow top st st.
Proof. by repeat split. Qed.

Lemma stores_grow_trans top st1 st2 st3 :
  stores_grow top st1 st2 → stores_grow top st2 st3 → stores_grow top st1 st3.
Proof.
  intros (Hd1 & Hh1 & Hk1) (Hd2 & Hh2 & Hk2). repeat split; [lia|lia|].
  intros d Hd Hne. rewrite Hk2, Hk1; [reflexivity|lia|exact Hne|lia|exact Hne].
Qed.

Lemma stores_grow_weaken top st st' :
  stores_grow None st st' → stores_grow top st st'.
Proof.
  intros (Hd & Hh & Hk). repeat split; [lia|lia|].
  intros d Hlt _. by apply Hk.
Qed.

Lemma stable_refl top st : stable top st st.
Proof. split; [reflexivity|apply stores_grow_refl]. Qed.

Lemma stable_trans top st1 st2 st3 :
  stable top st1 st2 → stable top st2 st3 → stable top st1 st3.
Proof.
  intros [Hs1 Hg1] [Hs2 Hg2]. split; [congruence|].
  by apply stores_grow_trans with st2.
Qed.

Lemma stable_weaken top st st' : stable None st st' → stable top st st'.
Proof. intros [Hs Hg]. split; [exact Hs|by apply stores_grow_weaken]. Qed.

(** The primitive operations on the stores. *)

Lemma new_value_stable v st r st' :
  new_value v st = Ok (r, st') →
  stable None st st' ∧ r = length (heap st).
Proof.
  unfold new_value. intros [= <- <-]. split; [|reflexivity].
  repeat split; cbn; [lia|rewrite length_app; lia].
Qed.

Lemma update_value_stable r f st u st' :
  update_value r f st = Ok (u, st') → stable None st st'.
Proof.
  unfold update_value. intros [= <- <-].
  repeat split; cbn; [lia|rewrite length_alter; lia].
Qed.

Lemma new_dict_Ok d st r st' :
  new_dict d st = Ok (r, st') →
  r = length (dicts st) ∧
  st' = mk_State (scoped_values st) (dicts st ++ [d]) (heap st).
Proof. unfold new_dict. intros [= <- <-]. by split. Qed.

Lemma read_dict_Ok d st x st' :
  read_dict d st = Ok (x, st') → st' = st.
Proof. unfold read_dict. by intros [= _ <-]. Qed.

Lemma dict_setitem_stable d key v st u st' :
  dict_setitem d key v st = Ok (u, st') → stable (Some d) st st'.
Proof.
  unfold dict_setitem. intros [= <- <-].
  repeat split; cbn; [rewrite length_alter; lia|lia|].
  intros d' _ Hne. apply list_lookup_alter_ne. intros ->. by apply Hne.
Qed.

Lemma scoped_values_last_Ok st d st' :
  scoped_values_last st = Ok (d, st') →
  st' = st ∧ last (scoped_values st) = Some d.
Proof.
  unfold scoped_values_last.
  destruct (last (scoped_values st)); intros [= <- <-]; by split.
Qed.

(** Loops keep what each round keeps; [top] may depend on the scope stack,
    which the rounds leave as it is. *)
Lemma mapM_stable {A B} (topf : list ref → option ref) (f : A → M B) l :
  Forall (λ x, ∀ st y st', f x st = Ok (y, st') →
                           stable (topf (scoped_values st)) st st') l →
  ∀ st ys st', mapM f l st = Ok (ys, st') →
               stable (topf (scoped_values st)) st st'.
Proof.
  induction 1 as [|x l Hx Hl IH]; intros st ys st' Hrun.
  { apply mret_Ok in Hrun as [_ ->]. apply stable_refl. }
  cbn [mapM] in Hrun.
  apply bind_Ok in Hrun as (y & st1 & Hfx & Hrun).
  apply bind_Ok in Hrun as (ys' & st2 & Hrest & Hrun).
  apply mret_Ok in Hrun as [_ ->].
  pose proof (Hx _ _ _ Hfx) as Hst1.
  pose proof (IH _ _ _ Hrest) as Hst2.
  destruct Hst1 as [Hs1 Hg1]. rewrite Hs1 in Hst2.
  apply stable_trans with st1; [by split|exact Hst2].
Qed.

Lemma forM_stable {A} (topf : list ref → option ref) (f : A → M ()) l :
  Forall (λ x, ∀ st y st', f x st = Ok (y, st') →
                           stable (topf (scoped_values st)) st st') l →
  ∀ st u st', forM_ f l st = Ok (u, st') →
              stable (topf (scoped_values st)) st st'.
Proof.
  intros Hall st u st' Hrun. unfold forM_ in Hrun.
  apply bind_Ok in Hrun as (ys & st1 & Hmap & Hrun).
  apply mret_Ok in Hrun as [_ ->].
  by apply (mapM_stable topf f l Hall st ys).
Qed.

Lemma deserialize_value_info_proto_stable proto value st r st' :
  deserialize_value_info_proto proto value st = Ok (r, st') →
  stable None st st'.
Proof.
  unfold deserialize_value_info_proto. intros Hrun.
  apply bind_Ok in Hrun as (v & st1 & Hv & Hrun).
  assert (stable None st st1) as H1.
  { destruct value.
    - apply mret_Ok in Hv as [_ ->]. apply stable_refl.
    - by apply new_value_stable in Hv as [Hv _]. }
  apply bind_Ok in Hrun as (shape & st2 & Hs & Hrun).
  apply lift_Ok in Hs as [_ ->].
  apply bind_Ok in Hrun as (u1 & st3 & Hu1 & Hrun).
  apply update_value_stable in Hu1.
  apply bind_Ok in Hrun as (type & st4 & Ht & Hrun).
  apply lift_Ok in Ht as [_ ->].
  apply bind_Ok in Hrun as (u2 & st5 & Hu2 & Hrun).
  apply update_value_stable in Hu2.
  apply mret_Ok in Hrun as [_ ->].
  eauto using stable_trans.
Qed.

Lemma register_initializer_stable values initializer st u st' :
  register_initializer values initializer st = Ok (u, st') →
  stable (Some values) st st'.
Proof.
  unfold register_initializer. intros Hrun.
  apply bind_Ok in Hrun as (d & st1 & Hd & Hrun).
  apply read_dict_Ok in Hd as ->.
  destruct (d !! tensor_name initializer).
  - apply stable_weaken. by apply update_value_stable in Hrun.
  - apply bind_Ok in Hrun as (dtype & st2 & Hdt & Hrun).
    apply lift_Ok in Hdt as [_ ->].
    apply bind_Ok in Hrun as (v & st3 & Hv & Hrun).
    apply new_value_stable in Hv as [Hv _].
    apply dict_setitem_stable in Hrun.
    apply stable_trans with st3; [by apply stable_weaken|exact Hrun].
Qed.

Lemma register_output_stable value_info output value st u st' :
  register_output value_info output value st = Ok (u, st') →
  stable (last (scoped_values st)) st st'.
Proof.
  unfold register_output. intros Hrun.
  apply bind_Ok in Hrun as (u1 & st1 & Hu1 & Hrun).
  apply update_value_stable in Hu1.
  apply bind_Ok in Hrun as (u2 & st2 & Hu2 & Hrun).
  assert (stable None st1 st2) as H12.
  { destruct (value_info !! output).
    - apply bind_Ok in Hu2 as (r & stv & Hr & Hu2).
      apply mret_Ok in Hu2 as [_ ->].
      by apply deserialize_value_info_proto_stable in Hr.
    - apply mret_Ok in Hu2 as [_ ->]. apply stable_refl. }
  apply bind_Ok in Hrun as (innermost & st3 & Hlast & Hrun).
  apply scoped_values_last_Ok in Hlast as [-> Hlast].
  apply dict_setitem_stable in Hrun.
  assert (stable None st st2) as H02 by eauto using stable_trans.
  destruct H02 as [Hs Hg]. rewrite Hs in Hlast. rewrite Hlast.
  apply stable_trans with st2; [|exact Hrun].
  apply stable_weaken. by split.
Qed.

Lemma graph_output_stable values info st r st' :
  graph_output values info st = Ok (r, st') → stable None st st'.
Proof.
  unfold graph_output. intros Hrun.
  apply bind_Ok in Hrun as (d & st1 & Hd & Hrun).
  apply read_dict_Ok in Hd as ->.
  destruct (d !! vi_name info); [|discriminate].
  by apply deserialize_value_info_proto_stable in Hrun.
Qed.

End ScopeFacts.

Section GraphFacts.
Import Serde.
Implicit Types (st : State).

Lemma deserialize_graph_unfold name doc_string initializer input output
    value_info node :
  _deserialize_graph
    (mk_GraphProto name doc_string initializer input output value_info node)
  = (initializers ← lift (mapR (λ tensor, deserialize_tensor tensor "") initializer);
     inputs ← mapM (λ info, new_value (Value.mk (Some (vi_name info)) None None None))
                input;
     forM_ (λ '(info, value),
              deserialize_value_info_proto info (Some value);; mret ())
       (zip input inputs);;
     values ← new_dict (dict_of (zip (vi_name <$> input) inputs));
     scoped_values_append values;;
     forM_ (register_initializer values) initializers;;
     let value_info := dict_of ((λ info, (vi_name info, info)) <$> value_info) in
     nodes ← mapM (λ node, _deserialize_node node value_info) node;
     outputs ← mapM (graph_output values) output;
     scoped_values_pop;;
     mret (mk_Graph inputs outputs nodes initializers doc_string name)).
Proof. reflexivity. Qed.

Lemma deserialize_attribute_unfold name doc_string ref_attr_name type_ i f s t
    g ints floats strings tensors graphs :
  _deserialize_attribute
    (mk_AttributeProto name doc_string ref_attr_name type_ i f s t g ints
       floats strings tensors graphs)
  = if bool_decide (ref_attr_name ≠ None ∧ ref_attr_name ≠ Some "") then
      mret (RefAttr name (default "" ref_attr_name) type_ doc_string)
    else
      match type_ with
      | INT => mret (AttrInt64 name i doc_string)
      | FLOAT_ => mret (AttrFloat32 name f doc_string)
      | STRING_ => mret (AttrString name s doc_string)
      | INTS => mret (AttrInt64s name ints doc_string)
      | FLOATS => mret (AttrFloat32s name floats doc_string)
      | STRINGS => mret (AttrStrings name strings doc_string)
      | TENSOR =>
          tensor ← lift (deserialize_tensor t "");
          mret (AttrTensor name tensor doc_string)
      | GRAPH =>
          graph ← _deserialize_graph g;
          mret (AttrGraph name graph doc_string)
      | TENSORS =>
          l ← lift (mapR (λ t, deserialize_tensor t "") tensors);
          mret (AttrTensors name l doc_string)
      | GRAPHS =>
          l ← mapM _deserialize_graph graphs;
          mret (AttrGraphs name l doc_string)
      | OTHER _ => raise (ValueError "Unsupported attribute type")
      end.
Proof. reflexivity. Qed.

(** What is shown of the three functions together. *)
Definition graph_keeps_scopes (p : GraphProto) : Prop :=
  ∀ st g st', _deserialize_graph p st = Ok (g, st') → stable None st st'.

Definition node_keeps_scopes (p : NodeProto) : Prop :=
  ∀ value_info st n st',
    _deserialize_node p value_info st = Ok (n, st') →
    stable (last (scoped_values st)) st st'.

Definition attribute_keeps_scopes (p : AttributeProto) : Prop :=
  ∀ st a st', _deserialize_attribute p st = Ok (a, st') → stable None st st'.

Lemma node_keeps_scopes_step input output name op_type domain overload
    attribute metadata_props :
  Forall attribute_keeps_scopes attribute →
  node_keeps_scopes
    (mk_NodeProto input output name op_type domain overload attribute
       metadata_props).
Proof.
  intros IH value_info st n st' Hrun. rewrite deserialize_node_unfold in Hrun.
  apply bind_Ok in Hrun as (ins & st1 & Hins & Hrun).
  apply resolve_inputs_Ok in Hins as (-> & _ & _).
  apply bind_Ok in Hrun as (attrs & st2 & Hattrs & Hrun).
  apply (mapM_stable (λ _, None)) in Hattrs as H12; [|exact IH].
  apply bind_Ok in Hrun as (outs & st3 & Houts & Hrun).
  apply (mapM_stable (λ _, None)) in Houts as H23; cycle 1.
  { apply Forall_forall. intros x _ s y s' Hnew.
    by apply new_value_stable in Hnew as [Hnew _]. }
  apply bind_Ok in Hrun as (u & st4 & Hreg & Hrun).
  apply mret_Ok in Hrun as [_ ->].
  apply (forM_stable last) in Hreg as H34; cycle 1.
  { apply Forall_forall. intros [o v] _ s y s' Hr.
    by apply register_output_stable in Hr. }
  assert (stable None st st3) as H13 by eauto using stable_trans.
  destruct H13 as [Hs Hg]. rewrite Hs in H34.
  apply stable_trans with st3; [|exact H34].
  apply stable_weaken. by split.
Qed.

Lemma attribute_keeps_scopes_step name doc_string ref_attr_name type_ i f s t
    g ints floats strings tensors graphs :
  graph_keeps_scopes g → Forall graph_keeps_scopes graphs →
  attribute_keeps_scopes
    (mk_AttributeProto name doc_string ref_attr_name type_ i f s t g ints
       floats strings tensors graphs).
Proof.
  intros IHg IHgs st a st' Hrun. rewrite deserialize_attribute_unfold in Hrun.
  case_bool_decide.
  { apply mret_Ok in Hrun as [_ ->]. apply stable_refl. }
  destruct type_;
    try (apply mret_Ok in Hrun as [_ ->]; apply stable_refl);
    try discriminate.
  - apply bind_Ok in Hrun as (x & st1 & Hx & Hrun).
    apply lift_Ok in Hx as [_ ->].
    apply mret_Ok in Hrun as [_ ->]. apply stable_refl.
  - apply bind_Ok in Hrun as (x & st1 & Hx & Hrun).
    apply mret_Ok in Hrun as [_ ->]. by apply IHg in Hx.
  - apply bind_Ok in Hrun as (x & st1 & Hx & Hrun).
    apply lift_Ok in Hx as [_ ->].
    apply mret_Ok in Hrun as [_ ->]. apply stable_refl.
  - apply bind_Ok in Hrun as (x & st1 & Hx & Hrun).
    apply mret_Ok in Hrun as [_ ->].
    by apply (mapM_stable (λ _, None)) in Hx.
Qed.

Lemma scoped_values_append_Ok values st u st' :
  scoped_values_append values st = Ok (u, st') →
  st' = mk_State (scoped_values st ++ [values]) (dicts st) (heap st).
Proof. unfold scoped_values_append. by intros [= _ <-]. Qed.

Lemma scoped_values_pop_Ok st u st' :
  scoped_values_pop st = Ok (u, st') →
  st' = mk_State (removelast (scoped_values st)) (dicts st) (heap st).
Proof.
  unfold scoped_values_pop.
  destruct (scoped_values st); [discriminate|]. by intros [= _ <-].
Qed.

Lemma graph_keeps_scopes_step name doc_string initializer input output
    value_info node :
  Forall node_keeps_scopes node →
  graph_keeps_scopes
    (mk_GraphProto name doc_string initializer input output value_info node).
Proof.
  intros IH st g st' Hrun. rewrite deserialize_graph_unfold in Hrun.
  apply bind_Ok in Hrun as (initializers & st1 & Hinit & Hrun).
  apply lift_Ok in Hinit as [_ ->].
  apply bind_Ok in Hrun as (inputs & st2 & Hinputs & Hrun).
  apply (mapM_stable (λ _, None)) in Hinputs as H02; cycle 1.
  { apply Forall_forall. intros x _ s y s' Hnew.
    by apply new_value_stable in Hnew as [Hnew _]. }
  apply bind_Ok in Hrun as (u1 & st3 & Hinfo & Hrun).
  apply (forM_stable (λ _, None)) in Hinfo as H23; cycle 1.
  { apply Forall_forall. intros [info v] _ s y s' Hr.
    apply bind_Ok in Hr as (r & s1 & Hr & Hret).
    apply mret_Ok in Hret as [_ ->].
    by apply deserialize_value_info_proto_stable in Hr. }
  assert (stable None st st3) as [Hs03 (Hd03 & Hh03 & Hk03)]
    by eauto using stable_trans.
  apply bind_Ok in Hrun as (values & st4 & Hdict & Hrun).
  apply new_dict_Ok in Hdict as [-> ->].
  apply bind_Ok in Hrun as (u2 & st5 & Happ & Hrun).
  apply scoped_values_append_Ok in Happ. cbn in Happ. subst st5.
  set (values := length (dicts st3)) in *.
  set (st5 := mk_State _ _ _) in Hrun.
  apply bind_Ok in Hrun as (u3 & st6 & Hreg & Hrun).
  apply (forM_stable (λ _, Some values)) in Hreg as H56; cycle 1.
  { apply Forall_forall. intros x _ s y s' Hr.
    by apply register_initializer_stable in Hr. }
  cbv zeta in Hrun.
  apply bind_Ok in Hrun as (nodes & st7 & Hnodes & Hrun).
  apply (mapM_stable last) in Hnodes as H67; cycle 1.
  { eapply Forall_impl; [exact IH|]. intros x Hx s y s' Hr. by apply Hx in Hr. }
  assert (last (scoped_values st6) = Some values) as Hlast.
  { destruct H56 as [-> _]. cbn. apply last_snoc. }
  rewrite Hlast in H67.
  apply bind_Ok in Hrun as (outputs & st8 & Houts & Hrun).
  apply (mapM_stable (λ _, None)) in Houts as H78; cycle 1.
  { apply Forall_forall. intros x _ s y s' Hr.
    by apply graph_output_stable in Hr. }
  apply (stable_weaken (Some values)) in H78.
  assert (stable (Some values) st5 st8) as [Hs58 (Hd58 & Hh58 & Hk58)]
    by eauto using stable_trans.
  apply bind_Ok in Hrun as (u4 & st9 & Hpop & Hrun).
  apply scoped_values_pop_Ok in Hpop. subst st9.
  apply mret_Ok in Hrun as [_ ->].
  cbn in Hs58, Hd58, Hh58, Hk58. rewrite length_app in Hd58, Hk58. cbn in Hd58, Hk58.
  split; cbn.
  - rewrite Hs58, Hs03. apply removelast_last.
  - subst values. repeat split; cbn; [lia|lia|].
    intros d Hd _. rewrite Hk58.
    + rewrite lookup_app_l by lia. by apply Hk03.
    + lia.
    + intros [= ->]. lia.
Qed.

(** Deserializing a graph, a node or an attribute leaves the scope stack as
    it found it, and leaves alone every dict that existed before; a node
    writes to the innermost dict only. *)
Lemma deserialize_graph_keeps_scopes p : graph_keeps_scopes p.
Proof.
  apply (GraphProto_nested_ind graph_keeps_scopes node_keeps_scopes
           attribute_keeps_scopes);
    auto using graph_keeps_scopes_step, node_keeps_scopes_step,
      attribute_keeps_scopes_step.
Qed.

Lemma deserialize_node_keeps_scopes p : node_keeps_scopes p.
Proof.
  apply (NodeProto_nested_ind graph_keeps_scopes node_keeps_scopes
           attribute_keeps_scopes);
    auto using graph_keeps_scopes_step, node_keeps_scopes_step,
      attribute_keeps_scopes_step.
Qed.

End GraphFacts.

Section VisibilityFacts.
Import Serde.

Lemma find_in_scopes_ext ds ds' name l :
  (∀ d, d ∈ l → ds' !! d = ds !! d) →
  find_in_scopes ds' name l = find_in_scopes ds name l.
Proof.
  induction l as [|d l IH]; intros Hsame; [reflexivity|].
  cbn. rewrite (Hsame d) by apply list_elem_of_here.
  rewrite IH; [reflexivity|].
  intros d' Hd'. apply Hsame. by apply list_elem_of_further.
Qed.

(** Pushing a scope: it is searched first, the enclosing ones after it. *)
Lemma visible_push scopes inner ds hp name :
  visible (mk_State (scopes ++ [inner]) ds hp) name =
    match default ∅ (ds !! inner) !! name with
    | Some value => Some value
    | None => visible (mk_State scopes ds hp) name
    end.
Proof. unfold visible. cbn [scoped_values dicts]. by rewrite reverse_snoc. Qed.

Lemma stable_visible st st' name :
  wf_scopes st → stable None st st' → visible st' name = visible st name.
Proof.
  intros Hwf [Hs (_ & _ & Hk)]. unfold visible. rewrite Hs.
  apply find_in_scopes_ext. intros d Hd.
  apply (proj1 (elem_of_reverse _ _)) in Hd.
  apply Hk; [apply Hwf; exact Hd|discriminate].
Qed.

End VisibilityFacts.



(** Inside the subgraph, [Relu] reads the [x] of the enclosing graph (value
    0); after the subgraph, [inner_y] cannot be used. *)
Lemma nested_graph_examples :
  (match Serde.deserialize_graph Scenarios.nested_graph with
   | Ok (Serde.mk_Graph _ _
           [Serde.mk_Node _ _ _
              [Serde.AttrGraph _ (Serde.mk_Graph _ _ [relu] _ _ _) _] _ _ _ _]
           _ _ _, _) =>
       Serde.node_inputs relu = [Some 0%nat]
   | _ => False
   end) ∧
  Serde.deserialize_graph Scenarios.leaking_graph
  = Raise (ValueError
             "Input 'inner_y' of node 'add0(::Add:)' not found in any scope (current depth: 1)").
Proof. vm_compute. split; reflexivity. Qed.

(** ** The Gemm rule and the priority of the larger pattern *)

Section RuleFacts.
Import GemmToMatmulAdd.
Implicit Types (g : Pattern.Graph) (anchor : Pattern.Node) (st : MatchState).

Lemma bind_placeholder_fresh x v st :
  bindings st !! x = None →
  bind_placeholder x v st
  = Some (mk_MatchState (<[x := v]> (bindings st)) (matched st)).
Proof. intros E. unfold bind_placeholder. by rewrite E. Qed.

(** The matcher on the compiled Gemm pattern finds the chain of Scenario B
    and nothing else. *)
Lemma match_node_gemm_chain g anchor st :
  match_node g (compile reshape_gemm_reshape_pattern) anchor (mk_MatchState ∅ [])
  = Some st ↔
  ∃ a b c shape_a shape_c gemm reshape,
    reshape_gemm_reshape_chain g anchor a b c shape_a shape_c gemm reshape ∧
    st = mk_MatchState (chain_bindings a b c shape_a shape_c)
           [Pattern.node_id anchor; Pattern.node_id gemm; Pattern.node_id reshape].
Proof.
  split.
  - intros H. cbn in H.
    destruct (same_op "" "Reshape" anchor) eqn:Hop1; [|discriminate].
    cbn [andb] in H.
    destruct (Pattern.node_inputs anchor) as [|[vg|] [|[sc|] [|? ?]]] eqn:Hin1;
      try discriminate; cbn [mbind option_bind] in H.
    all: destruct (producer g vg) as [gemm|] eqn:Hp1; try discriminate;
      cbn [mbind option_bind] in H.
    all: destruct (same_op "" "Gemm" gemm) eqn:Hop2; try discriminate;
      cbn [andb] in H.
    all: destruct (Pattern.node_attributes gemm !! "alpha")
      as [[| alpha | | |]|] eqn:Hal; try discriminate.
    all: destruct (Qeq_bool 1 alpha) eqn:Hqa; try discriminate; cbn [andb] in H.
    all: destruct (Pattern.node_attributes gemm !! "beta")
      as [[| beta | | |]|] eqn:Hbe; try discriminate.
    all: destruct (Qeq_bool 1 beta) eqn:Hqb; try discriminate; cbn [andb] in H.
    all: destruct (Pattern.node_inputs gemm)
      as [|[vr|] [|[b|] [|[c|] [|? ?]]]] eqn:Hin2; try discriminate;
      cbn [mbind option_bind] in H.
    all: destruct (producer g vr) as [reshape|] eqn:Hp2; try discriminate;
      cbn [mbind option_bind] in H.
    all: destruct (same_op "" "Reshape" reshape) eqn:Hop3; try discriminate;
      cbn [andb] in H.
    all: destruct (Pattern.node_inputs reshape) as [|[a|] [|[sa|] [|? ?]]] eqn:Hin3;
      try discriminate.
    all: repeat (rewrite bind_placeholder_fresh in H
                   by (cbn [bindings]; by simplify_map_eq);
                 cbn [mbind option_bind bindings matched] in H).
    all: try discriminate.
    injection H as <-.
    exists a, b, c, sa, sc, gemm, reshape. split; [|reflexivity].
    unfold reshape_gemm_reshape_chain.
    split; [exact Hop1|]. split; [exists vg; split; assumption|].
    split; [exact Hop2|]. split; [exists alpha; split; assumption|].
    split; [exists beta; split; assumption|].
    split; [exists vr; split; assumption|].
    split; assumption.
  - intros (a & b & c & sa & sc & gemm & reshape & Hchain & ->).
    destruct Hchain as (Hop1 & (vg & Hin1 & Hp1) & Hop2 & (alpha & Hal & Hqa)
                        & (beta & Hbe & Hqb) & (vr & Hin2 & Hp2) & Hop3 & Hin3).
    cbn. rewrite Hop1, Hin1. cbn [andb mbind option_bind]. rewrite Hp1.
    cbn [mbind option_bind]. rewrite Hop2, Hal, Hqa, Hbe, Hqb, Hin2.
    cbn [andb mbind option_bind]. rewrite Hp2. cbn [mbind option_bind].
    rewrite Hop3, Hin3. cbn [andb].
    repeat (rewrite bind_placeholder_fresh
              by (cbn [bindings]; by simplify_map_eq);
            cbn [mbind option_bind bindings matched]).
    reflexivity.
Qed.

Lemma gemm_replacement_template :
  replacement_template rule
  = Ok (NodePattern "" "Add"
          [NodePattern "" "MatMul" [Var "input_a"; Var "input_b"] [];
           Var "input_c"] []).
Proof. reflexivity. Qed.

End RuleFacts.



(** Scenario B on the engine, and the attribute literals at work: with
    [alpha = 2] on the [Gemm] the graph is left as it is. *)
Lemma scenario_b_examples :
  apply_to_graph (mk_RewriteRuleSet [GemmToMatmulAdd.rule]) Scenarios.scenario_b
  = Ok (Scenarios.scenario_b_rewritten, true) ∧
  apply_to_graph (mk_RewriteRuleSet [GemmToMatmulAdd.rule])
    Scenarios.scenario_b_scaled
  = Ok (Scenarios.scenario_b_scaled, false).
Proof. vm_compute. split; reflexivity. Qed.

Section PriorityFacts.
Implicit Types (g : Pattern.Graph) (anchor : Pattern.Node) (r : RewriteRule).

(** The first rule of the list that applies at an anchor is the one used:
    the rules after it are not tried there. *)
Lemma apply_first_head r rest g anchor g' :
  try_rewrite r g anchor = Ok (Some g') →
  apply_first (r :: rest) g anchor = Ok (Some g').
Proof. intros Hr. cbn. by rewrite Hr. Qed.

Lemma apply_first_skip r rest g anchor :
  try_rewrite r g anchor = Ok None →
  apply_first (r :: rest) g anchor = apply_first rest g anchor.
Proof. intros Hr. cbn. by rewrite Hr. Qed.

End PriorityFacts.

(** In the list of rules handed to the rewriter by [optimize], the
    two-reshape rule also stands before the one-reshape rule. *)
Lemma pattern_rewrite_rules_order {ModelProto} `{Optimizer.Passes ModelProto} :
  ∃ before after,
    Optimizer.pattern_rewrite_rules
    = before
        ++ BroadcastToMatmul.two_reshapes_matmul_reshape_rule
        :: BroadcastToMatmul.one_reshape_matmul_reshape_rule :: after.
Proof.
  exists (rules Optimizer.no_op_rules),
    (GemmToMatmulAdd.rule :: rules Optimizer.cast_constant_of_shape_rules).
  reflexivity.
Qed.



(** Scenario D on the engine: one sweep yields the single [MatMul(a, b)];
    with the two rules in the other order it would keep [Reshape(b, shape_b)]
    and yield [MatMul(a, Reshape(b, shape_b))]. *)
Lemma scenario_d_examples :
  apply_to_graph BroadcastToMatmul.rules Scenarios.scenario_d
  = Ok (Scenarios.scenario_d_by_larger_rule, true) ∧
  apply_to_graph
    (mk_RewriteRuleSet
       [BroadcastToMatmul.one_reshape_matmul_reshape_rule;
        BroadcastToMatmul.two_reshapes_matmul_reshape_rule])
    Scenarios.scenario_d
  = Ok (Scenarios.scenario_d_by_smaller_rule, true) ∧
  Scenarios.scenario_d_by_larger_rule ≠ Scenarios.scenario_d_by_smaller_rule.
Proof. vm_compute. repeat split. discriminate. Qed.

(** ** Further properties *)

(** A float tensor goes through [deserialize_tensor] and [serialize_tensor]
    unchanged. *)
Lemma serialize_deserialize_tensor_witness :
  Serde.is_TensorProtoTensor
    (Serde.ProtoTensor Serde.FloatDataTensor Scenarios.float_tensor) = true ∧
  Serde.serialize_tensor
    (Serde.ProtoTensor Serde.FloatDataTensor Scenarios.float_tensor)
  = Ok Scenarios.float_tensor.
Proof.
  apply (serialize_deserialize_tensor Scenarios.float_tensor "").
  - discriminate.
  - reflexivity.
Defined.

Lemma deserialize_tensor_accepts_witness :
  Py.is_ok (Serde.deserialize_tensor Scenarios.string_tensor "") = false.
Proof.
  refine (eq_trans (deserialize_tensor_accepts Scenarios.string_tensor "" _) _).
  - discriminate.
  - reflexivity.
Defined.

Section DeserializeNodeEntry.
Import Serde.

Lemma mapM_new_value {A} (v : Value.t) (l : list A) st :
  mapM (λ _, new_value v) l st
  = Ok (seq (length (heap st)) (length l),
        mk_State (scoped_values st) (dicts st) (heap st ++ replicate (length l) v)).
Proof.
  revert st. induction l as [|x l IH]; intros st.
  - cbn. rewrite app_nil_r. by destruct st.
  - cbn [mapM]. erewrite bind_step by reflexivity.
    erewrite bind_step by apply IH. cbn. rewrite length_app. cbn.
    rewrite Nat.add_1_r, <- app_assoc. reflexivity.
Qed.

(** [deserialize_node] starts from [scoped_values = []], so registering the
    first output of the node in [scoped_values[-1]] raises [IndexError]: the
    public entry point fails on every node that has an output (shown here for
    a node without inputs and attributes). *)
Lemma deserialize_node_with_output_raises
    (output : string) (outputs : list string)
    (name op_type domain overload : string)
    (metadata_props : list (string * string)) :
  deserialize_node
    (mk_NodeProto [] (output :: outputs) name op_type domain overload []
       metadata_props)
  = Raise IndexError.
Proof.
  unfold deserialize_node. rewrite deserialize_node_unfold.
  erewrite bind_step by reflexivity. erewrite bind_step by reflexivity.
  erewrite bind_step by apply mapM_new_value.
  reflexivity.
Qed.

End DeserializeNodeEntry.

(** * Further properties of the code *)

(** ** The loop of [optimize], exactly *)

Section OptimizeLoopFacts.
Import Optimizer.
Context {ModelProto : Type} `{Passes ModelProto}.
Implicit Types (model : ModelProto) (log : list (Event ModelProto)).

Lemma iterations_of_cons_iteration osi folder i model rest :
  iterations_of (Iteration i model :: (iteration osi folder model).1 ++ rest)
  = (i, model) :: iterations_of rest.
Proof.
  destruct (iteration_events osi folder model) as (Hi & _).
  change (Iteration i model :: ?l) with ([Iteration i model] ++ l).
  by rewrite !iterations_of_app, Hi.
Qed.

(** The iterations entered by one more round of the loop. *)
Lemma iterations_of_iterations_S osi stop folder remaining i model :
  iterations_of (iterations osi stop folder (S remaining) i model).1
  = (i, model) ::
    match (iteration osi folder model).2 with
    | Ok (model', modified) =>
        if stop && negb modified then []
        else iterations_of (iterations osi stop folder remaining (S i) model').1
    | Raise _ => []
    end.
Proof.
  rewrite iterations_S.
  pose proof (iterations_of_cons_iteration osi folder i model) as Hits.
  destruct (iteration osi folder model) as [l [[model' modified]|e]];
    cbn [fst snd] in *.
  - destruct (stop && negb modified); cbn [fst].
    + by rewrite Hits.
    + by rewrite Hits.
  - specialize (Hits []). rewrite app_nil_r in Hits. by rewrite Hits.
Qed.

Lemma iterations_result_S osi stop folder remaining i model :
  (iterations osi stop folder (S remaining) i model).2
  = match (iteration osi folder model).2 with
    | Ok (model', modified) =>
        if stop && negb modified then Ok model'
        else (iterations osi stop folder remaining (S i) model').2
    | Raise e => Raise e
    end.
Proof.
  rewrite iterations_S.
  destruct (iteration osi folder model) as [l [[model' modified]|e]];
    cbn [fst snd]; [|reflexivity].
  by destruct (stop && negb modified).
Qed.

(** Consecutive iterations: the later one is entered with the model that the
    earlier one has left, and, under [stop_if_no_change], only after
    [fold_constants] has reported a modification. *)
Lemma iterations_chain osi stop folder remaining i model j k m k1 m1 :
  let its := iterations_of (iterations osi stop folder remaining i model).1 in
  its !! j = Some (k, m) → its !! S j = Some (k1, m1) →
  ∃ modified,
    (iteration osi folder m).2 = Ok (m1, modified) ∧
    (stop = true → modified = true).
Proof.
  cbv zeta. revert i model j.
  induction remaining as [|remaining IH]; intros i model j; [by cbn|].
  rewrite iterations_of_iterations_S.
  destruct j as [|j]; cbn [lookup list_lookup].
  - intros [= <- <-].
    destruct ((iteration osi folder model).2) as [[model' modified]|e];
      [|by cbn].
    destruct (stop && negb modified) eqn:Hstop; [by cbn|].
    destruct remaining as [|remaining]; [by cbn|].
    rewrite iterations_of_iterations_S. cbn [lookup list_lookup].
    intros [= <- <-]. exists modified. split; [reflexivity|].
    intros ->. by destruct modified.
  - destruct ((iteration osi folder model).2) as [[model' modified]|e];
      [|by cbn].
    destruct (stop && negb modified); [by cbn|]. apply IH.
Qed.

(** How the loop ends when fewer iterations than allowed were entered and no
    pass raised: it stopped, under [stop_if_no_change], after an iteration in
    which [fold_constants] reported no modification. *)
Lemma iterations_end_early osi stop folder remaining i model model' :
  let run := iterations osi stop folder remaining i model in
  run.2 = Ok model' →
  (length (iterations_of run.1) < remaining)%nat →
  stop = true ∧
  ∃ k m, last (iterations_of run.1) = Some (k, m) ∧
         (iteration osi folder m).2 = Ok (model', false).
Proof.
  cbv zeta. revert i model.
  induction remaining as [|remaining IH]; intros i model Hres Hlen.
  { cbn in Hlen. lia. }
  rewrite iterations_of_iterations_S in Hlen |- *.
  rewrite iterations_result_S in Hres.
  destruct ((iteration osi folder model).2) as [[model1 modified]|e] eqn:Hit;
    [|discriminate].
  destruct (stop && negb modified) eqn:Hstop.
  - injection Hres as <-. apply andb_true_iff in Hstop as [-> Hmod].
    split; [reflexivity|]. exists i, model. split; [reflexivity|].
    destruct modified; [discriminate|]. exact Hit.
  - cbn [length] in Hlen.
    destruct (IH (S i) model1 Hres ltac:(lia)) as (Hs & k & m & Hlast & Hm).
    split; [exact Hs|]. exists k, m. split; [|exact Hm].
    rewrite last_cons, Hlast. reflexivity.
Qed.

(** How the loop ends when a pass raises: in the last iteration entered. *)
Lemma iterations_raise osi stop folder remaining i model e :
  let run := iterations osi stop folder remaining i model in
  run.2 = Raise e →
  ∃ k m, last (iterations_of run.1) = Some (k, m) ∧
         (iteration osi folder m).2 = Raise e.
Proof.
  cbv zeta. revert i model.
  induction remaining as [|remaining IH]; intros i model Hres.
  { cbn in Hres. discriminate. }
  rewrite iterations_of_iterations_S. rewrite iterations_result_S in Hres.
  destruct ((iteration osi folder model).2) as [[model1 modified]|e'] eqn:Hit.
  - destruct (stop && negb modified); [discriminate|].
    destruct (IH (S i) model1 Hres) as (k & m & Hlast & Hm).
    exists k, m. split; [|exact Hm]. rewrite last_cons, Hlast. reflexivity.
  - injection Hres as ->. exists i, model. by split.
Qed.

(** The loop raises exactly when the last iteration it has entered does. *)
Lemma iterations_raise_iff osi stop folder remaining i model e :
  let run := iterations osi stop folder remaining i model in
  run.2 = Raise e ↔
  ∃ k m, last (iterations_of run.1) = Some (k, m) ∧
         (iteration osi folder m).2 = Raise e.
Proof.
  cbv zeta. split; [apply iterations_raise|].
  revert i model.
  induction remaining as [|remaining IH]; intros i model (k & m & Hlast & Hm).
  { cbn in Hlast. discriminate. }
  rewrite iterations_of_iterations_S in Hlast. rewrite iterations_result_S.
  destruct ((iteration osi folder model).2) as [[model1 modified]|e'] eqn:Hit.
  - destruct (stop && negb modified).
    + cbn in Hlast. injection Hlast as <- <-. congruence.
    + rewrite last_cons in Hlast.
      destruct (last (iterations_of
                  (iterations osi stop folder remaining (S i) model1).1))
        as [[k' m']|] eqn:Hrest.
      * injection Hlast as -> ->. apply IH. by exists k, m.
      * injection Hlast as <- <-. congruence.
  - cbn in Hlast. injection Hlast as <- <-. congruence.
Qed.

(** X1. When [optimize] returns after fewer iterations than [num_iterations]
    allows, then [stop_if_no_change] was set and [fold_constants] reported no
    modification in the last iteration entered, whose outcome is returned;
    so, without [stop_if_no_change], a run that returns has entered every one
    of the [num_iterations] iterations. *)
Theorem optimize_returns_early_only_when_unmodified
    model num_iterations osi stop_if_no_change folder faf model' :
  let run := optimize model num_iterations osi stop_if_no_change folder faf in
  run.2 = Ok model' →
  ((length (iterations_of run.1) < Z.to_nat num_iterations)%nat →
   stop_if_no_change = true ∧
   ∃ k m, last (iterations_of run.1) = Some (k, m) ∧
          (iteration osi folder m).2 = Ok (model', false)) ∧
  (stop_if_no_change = false →
   length (iterations_of run.1) = Z.to_nat num_iterations).
Proof.
  cbv zeta. rewrite optimize_iterations_of, optimize_unfold. cbn [snd].
  intros Hres.
  pose proof (iterations_end_early osi stop_if_no_change folder
                (Z.to_nat num_iterations) 0 model model' Hres) as Hearly.
  split; [exact Hearly|]. intros Hstop.
  destruct (iterations_trace osi stop_if_no_change folder
              (Z.to_nat num_iterations) 0 model) as (_ & Hlen & _).
  destruct (decide (length (iterations_of
              (iterations osi stop_if_no_change folder
                 (Z.to_nat num_iterations) 0 model).1)
            < Z.to_nat num_iterations)%nat) as [Hlt|Hge]; [|lia].
  destruct (Hearly Hlt) as [Htrue _]. congruence.
Qed.

(** X2. A further iteration is entered with the model that the iteration
    before it has left, and, with [stop_if_no_change], only after
    [fold_constants] has reported a modification in that iteration; what the
    other passes, the rewriter among them, have changed plays no part. *)
Theorem optimize_next_iteration_starts_from_previous
    model num_iterations osi stop_if_no_change folder faf j k m k1 m1 :
  let its :=
    iterations_of
      (optimize model num_iterations osi stop_if_no_change folder faf).1 in
  its !! j = Some (k, m) → its !! S j = Some (k1, m1) →
  ∃ modified,
    (iteration osi folder m).2 = Ok (m1, modified) ∧
    (stop_if_no_change = true → modified = true).
Proof.
  cbv zeta. rewrite optimize_iterations_of. apply iterations_chain.
Qed.

(** X3. [optimize] catches nothing: it raises [e] exactly when the last
    iteration it has entered raises [e]. *)
Theorem optimize_raises_iff_last_iteration_raises
    model num_iterations osi stop_if_no_change folder faf e :
  let run := optimize model num_iterations osi stop_if_no_change folder faf in
  run.2 = Raise e ↔
  ∃ k m, last (iterations_of run.1) = Some (k, m) ∧
         (iteration osi folder m).2 = Raise e.
Proof.
  cbv zeta. rewrite optimize_iterations_of, optimize_unfold. cbn [snd].
  apply iterations_raise_iff.
Qed.

(** X4. With [num_iterations] zero or negative, [optimize] hands the model
    back as it is, without entering an iteration or calling shape
    inference. *)
Theorem optimize_without_iterations
    model num_iterations osi stop_if_no_change folder faf :
  num_iterations ≤ 0 →
  let run := optimize model num_iterations osi stop_if_no_change folder faf in
  run.2 = Ok model ∧ iterations_of run.1 = [] ∧ inferred_of run.1 = [].
Proof.
  intros Hn. cbv zeta.
  rewrite optimize_iterations_of, optimize_inferred_of, optimize_unfold.
  replace (Z.to_nat num_iterations) with 0%nat by lia. by cbn.
Qed.

(** X5. The deprecated keyword [function_aware_folding] changes nothing but
    the log: the result, the iterations entered and the calls of shape
    inference are those of a run without it. *)
Theorem optimize_ignores_function_aware_folding
    model num_iterations osi stop_if_no_change folder faf :
  let run := optimize model num_iterations osi stop_if_no_change folder faf in
  let plain := optimize model num_iterations osi stop_if_no_change folder None in
  run.2 = plain.2 ∧
  iterations_of run.1 = iterations_of plain.1 ∧
  inferred_of run.1 = inferred_of plain.1 ∧
  (run.1 = plain.1 ↔ faf = None).
Proof.
  cbv zeta. rewrite !optimize_iterations_of, !optimize_inferred_of.
  rewrite !optimize_unfold. cbn [fst snd]. repeat split.
  - destruct faf; [|done]. cbn. intros Hlog.
    apply (f_equal length) in Hlog. cbn in Hlog. lia.
  - by intros ->.
Qed.

End OptimizeLoopFacts.

(** A run of two allowed iterations on a model holding one [MatMul] returns
    after the first. *)
Lemma optimize_returns_early_only_when_unmodified_witness :
  ∃ k m,
    last (Optimizer.iterations_of
            (Optimizer.optimize (H := Scenarios.toy_passes)
               ["MatMul"] 2 true true "" None).1) = Some (k, m) ∧
    (Optimizer.iteration (H := Scenarios.toy_passes) true "" m).2
    = Ok (["MatMul"], false).
Proof.
  apply (proj1 (optimize_returns_early_only_when_unmodified
                  (H := Scenarios.toy_passes)
                  ["MatMul"] 2 true true "" None ["MatMul"] eq_refl)).
  vm_compute. lia.
Defined.

(** A [Constant] is folded in iteration 0, so that iteration 1 is entered
    with the model without it. *)
Lemma optimize_next_iteration_starts_from_previous_witness :
  ∃ modified,
    (Optimizer.iteration (H := Scenarios.toy_passes) true "" ["Constant"; "MatMul"]).2
    = Ok (["MatMul"], modified) ∧
    (true = true → modified = true).
Proof.
  apply (optimize_next_iteration_starts_from_previous
           (H := Scenarios.toy_passes)
           ["Constant"; "MatMul"] 2 true true "" None 0%nat 0%nat
           ["Constant"; "MatMul"] 1%nat ["MatMul"]); reflexivity.
Defined.

(** Strict shape inference raises in iteration 0 on a model holding an
    [Unknown] node, and so does [optimize]. *)
Lemma optimize_raises_iff_last_iteration_raises_witness :
  (Optimizer.optimize (H := MoreScenarios.strict_passes)
     ["Unknown"] 2 true true "" None).2
  = Raise (ValueError "No Schema registered for Unknown").
Proof.
  apply (proj2 (optimize_raises_iff_last_iteration_raises
                  (H := MoreScenarios.strict_passes)
                  ["Unknown"] 2 true true "" None
                  (ValueError "No Schema registered for Unknown"))).
  exists 0%nat, ["Unknown"]. split; reflexivity.
Defined.

Lemma optimize_without_iterations_witness :
  (Optimizer.optimize (H := Scenarios.toy_passes)
     ["Constant"] (-1) true true "" None).2 = Ok ["Constant"].
Proof.
  apply (optimize_without_iterations (H := Scenarios.toy_passes)
           ["Constant"] (-1) true true "" None).
  lia.
Defined.

(** ** The guard of the reshape rules, case by case *)

Section GuardFacts.

Lemma list_getitem_last {A} (l : list A) y :
  list_getitem (l ++ [y]) (-1) = Ok y.
Proof.
  unfold list_getitem. rewrite length_app. cbn [length].
  change (-1 <? 0) with true. cbn match.
  replace (Z.of_nat (length l + 1) + -1) with (Z.of_nat (length l)) by lia.
  destruct (Z.ltb_spec (Z.of_nat (length l)) 0) as [?|_]; [lia|].
  destruct (Z.leb_spec (Z.of_nat (length l + 1)) (Z.of_nat (length l))) as [?|_];
    [lia|].
  cbn [orb]. rewrite Nat2Z.id.
  rewrite lookup_app_r by lia. by rewrite Nat.sub_diag.
Qed.

Lemma list_getitem_second_last {A} (l : list A) x y :
  list_getitem (l ++ [x; y]) (-2) = Ok x.
Proof.
  unfold list_getitem. rewrite length_app. cbn [length].
  change (-2 <? 0) with true. cbn match.
  replace (Z.of_nat (length l + 2) + -2) with (Z.of_nat (length l)) by lia.
  destruct (Z.ltb_spec (Z.of_nat (length l)) 0) as [?|_]; [lia|].
  destruct (Z.leb_spec (Z.of_nat (length l + 2)) (Z.of_nat (length l))) as [?|_];
    [lia|].
  cbn [orb]. rewrite Nat2Z.id.
  rewrite lookup_app_r by lia. by rewrite Nat.sub_diag.
Qed.

Lemma list_slice_to_neg {A} (l tail : list A) :
  tail ≠ [] →
  list_slice_to (l ++ tail) (- Z.of_nat (length tail)) = l.
Proof.
  intros Hne. unfold list_slice_to. rewrite length_app.
  assert (0 < length tail)%nat by (destruct tail; [done|cbn; lia]).
  destruct (Z.ltb_spec (- Z.of_nat (length tail)) 0) as [_|?]; [|lia].
  replace (Z.to_nat (Z.max 0 (Z.of_nat (length l + length tail)
                              + - Z.of_nat (length tail))))
    with (length l) by lia.
  by rewrite take_app_length.
Qed.

Lemma list_slice_to_length {A} (l : list A) (k : nat) :
  (0 < k)%nat →
  length (list_slice_to l (- Z.of_nat k)) = (length l - k)%nat.
Proof.
  intros Hk. unfold list_slice_to.
  destruct (Z.ltb_spec (- Z.of_nat k) 0) as [_|?]; [|lia].
  rewrite length_take. lia.
Qed.

Lemma zip_length {A B} (xs : list A) (ys : list B) :
  length (zip xs ys) = (length xs `min` length ys)%nat.
Proof.
  revert ys. induction xs as [|x xs IH]; intros [|y ys]; cbn; [done..|].
  by rewrite IH.
Qed.

(** The loop only prepends to the shape it starts with: one dimension for
    each pair, the pair at index 0 apart. *)
Lemma broadcast_loop_Some idx dims out r :
  broadcast_loop idx dims out = Some r →
  ∃ pre, r = pre ++ out ∧
         length pre = (if idx is O then length dims - 1 else length dims)%nat.
Proof.
  revert idx out r. induction dims as [|[da db] dims IH]; intros idx out r.
  - cbn. intros [= <-]. exists []. by destruct idx.
  - cbn [broadcast_loop].
    destruct (negb ((da =? 1) || (da =? db))); [done|].
    destruct idx as [|idx]; cbn [Nat.ltb Nat.leb].
    + intros (pre & -> & Hlen)%IH. exists pre. split; [done|]. cbn. lia.
    + intros (pre & -> & Hlen)%IH. exists (pre ++ [Z.max da db]).
      split; [by rewrite <- app_assoc|]. rewrite length_app. cbn. lia.
Qed.

Lemma broadcast_loop_head idx da db dims out r :
  broadcast_loop idx ((da, db) :: dims) out = Some r → da = 1 ∨ da = db.
Proof.
  cbn [broadcast_loop].
  destruct (Z.eqb_spec da 1) as [->|_]; [by left|].
  destruct (Z.eqb_spec da db) as [->|_]; [by right|]. done.
Qed.

Lemma list_getitem_last2 {A} (l : list A) x y :
  list_getitem (l ++ [x; y]) (-1) = Ok y.
Proof.
  change (l ++ [x; y]) with (l ++ [x] ++ [y]). rewrite app_assoc.
  apply list_getitem_last.
Qed.

Lemma list_slice_to_2 {A} (l : list A) x y :
  list_slice_to (l ++ [x; y]) (-2) = l.
Proof. by apply (list_slice_to_neg l [x; y]). Qed.

Lemma list_slice_to_1 {A} (l : list A) y :
  list_slice_to (l ++ [y]) (-1) = l.
Proof. by apply (list_slice_to_neg l [y]). Qed.

(** X6. Between inputs of at least two dimensions, the guard accepts only
    when the last dimension of [input_a] is 1 or the last but one of
    [input_b], and [shape_c] is some batch dimensions, as many as the longer
    input has, followed by the last but one dimension of [input_a] and the
    last of [input_b]. *)
Theorem check_shapes_accepts_only_matmul_shape
    (batch_a batch_b : list Z) (a2 a1 b2 b1 : Z) (shape_c : list Z) :
  check_shapes (batch_a ++ [a2; a1]) (batch_b ++ [b2; b1]) shape_c = Ok true →
  (a1 = 1 ∨ a1 = b2) ∧
  ∃ batch, shape_c = batch ++ [a2; b1] ∧
           length batch = (length batch_a `max` length batch_b)%nat.
Proof.
  unfold check_shapes, check_second_input, check_output_shape,
    broadcast_matmul_output_shape.
  rewrite !length_app. cbn [length].
  destruct (Nat.ltb_spec (length batch_a + 2) 2) as [?|_]; [lia|].
  destruct (Nat.ltb_spec (length batch_b + 2) 2) as [?|_]; [lia|].
  rewrite !list_getitem_last2, list_getitem_second_last, list_slice_to_2.
  cbn [mbind result_bind].
  change (batch_b ++ [b2; b1]) with (batch_b ++ [b2] ++ [b1]).
  rewrite (app_assoc batch_b), list_slice_to_1, !reverse_snoc.
  cbn [zip].
  destruct (broadcast_loop 0 _ [a2; b1]) as [out|] eqn:Hloop; [|done].
  pose proof (broadcast_loop_head _ _ _ _ _ _ Hloop) as Hinner.
  apply broadcast_loop_Some in Hloop as (pre & -> & Hpre).
  cbn [length] in Hpre. rewrite zip_length, !length_reverse in Hpre.
  unfold expected_output_shape. cbn [length andb].
  intros Hc. split; [exact Hinner|].
  destruct (Nat.ltb_spec (length batch_b + 2) (length batch_a + 2)) as [Hlt|Hge];
    cbn [fmap result_fmap mbind result_bind] in Hc; injection Hc as Hc;
    apply bool_decide_eq_true in Hc; subst shape_c.
  - eexists (_ ++ pre). split; [apply app_assoc|].
    rewrite length_app, list_slice_to_length;
      rewrite !length_app; cbn [length]; lia.
  - eexists (_ ++ pre). split; [apply app_assoc|].
    rewrite length_app, list_slice_to_length;
      rewrite !length_app; cbn [length]; lia.
Qed.

(** X7. Between two matrices the guard accepts exactly when the inner
    dimension of [input_a] is 1 or that of [input_b], and [shape_c] is the
    outer dimensions; an inner dimension 1 is accepted against any inner
    dimension of [input_b]. *)
Theorem check_shapes_matrices (a2 a1 b2 b1 : Z) (shape_c : list Z) :
  check_shapes [a2; a1] [b2; b1] shape_c
  = Ok (((a1 =? 1) || (a1 =? b2)) && bool_decide (shape_c = [a2; b1])).
Proof.
  unfold check_shapes, check_second_input, check_output_shape,
    broadcast_matmul_output_shape, expected_output_shape.
  cbn [length Nat.ltb Nat.leb Nat.eqb andb].
  rewrite (eq_refl : list_getitem [a2; a1] (-1) = Ok a1).
  rewrite (eq_refl : list_getitem [a2; a1] (-2) = Ok a2).
  rewrite (eq_refl : list_getitem [b2; b1] (-1) = Ok b1).
  rewrite (eq_refl : list_slice_to [a2; a1] (-2) = []).
  rewrite (eq_refl : list_slice_to [b2; b1] (-1) = [b2]).
  rewrite (eq_refl : list_slice_to [b2; b1] (- Z.of_nat 2) = []).
  cbn. by destruct ((a1 =? 1) || (a1 =? b2)).
Qed.

(** X8. A product of a vector and a matrix with matching dimensions, in
    either order, and any product of two vectors make the guard raise
    [IndexError] in place of an answer. *)
Theorem check_shapes_vector_raises (n m p k : Z) (shape_c : list Z) :
  check_shapes [n] [n; m] shape_c = Raise IndexError ∧
  check_shapes [p; n] [n] shape_c = Raise IndexError ∧
  check_shapes [n] [k] shape_c = Raise IndexError.
Proof.
  unfold check_shapes, check_second_input, check_output_shape,
    broadcast_matmul_output_shape, expected_output_shape.
  cbn [length Nat.ltb Nat.leb Nat.eqb andb app].
  split; [|split].
  - rewrite (eq_refl : list_getitem [n] (-1) = Ok n).
    rewrite (eq_refl : list_getitem [n; m] (-2) = Ok n).
    cbn [mbind result_bind]. rewrite Z.eqb_refl. cbn [negb].
    rewrite (eq_refl : list_getitem [1; n] (-1) = Ok n).
    rewrite (eq_refl : list_getitem [1; n] (-2) = Ok 1).
    rewrite (eq_refl : list_getitem [n; m] (-1) = Ok m).
    rewrite (eq_refl : list_slice_to [1; n] (-2) = []).
    rewrite (eq_refl : list_slice_to [n; m] (-1) = [n]).
    cbn. by rewrite Z.eqb_refl, orb_true_r.
  - rewrite (eq_refl : list_getitem [n] (-1) = Ok n).
    rewrite (eq_refl : list_getitem [p; n] (-1) = Ok n).
    cbn [mbind result_bind]. rewrite Z.eqb_refl. cbn [negb].
    rewrite (eq_refl : list_getitem [p; n] (-2) = Ok p).
    rewrite (eq_refl : list_getitem [n; 1] (-1) = Ok 1).
    rewrite (eq_refl : list_slice_to [p; n] (-2) = []).
    rewrite (eq_refl : list_slice_to [n; 1] (-1) = [n]).
    cbn. by rewrite Z.eqb_refl, orb_true_r.
  - reflexivity.
Qed.

Lemma list_split_last_two {A} (l : list A) :
  (2 ≤ length l)%nat → ∃ batch x y, l = batch ++ [x; y].
Proof.
  intros Hlen.
  destruct (decide (l = [])) as [->|Hne]; [cbn in Hlen; lia|].
  destruct (exists_last Hne) as (l' & y & ->).
  rewrite length_app in Hlen. cbn in Hlen.
  destruct (decide (l' = [])) as [->|Hne']; [cbn in Hlen; lia|].
  destruct (exists_last Hne') as (batch & x & ->).
  exists batch, x, y. by rewrite <- app_assoc.
Qed.

Lemma list_getitem_Raise {A} (l : list A) i e :
  list_getitem l i = Raise e → e = IndexError.
Proof.
  unfold list_getitem. destruct (_ || _); [congruence|].
  destruct (l !! _); congruence.
Qed.

Lemma list_pop_Raise {A} (l : list A) i e :
  list_pop l i = Raise e → e = IndexError.
Proof. unfold list_pop. destruct (_ || _); congruence. Qed.

End GuardFacts.

(** The shapes of a batched product: [2, 3, 4] by [4, 5] gives [2, 3, 5]. *)
Lemma check_shapes_accepts_only_matmul_shape_witness :
  (4 = 1 ∨ 4 = 4) ∧
  ∃ batch, [2; 3; 5] = batch ++ [3; 5] ∧ length batch = 1%nat.
Proof.
  apply (check_shapes_accepts_only_matmul_shape [2] [] 3 4 4 5 [2; 3; 5]).
  reflexivity.
Defined.

(** ** The guard on shapes with symbolic dimensions *)

Section SymbolicGuardFacts.
Import SymbolicShapes.

Lemma max_Raise a b e :
  max a b = Raise e →
  (∃ msg, e = TypeError msg) ∧ ¬ (is_int a ∧ is_int b) .
Proof.
  unfold max, gt.
  destruct a, b; cbn [mbind result_bind]; try discriminate;
    intros [= <-]; (split; [by eexists|]); cbn; tauto.
Qed.

Lemma max_Ok a b :
  (a = DInt 1 ∨ a = b) → is_int b → ∃ dim, max a b = Ok dim.
Proof.
  intros Hin Hb. destruct b as [y| |]; try done.
  destruct Hin as [->| ->]; by eexists.
Qed.

(** The loop raises only at a pair that is not the first one taken. *)
Lemma sym_broadcast_loop_Raise idx dims out e :
  broadcast_loop idx dims out = Raise e →
  (∃ msg, e = TypeError msg) ∧
  ∃ i a b, dims !! i = Some (a, b) ∧ (0 < idx + i)%nat ∧ ¬ is_int b.
Proof.
  revert idx out. induction dims as [|[a b] dims IH]; intros idx out; [done|].
  cbn [broadcast_loop].
  destruct (negb _) eqn:Hpass; [done|].
  apply negb_false_iff, orb_true_iff in Hpass.
  destruct idx as [|idx]; cbn [Nat.ltb Nat.leb].
  - intros (Hmsg & i & a' & b' & Hi & Hpos & Hb)%IH. split; [done|].
    exists (S i), a', b'. split; [done|]. split; [lia|done].
  - destruct (max a b) as [dim|e'] eqn:Hmax; cbn [mbind result_bind].
    + intros (Hmsg & i & a' & b' & Hi & Hpos & Hb)%IH. split; [done|].
      exists (S i), a', b'. split; [done|]. split; [lia|done].
    + intros [= <-]. destruct (max_Raise _ _ _ Hmax) as [Hmsg Hnot].
      split; [done|]. exists 0%nat, a, b. split; [done|]. split; [lia|].
      intros Hb. apply Hnot. split; [|done].
      destruct Hpass as [Ha%bool_decide_eq_true|Ha%bool_decide_eq_true];
        by subst.
Qed.

Lemma sym_broadcast_loop_Ok idx dims out :
  Forall is_int dims.*2 → ∃ r, broadcast_loop idx dims out = Ok r.
Proof.
  revert idx out. induction dims as [|[a b] dims IH]; intros idx out Hint.
  { by eexists. }
  apply Forall_cons in Hint as [Hb Hint]. cbn [broadcast_loop].
  destruct (negb _) eqn:Hpass; [by eexists|].
  apply negb_false_iff, orb_true_iff in Hpass.
  destruct (0 <? idx)%nat; [|by apply IH].
  destruct (max_Ok a b) as [dim ->]; [|done|by apply IH].
  destruct Hpass as [Ha%bool_decide_eq_true|Ha%bool_decide_eq_true]; auto.
Qed.

Lemma zip_snd_Forall {A B} (P : B → Prop) (xs : list A) (ys : list B) :
  Forall P ys → Forall P (zip xs ys).*2.
Proof.
  intros Hys. revert xs. induction Hys as [|y ys Hy _ IH]; intros [|x xs];
    cbn; try constructor; auto.
Qed.

(** Between inputs of at least two dimensions the guard is the loop, and
    a comparison of what the loop returns. *)
Lemma sym_check_shapes_loop (batch_a batch_b : list Dim) (a2 a1 b2 b1 : Dim) c :
  ∃ f : option (list Dim) → bool,
    check_shapes (batch_a ++ [a2; a1]) (batch_b ++ [b2; b1]) c
    = f <$> broadcast_loop 0
              ((a1, b2) :: zip (reverse batch_a) (reverse batch_b)) [a2; b1].
Proof.
  unfold check_shapes, check_second_input, check_output_shape,
    broadcast_matmul_output_shape.
  rewrite !length_app. cbn [length].
  destruct (Nat.ltb_spec (length batch_a + 2) 2) as [?|_]; [lia|].
  destruct (Nat.ltb_spec (length batch_b + 2) 2) as [?|_]; [lia|].
  rewrite !list_getitem_last2, list_getitem_second_last.
  cbn [mbind result_bind].
  rewrite list_slice_to_2.
  replace (list_slice_to (batch_b ++ [b2; b1]) (-1)) with (batch_b ++ [b2]).
  2:{ change (batch_b ++ [b2; b1]) with (batch_b ++ [b2] ++ [b1]).
      rewrite app_assoc. by rewrite list_slice_to_1. }
  rewrite !reverse_app. cbn [reverse rev_append app zip].
  change (rev_append batch_a []) with (reverse batch_a).
  change (rev_append batch_b []) with (reverse batch_b).
  unfold expected_output_shape. cbn [andb].
  exists (λ r, match r with
               | None => false
               | Some out =>
                   bool_decide
                     (DInt <$> c =
                      (if (length batch_b + 2 <? length batch_a + 2)%nat
                       then list_slice_to (batch_a ++ [a2; a1])
                              (- Z.of_nat (length (batch_b ++ [b2; b1])))
                       else list_slice_to (batch_b ++ [b2; b1])
                              (- Z.of_nat (length (batch_a ++ [a2; a1]))))
                      ++ out)
               end).
  destruct (broadcast_loop 0 _ [a2; b1]) as [[out|]|e];
    cbn [mbind result_bind fmap result_fmap]; [|reflexivity..].
  destruct (_ <? _)%nat; cbn [fmap result_fmap mbind result_bind];
    reflexivity.
Qed.

Lemma result_fmap_Raise {A B} (f : A → B) (r : Result A) e :
  f <$> r = Raise e → r = Raise e.
Proof. destruct r; [discriminate|]. by intros [= ->]. Qed.

Lemma sym_check_shapes_two_Raise
    (batch_a batch_b : list Dim) (a2 a1 b2 b1 : Dim) c e :
  check_shapes (batch_a ++ [a2; a1]) (batch_b ++ [b2; b1]) c = Raise e →
  (∃ msg, e = TypeError msg) ∧ batch_a ≠ [] ∧ batch_b ≠ [].
Proof.
  destruct (sym_check_shapes_loop batch_a batch_b a2 a1 b2 b1 c) as [f ->].
  intros Hloop%result_fmap_Raise.
  apply sym_broadcast_loop_Raise in Hloop
    as (Hmsg & i & a & b & Hi & Hpos & _).
  split; [exact Hmsg|].
  destruct i as [|i]; [lia|]. cbn in Hi.
  apply lookup_lt_Some in Hi. rewrite zip_length, !length_reverse in Hi.
  split; intros ->; cbn in Hi; lia.
Qed.

Lemma sym_check_shapes_two_Ok
    (batch_a batch_b : list Dim) (a2 a1 b2 b1 : Dim) c :
  Forall is_int batch_b →
  ∃ r, check_shapes (batch_a ++ [a2; a1]) (batch_b ++ [b2; b1]) c = Ok r.
Proof.
  intros Hint.
  destruct (sym_check_shapes_loop batch_a batch_b a2 a1 b2 b1 c) as [f ->].
  cbn [broadcast_loop Nat.ltb Nat.leb].
  destruct (negb _); [by eexists|].
  destruct (sym_broadcast_loop_Ok 1 (zip (reverse batch_a) (reverse batch_b))
              [a2; b1]) as [r ->]; [|by eexists].
  apply zip_snd_Forall. by apply Forall_reverse.
Qed.

Lemma sym_check_output_shape_Raise a b dim_a dim_b mimic c e :
  check_output_shape a b dim_a dim_b mimic c = Raise e →
  e = IndexError ∨
  ((∃ msg, e = TypeError msg) ∧ (3 ≤ length a)%nat ∧ (3 ≤ length b)%nat).
Proof.
  unfold check_output_shape, broadcast_matmul_output_shape.
  destruct (list_getitem a (-1)) as [a_last|e1] eqn:H1; cbn [mbind result_bind];
    [|intros [= <-]; left; by eapply list_getitem_Raise].
  destruct (list_getitem a (-2)) as [a_second_last|e2] eqn:H2;
    cbn [mbind result_bind];
    [|intros [= <-]; left; by eapply list_getitem_Raise].
  destruct (list_getitem b (-1)) as [b_last|e3] eqn:H3;
    cbn [mbind result_bind];
    [|intros [= <-]; left; by eapply list_getitem_Raise].
  destruct (broadcast_loop _ _ _) as [[out|]|e'] eqn:Hloop;
    cbn [mbind result_bind].
  - unfold expected_output_shape.
    destruct (_ <? _)%nat.
    + destruct (mimic && (dim_a =? 2)%nat); [|done].
      destruct (list_pop _ _) as [out'|e4] eqn:H4; cbn; [done|].
      intros [= <-]. left. by eapply list_pop_Raise.
    + destruct (mimic && (dim_a =? 2)%nat); [|done].
      destruct (list_pop _ _) as [out'|e4] eqn:H4; cbn; [done|].
      intros [= <-]. left. by eapply list_pop_Raise.
  - done.
  - intros [= <-]. right.
    apply sym_broadcast_loop_Raise in Hloop
      as (Hmsg & i & x & y & Hi & Hpos & _).
    split; [exact Hmsg|].
    apply lookup_lt_Some in Hi.
    rewrite zip_length, !length_reverse, length_app in Hi. cbn [length] in Hi.
    change (-2) with (- Z.of_nat 2) in Hi.
    change (-1) with (- Z.of_nat 1) in Hi.
    rewrite !list_slice_to_length in Hi by lia. lia.
Qed.

Lemma sym_check_second_input_Raise a b dim_a mimic c e :
  check_second_input a b dim_a (length b) mimic c = Raise e →
  e = IndexError ∨
  ((∃ msg, e = TypeError msg) ∧ (3 ≤ length a)%nat ∧ (3 ≤ length b)%nat).
Proof.
  unfold check_second_input.
  destruct (Nat.ltb_spec (length b) 2) as [Hb|_];
    [|apply sym_check_output_shape_Raise].
  destruct (list_getitem b (-1)) as [b_last|e1] eqn:H1;
    cbn [mbind result_bind];
    [|intros [= <-]; left; by eapply list_getitem_Raise].
  destruct (list_getitem a (-1)) as [a_last|e2] eqn:H2;
    cbn [mbind result_bind];
    [|intros [= <-]; left; by eapply list_getitem_Raise].
  destruct (negb _); [done|].
  intros [?|(_ & _ & Hlen)]%sym_check_output_shape_Raise; [by left|].
  rewrite length_app in Hlen. cbn in Hlen. lia.
Qed.

Lemma sym_check_shapes_Raise a b c e :
  check_shapes a b c = Raise e →
  e = IndexError ∨
  ((∃ msg, e = TypeError msg) ∧ (3 ≤ length a)%nat ∧ (3 ≤ length b)%nat).
Proof.
  unfold check_shapes.
  destruct (Nat.ltb_spec (length a) 2) as [Ha|_];
    [|apply sym_check_second_input_Raise].
  destruct (list_getitem a (-1)) as [a_last|e1] eqn:H1;
    cbn [mbind result_bind];
    [|intros [= <-]; left; by eapply list_getitem_Raise].
  destruct (list_getitem b (-2)) as [b2|e2] eqn:H2;
    cbn [mbind result_bind];
    [|intros [= <-]; left; by eapply list_getitem_Raise].
  destruct (negb _); [done|].
  intros [?|(_ & Hlen & _)]%sym_check_second_input_Raise; [by left|].
  cbn in Hlen. lia.
Qed.

(** X9. Between inputs of at least two dimensions the guard raises nothing
    but [TypeError], which takes three dimensions on both sides and a batch
    dimension of [input_b] that is not an integer; it answers when the batch
    dimensions of [input_b] are integers.  It does raise [TypeError] on a
    batch dimension [1] of [input_a] that meets a symbolic one of
    [input_b]. *)
Theorem check_shapes_returns_from_two_dimensions
    (input_a_shape input_b_shape : list Dim) (shape_c : list Z) :
  (2 ≤ length input_a_shape)%nat → (2 ≤ length input_b_shape)%nat →
  (Forall is_int (list_slice_to input_b_shape (-2)) →
   ∃ r, check_shapes input_a_shape input_b_shape shape_c = Ok r) ∧
  (∀ e, check_shapes input_a_shape input_b_shape shape_c = Raise e →
        (∃ msg, e = TypeError msg) ∧
        (3 ≤ length input_a_shape)%nat ∧ (3 ≤ length input_b_shape)%nat ∧
        ¬ Forall is_int (list_slice_to input_b_shape (-2))) ∧
  (∀ name a2 a1 b2 b1,
     input_a_shape = [DInt 1; a2; a1] →
     input_b_shape = [DSym name; b2; b1] →
     a1 = DInt 1 ∨ a1 = b2 →
     check_shapes input_a_shape input_b_shape shape_c
     = Raise (TypeError
                "'>' not supported between instances of 'str' and 'int'")).
Proof.
  intros (batch_a & a2 & a1 & ->)%list_split_last_two
         (batch_b & b2 & b1 & ->)%list_split_last_two.
  rewrite list_slice_to_2.
  split; [apply sym_check_shapes_two_Ok|]. split.
  - intros e Hraise.
    destruct (sym_check_shapes_two_Raise _ _ _ _ _ _ _ _ Hraise)
      as (Hmsg & Ha & Hb).
    split; [exact Hmsg|]. rewrite !length_app. cbn [length].
    split; [destruct batch_a; [done|cbn; lia]|].
    split; [destruct batch_b; [done|cbn; lia]|].
    intros Hint.
    destruct (sym_check_shapes_two_Ok batch_a batch_b a2 a1 b2 b1 shape_c Hint)
      as [r Hr].
    congruence.
  - intros name a2' a1' b2' b1' Ha Hb Hpass.
    rewrite Ha, Hb.
    destruct (sym_check_shapes_loop [DInt 1] [DSym name] a2' a1' b2' b1' shape_c)
      as [f Hf].
    change ([DInt 1] ++ [a2'; a1']) with [DInt 1; a2'; a1'] in Hf.
    change ([DSym name] ++ [b2'; b1']) with [DSym name; b2'; b1'] in Hf.
    rewrite Hf. cbn [reverse rev_append zip broadcast_loop Nat.ltb Nat.leb].
    replace (bool_decide (a1' = DInt 1) || bool_decide (a1' = b2')) with true.
    2:{ symmetry. apply orb_true_iff.
        destruct Hpass as [->| ->]; [left|right]; by apply bool_decide_eq_true. }
    reflexivity.
Qed.

(** X10. The guard raises in three cases only: [KeyError] for the first
    placeholder among [input_a], [input_b] and [shape_c], in that order,
    that the binding lacks; [IndexError] when the three are bound, both
    shapes are known and one of them has fewer than two dimensions; and
    [TypeError] when the three are bound and both shapes have three
    dimensions or more, with a batch dimension of [input_b] that is not an
    integer. *)
Theorem check_if_need_reshape_raises
    (match_bindings : gmap string Value) (e : Exn) :
  check_if_need_reshape match_bindings = Raise e →
  (match_bindings !! "input_a" = None ∧ e = KeyError "input_a") ∨
  (is_Some (match_bindings !! "input_a") ∧
   match_bindings !! "input_b" = None ∧ e = KeyError "input_b") ∨
  (is_Some (match_bindings !! "input_a") ∧
   is_Some (match_bindings !! "input_b") ∧
   match_bindings !! "shape_c" = None ∧ e = KeyError "shape_c") ∨
  (∃ input_a input_b input_a_shape input_b_shape,
     match_bindings !! "input_a" = Some input_a ∧
     match_bindings !! "input_b" = Some input_b ∧
     is_Some (match_bindings !! "shape_c") ∧
     shape input_a = Some input_a_shape ∧
     shape input_b = Some input_b_shape ∧
     ((e = IndexError ∧
       (length input_a_shape < 2 ∨ length input_b_shape < 2)%nat) ∨
      ((∃ msg, e = TypeError msg) ∧
       (3 ≤ length input_a_shape)%nat ∧ (3 ≤ length input_b_shape)%nat ∧
       ¬ Forall is_int (list_slice_to input_b_shape (-2))))).
Proof.
  unfold check_if_need_reshape, dict_getitem.
  destruct (match_bindings !! "input_a") as [input_a|] eqn:Ha;
    cbn [mbind result_bind].
  2:{ intros [= <-]. by left. }
  destruct (match_bindings !! "input_b") as [input_b|] eqn:Hb;
    cbn [mbind result_bind].
  2:{ intros [= <-]. right. left. by split. }
  destruct (match_bindings !! "shape_c") as [shape_c|] eqn:Hc;
    cbn [mbind result_bind].
  2:{ intros [= <-]. right. right. left. by repeat split. }
  destruct (value_as_np_array shape_c) as [[arr|?]|]; [|done..].
  destruct (negb _); [done|].
  destruct (shape input_a) as [input_a_shape|] eqn:Hsa; [|done].
  destruct (shape input_b) as [input_b_shape|] eqn:Hsb; [|done].
  intros Hraise. right. right. right.
  exists input_a, input_b, input_a_shape, input_b_shape.
  do 5 (split; [done|]).
  destruct (decide (length input_a_shape < 2 ∨ length input_b_shape < 2)%nat)
    as [Hshort|Hlong].
  - left. split; [|exact Hshort].
    apply sym_check_shapes_Raise in Hraise as [?|(_ & ? & ?)]; [done|lia].
  - right.
    destruct (list_split_last_two input_a_shape) as (ba & a2 & a1 & ->); [lia|].
    destruct (list_split_last_two input_b_shape) as (bb & b2 & b1 & ->); [lia|].
    destruct (sym_check_shapes_two_Raise _ _ _ _ _ _ _ _ Hraise)
      as (Hmsg & Hba & Hbb).
    split; [exact Hmsg|]. rewrite !length_app. cbn [length].
    split; [destruct ba; [done|cbn; lia]|].
    split; [destruct bb; [done|cbn; lia]|].
    rewrite list_slice_to_2. intros Hint.
    destruct (sym_check_shapes_two_Ok ba bb a2 a1 b2 b1 (nd_tolist arr) Hint)
      as [r Hr].
    congruence.
Qed.

Lemma list_getitem_fmap {A B} (f : A → B) (l : list A) i :
  list_getitem (f <$> l) i = f <$> list_getitem l i.
Proof.
  unfold list_getitem. rewrite length_fmap.
  destruct (_ || _); [reflexivity|].
  rewrite list_lookup_fmap. by destruct (l !! _).
Qed.

Lemma list_slice_to_fmap {A B} (f : A → B) (l : list A) i :
  list_slice_to (f <$> l) i = f <$> list_slice_to l i.
Proof. unfold list_slice_to. by rewrite length_fmap, fmap_take. Qed.

Lemma list_pop_fmap {A B} (f : A → B) (l : list A) i :
  list_pop (f <$> l) i = fmap (M := list) f <$> list_pop l i.
Proof.
  unfold list_pop. rewrite length_fmap.
  destruct (_ || _); [reflexivity|].
  cbn [fmap result_fmap]. f_equal.
  generalize (Z.to_nat (if i <? 0 then Z.of_nat (length l) + i else i)).
  intros n. revert n. induction l as [|x l IH]; intros [|n]; cbn; try done.
  f_equal. apply IH.
Qed.

Lemma zip_fmap {A B A' B'} (f : A → A') (g : B → B') xs ys :
  zip (f <$> xs) (g <$> ys) = prod_map f g <$> zip xs ys.
Proof.
  revert ys. induction xs as [|x xs IH]; intros [|y ys]; cbn; try done.
  f_equal. apply IH.
Qed.

#[local] Instance DInt_inj : Inj (=) (=) DInt.
Proof. by intros a b [= ->]. Qed.

Lemma max_integers (a b : Z) : max (DInt a) (DInt b) = Ok (DInt (Z.max a b)).
Proof.
  unfold max, gt. cbn [mbind result_bind].
  destruct (Z.ltb_spec a b); do 2 f_equal; lia.
Qed.

Lemma broadcast_loop_integers idx (dims : list (Z * Z)) (out : list Z) :
  broadcast_loop idx (prod_map DInt DInt <$> dims) (DInt <$> out)
  = Ok (fmap (M := list) DInt
          <$> BroadcastToMatmulGuard.broadcast_loop idx dims out).
Proof.
  revert idx out. induction dims as [|[a b] dims IH]; intros idx out;
    [reflexivity|].
  rewrite fmap_cons.
  cbn [broadcast_loop BroadcastToMatmulGuard.broadcast_loop prod_map fst snd].
  replace (bool_decide (DInt a = DInt 1)) with (a =? 1).
  2:{ destruct (Z.eqb_spec a 1) as [->|Hne]; symmetry;
        [by apply bool_decide_eq_true|apply bool_decide_eq_false; congruence]. }
  replace (bool_decide (DInt a = DInt b)) with (a =? b).
  2:{ destruct (Z.eqb_spec a b) as [->|Hne]; symmetry;
        [by apply bool_decide_eq_true|apply bool_decide_eq_false; congruence]. }
  destruct (negb _); [reflexivity|].
  destruct (0 <? idx)%nat; [|apply IH].
  rewrite max_integers. cbn [mbind result_bind].
  apply (IH (S idx) (Z.max a b :: out)).
Qed.

Lemma expected_output_shape_integers (a b : list Z) dim_a dim_b mimic out :
  expected_output_shape (DInt <$> a) (DInt <$> b) dim_a dim_b mimic
    (DInt <$> out)
  = fmap (M := list) DInt
      <$> BroadcastToMatmulGuard.expected_output_shape a b dim_a dim_b mimic out.
Proof.
  unfold expected_output_shape, BroadcastToMatmulGuard.expected_output_shape.
  destruct (dim_b <? dim_a)%nat;
    rewrite length_fmap, list_slice_to_fmap, <- fmap_app;
    destruct (mimic && (dim_b =? 2)%nat);
    rewrite ?list_slice_to_fmap;
    destruct (mimic && (dim_a =? 2)%nat);
    by rewrite ?list_pop_fmap.
Qed.

Lemma check_output_shape_integers (a b : list Z) dim_a dim_b mimic c :
  check_output_shape (DInt <$> a) (DInt <$> b) dim_a dim_b mimic c
  = BroadcastToMatmulGuard.check_output_shape a b dim_a dim_b mimic c.
Proof.
  unfold check_output_shape, BroadcastToMatmulGuard.check_output_shape,
    broadcast_matmul_output_shape,
    BroadcastToMatmulGuard.broadcast_matmul_output_shape.
  rewrite !list_getitem_fmap.
  destruct (list_getitem a (-1)) as [a_last|e]; [|reflexivity].
  destruct (list_getitem a (-2)) as [a_second_last|e]; [|reflexivity].
  destruct (list_getitem b (-1)) as [b_last|e]; [|reflexivity].
  cbn [fmap result_fmap mbind result_bind].
  rewrite !list_slice_to_fmap.
  change [DInt a_last] with (DInt <$> [a_last]).
  rewrite <- fmap_app, <- !fmap_reverse, zip_fmap.
  change [DInt a_second_last; DInt b_last]
    with (DInt <$> [a_second_last; b_last]).
  rewrite broadcast_loop_integers. cbn [mbind result_bind].
  destruct (BroadcastToMatmulGuard.broadcast_loop _ _ _) as [out|];
    cbn [fmap option_fmap option_map]; [|reflexivity].
  rewrite expected_output_shape_integers.
  destruct (BroadcastToMatmulGuard.expected_output_shape _ _ _ _ _ _)
    as [out'|e]; cbn [fmap result_fmap mbind result_bind]; [|reflexivity].
  f_equal. apply bool_decide_ext. split; [|by intros ->].
  apply (inj (fmap DInt)).
Qed.

Lemma check_shapes_integers (a b c : list Z) :
  check_shapes (DInt <$> a) (DInt <$> b) c
  = BroadcastToMatmulGuard.check_shapes a b c.
Proof.
  assert (∀ a' dim_a mimic,
            check_second_input (DInt <$> a') (DInt <$> b) dim_a (length b) mimic c
            = BroadcastToMatmulGuard.check_second_input a' b dim_a (length b)
                mimic c) as Hsecond.
  { intros a' dim_a mimic.
    unfold check_second_input, BroadcastToMatmulGuard.check_second_input.
    destruct (length b <? 2)%nat; [|apply check_output_shape_integers].
    rewrite !list_getitem_fmap.
    destruct (list_getitem b (-1)) as [b_last|e]; [|reflexivity].
    destruct (list_getitem a' (-1)) as [a_last|e]; [|reflexivity].
    cbn [fmap result_fmap mbind result_bind].
    replace (bool_decide (DInt b_last = DInt a_last)) with (b_last =? a_last).
    2:{ destruct (Z.eqb_spec b_last a_last) as [->|Hne]; symmetry;
          [by apply bool_decide_eq_true
          |apply bool_decide_eq_false; congruence]. }
    destruct (negb _); [reflexivity|].
    change [DInt 1] with (DInt <$> [1]).
    rewrite <- fmap_app, length_fmap.
    apply check_output_shape_integers. }
  unfold check_shapes, BroadcastToMatmulGuard.check_shapes.
  rewrite !length_fmap.
  destruct (length a <? 2)%nat; [|apply Hsecond].
  rewrite !list_getitem_fmap.
  destruct (list_getitem a (-1)) as [a_last|e]; [|reflexivity].
  destruct (list_getitem b (-2)) as [b2|e]; [|reflexivity].
  cbn [fmap result_fmap mbind result_bind].
  replace (bool_decide (DInt a_last = DInt b2)) with (a_last =? b2).
  2:{ destruct (Z.eqb_spec a_last b2) as [->|Hne]; symmetry;
        [by apply bool_decide_eq_true|apply bool_decide_eq_false; congruence]. }
  destruct (negb _); [reflexivity|].
  change (DInt 1 :: (DInt <$> a)) with (DInt <$> (1 :: a)).
  rewrite length_fmap. apply Hsecond.
Qed.

(** X30. On bindings all of whose dimensions are integers, the guard on
    symbolic shapes is the guard on integer shapes: it returns the same
    answer and raises the same exception. *)
Theorem check_if_need_reshape_on_integers
    (match_bindings : gmap string LegacyIR.Value) :
  check_if_need_reshape (of_integers <$> match_bindings)
  = BroadcastToMatmulGuard.check_if_need_reshape match_bindings.
Proof.
  unfold check_if_need_reshape, BroadcastToMatmulGuard.check_if_need_reshape,
    dict_getitem.
  rewrite !lookup_fmap.
  destruct (match_bindings !! "input_a") as [input_a|]; [|reflexivity].
  destruct (match_bindings !! "input_b") as [input_b|]; [|reflexivity].
  destruct (match_bindings !! "shape_c") as [shape_c|]; [|reflexivity].
  cbn [fmap option_fmap option_map mbind result_bind of_integers shape
       value_as_np_array].
  destruct (LegacyIR.value_as_np_array shape_c) as [[arr|?]|]; [|reflexivity..].
  destruct (negb _); [reflexivity|].
  destruct (LegacyIR.shape input_a) as [input_a_shape|]; [|reflexivity].
  destruct (LegacyIR.shape input_b) as [input_b_shape|]; [|reflexivity].
  apply check_shapes_integers.
Qed.

End SymbolicGuardFacts.

(** A batch of one against a batch named [B]. *)
Lemma check_shapes_returns_from_two_dimensions_witness :
  SymbolicShapes.check_shapes
    [SymbolicShapes.DInt 1; SymbolicShapes.DInt 3; SymbolicShapes.DInt 4]
    [SymbolicShapes.DSym "B"; SymbolicShapes.DInt 4; SymbolicShapes.DInt 5]
    [1; 3; 5]
  = Raise (TypeError "'>' not supported between instances of 'str' and 'int'").
Proof.
  refine (proj2 (proj2 (check_shapes_returns_from_two_dimensions
                          [SymbolicShapes.DInt 1; SymbolicShapes.DInt 3;
                           SymbolicShapes.DInt 4]
                          [SymbolicShapes.DSym "B"; SymbolicShapes.DInt 4;
                           SymbolicShapes.DInt 5]
                          [1; 3; 5] _ _))
            "B" (SymbolicShapes.DInt 3) (SymbolicShapes.DInt 4)
            (SymbolicShapes.DInt 4) (SymbolicShapes.DInt 5)
            eq_refl eq_refl (or_intror eq_refl)).
  - cbn. lia.
  - cbn. lia.
Defined.

(** With [input_a] bound and nothing else, the placeholder reported is
    [input_b], the first one that is looked up and missing. *)
Lemma check_if_need_reshape_raises_witness :
  let match_bindings : gmap string SymbolicShapes.Value :=
    {["input_a" := SymbolicShapes.mk_Value (Some [SymbolicShapes.DInt 4]) None]} in
  let e := KeyError "input_b" in
  (match_bindings !! "input_a" = None ∧ e = KeyError "input_a") ∨
  (is_Some (match_bindings !! "input_a") ∧
   match_bindings !! "input_b" = None ∧ e = KeyError "input_b") ∨
  (is_Some (match_bindings !! "input_a") ∧
   is_Some (match_bindings !! "input_b") ∧
   match_bindings !! "shape_c" = None ∧ e = KeyError "shape_c") ∨
  (∃ input_a input_b input_a_shape input_b_shape,
     match_bindings !! "input_a" = Some input_a ∧
     match_bindings !! "input_b" = Some input_b ∧
     is_Some (match_bindings !! "shape_c") ∧
     SymbolicShapes.shape input_a = Some input_a_shape ∧
     SymbolicShapes.shape input_b = Some input_b_shape ∧
     ((e = IndexError ∧
       (length input_a_shape < 2 ∨ length input_b_shape < 2)%nat) ∨
      ((∃ msg, e = TypeError msg) ∧
       (3 ≤ length input_a_shape)%nat ∧ (3 ≤ length input_b_shape)%nat ∧
       ¬ Forall SymbolicShapes.is_int (list_slice_to input_b_shape (-2))))).
Proof.
  intros match_bindings e.
  apply (check_if_need_reshape_raises match_bindings e). reflexivity.
Defined.

(** ** Values, types and shapes: there and back *)

Section SerializeFacts.
Import Serde Serialize.

Lemma DataType_of_value (d : DataType) : DataType_of (DataType_value d) = Ok d.
Proof. by destruct d. Qed.

Lemma truthy_kept (d : option string) :
  kept d → (if truthy d then d else None) = d.
Proof.
  unfold kept, truthy. destruct d as [s|]; [|done].
  destruct (bool_decide_reflect (s = "")) as [->|_]; [|done].
  intros Hne. by destruct Hne.
Qed.

Lemma truthy_not_kept (d : option string) :
  ¬ kept d → (if truthy d then d else None) = None.
Proof.
  unfold kept, truthy. destruct d as [s|]; [|done].
  destruct (bool_decide_reflect (s = "")) as [->|Hne]; [done|].
  intros Hk. destruct Hk. congruence.
Qed.

Lemma set_int64_Ok (n : Z) : int64 n = true → set_int64 n = Ok n.
Proof. unfold set_int64. by intros ->. Qed.

Lemma set_int64_Raise (n : Z) :
  int64 n = false →
  set_int64 n = Raise (ValueError ("Value out of range: " +:+ pretty n)).
Proof. unfold set_int64. by intros ->. Qed.

#[local] Instance dimension_fits_dec (d : Dimension) : Decision (dimension_fits d).
Proof.
  unfold dimension_fits. destruct (dimension_value d) as [[n|name]|];
    apply _.
Defined.

(** What [serialize_dimension_into] writes for a dimension that fits. *)
Definition dimension_written (d : Dimension) : DimensionProto :=
  mk_DimensionProto (dimension_value d)
    (if truthy (dimension_denotation d) then dimension_denotation d else None).

Lemma serialize_dimension_fits (d : Dimension) :
  dimension_fits d →
  serialize_dimension_into empty_dimension d = Ok (dimension_written d).
Proof.
  unfold dimension_fits, serialize_dimension_into, dimension_written.
  destruct d as [[[n|name]|] den]; cbn [dimension_value dimension_denotation].
  - intros Hfit. rewrite (set_int64_Ok _ Hfit). by destruct (truthy den).
  - intros _. by destruct (truthy den).
  - intros _. by destruct (truthy den).
Qed.

Lemma serialize_dimension_not_fits (d : Dimension) :
  ¬ dimension_fits d →
  ∃ msg, serialize_dimension_into empty_dimension d = Raise (ValueError msg).
Proof.
  unfold dimension_fits, serialize_dimension_into.
  destruct d as [[[n|name]|] den]; cbn [dimension_value dimension_denotation];
    try (intros Hfit; by destruct Hfit).
  intros Hfit%not_true_is_false. rewrite (set_int64_Raise _ Hfit).
  by eexists.
Qed.

Lemma deserialize_dimension_written (d : Dimension) :
  deserialize_dimension (dimension_written d) = d ↔ dimension_kept d.
Proof.
  destruct d as [value [s|]];
    unfold deserialize_dimension, dimension_written, dimension_kept,
      kept, truthy;
    cbn [dimension_value dimension_denotation dim_value dim_denotation].
  - destruct (bool_decide_reflect (s = "")) as [->|Hne]; cbn [negb].
    + destruct value as [v|]; cbn.
      * split; [discriminate|]. by intros [Hk _].
      * split; [discriminate|]. by intros [Hk _].
    + destruct value as [v|]; cbn.
      * split; [|done]. intros _. split; [congruence|discriminate].
      * split; [discriminate|]. intros [_ Hnone]. by specialize (Hnone eq_refl).
  - destruct value as [v|]; cbn.
    + split; [|done]. intros _. split; [discriminate|done].
    + split; [|done]. intros _. split; [discriminate|done].
Qed.

(** X11. [serialize_dimension_into] raises [ValueError] exactly on a
    dimension whose integer value lies outside [int64]; a dimension comes
    back from it and [deserialize_dimension] as it was exactly when its value
    fits, its denotation is not the empty string and, if it has no value, it
    has no denotation either. *)
Theorem dimension_round_trip (d : Dimension) :
  ((∃ msg, serialize_dimension_into empty_dimension d = Raise (ValueError msg))
   ↔ ¬ dimension_fits d) ∧
  (is_ok (serialize_dimension_into empty_dimension d) = true ↔ dimension_fits d) ∧
  (deserialize_dimension <$> serialize_dimension_into empty_dimension d = Ok d
   ↔ dimension_fits d ∧ dimension_kept d).
Proof.
  destruct (decide (dimension_fits d)) as [Hfit|Hfit].
  - rewrite (serialize_dimension_fits d Hfit). cbn [is_ok fmap result_fmap].
    split; [|split].
    + split; [by intros [msg Hmsg]|done].
    + done.
    + rewrite <- deserialize_dimension_written.
      split; [by intros [= ->]|by intros [_ ->]].
  - destruct (serialize_dimension_not_fits d Hfit) as [msg ->].
    cbn [is_ok fmap result_fmap]. split; [|split].
    + split; [done|by exists msg].
    + split; [discriminate|done].
    + split; [discriminate|by intros [? _]].
Qed.

Lemma drop_empty_kept (d : option string) : drop_empty d = d ↔ kept d.
Proof.
  unfold drop_empty, kept, truthy. destruct d as [s|]; [|done].
  destruct (bool_decide_reflect (s = "")) as [->|Hne]; cbn [negb].
  - split; [discriminate|]. intros Hk. by destruct Hk.
  - split; [|done]. intros _. congruence.
Qed.

Lemma without_empty_denotations_kept (t : TypeProtocol) :
  without_empty_denotations t = t ↔ type_kept t.
Proof.
  induction t as [dtype d|dtype d|elem_type IH d|elem_type IH d];
    cbn [without_empty_denotations type_kept].
  - rewrite <- drop_empty_kept. split; [congruence|by intros ->].
  - rewrite <- drop_empty_kept. split; [congruence|by intros ->].
  - rewrite <- drop_empty_kept, <- IH.
    split; [intros [= -> ->]; by split|by intros [-> ->]].
  - rewrite <- drop_empty_kept, <- IH.
    split; [intros [= -> ->]; by split|by intros [-> ->]].
Qed.

Lemma deserialize_serialize_type (t : TypeProtocol) :
  deserialize_type_proto_for_type (serialize_type_into empty_type t)
  = Ok (Some (without_empty_denotations t)).
Proof.
  induction t as [dtype d|dtype d|elem_type IH d|elem_type IH d];
    cbn [serialize_type_into empty_type deserialize_type_proto_for_type
         without_empty_denotations type_denotation denotation_of].
  - rewrite DataType_of_value. reflexivity.
  - rewrite DataType_of_value. reflexivity.
  - rewrite IH. reflexivity.
  - rewrite IH. reflexivity.
Qed.

(** X12. A type comes back from [serialize_type_into] and
    [deserialize_type_proto_for_type] with its empty denotations replaced by
    [None], at every level of nesting; so it comes back as it was exactly
    when none of its denotations is the empty string. *)
Theorem type_round_trip (t : TypeProtocol) :
  deserialize_type_proto_for_type (serialize_type_into empty_type t)
  = Ok (Some (without_empty_denotations t)) ∧
  (deserialize_type_proto_for_type (serialize_type_into empty_type t)
   = Ok (Some t) ↔ type_kept t).
Proof.
  split; [apply deserialize_serialize_type|].
  rewrite deserialize_serialize_type, <- without_empty_denotations_kept.
  split; [congruence|by intros ->].
Qed.

Lemma deserialize_dimensions_written (s : Shape) :
  deserialize_dimension <$> (dimension_written <$> s) = s
  ↔ Forall dimension_kept s.
Proof.
  induction s as [|d s IH]; [by split; [constructor|]|].
  rewrite !fmap_cons, Forall_cons, <- IH, <- deserialize_dimension_written.
  split; [intros [= -> ->]; by split|intros [-> ->]; done].
Qed.

Lemma serialize_dimensions_fit (s : Shape) :
  Forall dimension_fits s →
  serialize_dimensions s = Ok (dimension_written <$> s).
Proof.
  induction 1 as [|d s Hd Hs IH]; [reflexivity|].
  cbn [serialize_dimensions]. rewrite (serialize_dimension_fits d Hd).
  cbn [mbind result_bind]. by rewrite IH.
Qed.

Lemma serialize_dimensions_not_fit (s : Shape) :
  ¬ Forall dimension_fits s →
  ∃ msg, serialize_dimensions s = Raise (ValueError msg).
Proof.
  induction s as [|d s IH]; [intros Hfit; destruct Hfit; constructor|].
  intros Hfit. cbn [serialize_dimensions].
  destruct (decide (dimension_fits d)) as [Hd|Hd].
  - rewrite (serialize_dimension_fits d Hd). cbn [mbind result_bind].
    destruct IH as [msg ->]; [|by exists msg].
    intros Hs. apply Hfit. by constructor.
  - destruct (serialize_dimension_not_fits d Hd) as [msg ->]. by exists msg.
Qed.

Lemma serialize_shape_fit type_proto (s : Shape) :
  Forall dimension_fits s →
  serialize_shape_into type_proto s
  = Ok (tensor_type (denotation_of type_proto)
          match type_proto with tensor_type _ elem_type _ => elem_type | _ => None end
          (Some (dimension_written <$> s))).
Proof.
  intros Hfit. unfold serialize_shape_into.
  by rewrite (serialize_dimensions_fit s Hfit).
Qed.

(** X13. [serialize_shape_into] raises [ValueError] exactly on a shape that
    has a dimension whose integer value lies outside [int64]; a shape comes
    back from it and [deserialize_type_proto_for_shape] as it was exactly
    when each of its dimensions does; the empty shape comes back as the empty
    shape, not as [None]. *)
Theorem shape_round_trip (s : Shape) :
  ((∃ msg, serialize_shape_into empty_type s = Raise (ValueError msg))
   ↔ ¬ Forall dimension_fits s) ∧
  (is_ok (serialize_shape_into empty_type s) = true ↔ Forall dimension_fits s) ∧
  (serialize_shape_into empty_type s ≫= deserialize_type_proto_for_shape
   = Ok (Some s) ↔ Forall dimension_fits s ∧ Forall dimension_kept s) ∧
  serialize_shape_into empty_type [] ≫= deserialize_type_proto_for_shape
  = Ok (Some []).
Proof.
  split; [|split; [|split; [|reflexivity]]];
    (destruct (decide (Forall dimension_fits s)) as [Hfit|Hfit];
     [rewrite (serialize_shape_fit _ s Hfit)
     |unfold serialize_shape_into;
      destruct (serialize_dimensions_not_fit s Hfit) as [msg ->]];
     cbn [is_ok mbind result_bind]).
  - split; [by intros [msg Hmsg]|done].
  - split; [done|by exists msg].
  - done.
  - split; [discriminate|done].
  - cbn [empty_type deserialize_type_proto_for_shape fmap option_fmap
         option_map].
    rewrite <- deserialize_dimensions_written.
    split; [by intros [= ->]|by intros [_ ->]].
  - split; [discriminate|by intros [? _]].
Qed.

(** What [deserialize_value_info_proto] makes of a proto when it is given
    no value to fill in. *)
Lemma deserialize_value_info_proto_fresh proto shape type st :
  deserialize_type_proto_for_shape (vi_type proto) = Ok shape →
  deserialize_type_proto_for_type (vi_type proto) = Ok type →
  deserialize_value_info_proto proto None st
  = Ok (length (heap st),
        mk_State (scoped_values st) (dicts st)
          (heap st ++ [Value.mk (Some (vi_name proto)) shape type None])).
Proof.
  intros Hshape Htype. unfold deserialize_value_info_proto.
  rewrite Hshape, Htype.
  unfold mbind, M_bind, new_value, lift, update_value, mret, M_ret.
  cbn [heap scoped_values dicts Value.name Value.shape Value.type
       Value.const_value].
  rewrite !alter_app_r_alt by lia. rewrite Nat.sub_diag. reflexivity.
Qed.

(** Serialization of a type into a proto in which at most a shape has been
    written. *)
Lemma deserialize_serialize_type_after_shape type_proto (t : TypeProtocol) :
  type_proto = empty_type ∨ (∃ shape, type_proto = tensor_type None None shape) →
  deserialize_type_proto_for_type (serialize_type_into type_proto t)
  = Ok (Some (without_empty_denotations t)).
Proof.
  intros [->|[shape ->]]; [apply deserialize_serialize_type|].
  pose proof (deserialize_serialize_type t) as Hempty.
  destruct t as [dtype d|dtype d|elem_type d|elem_type d]; exact Hempty.
Qed.

Lemma serialize_type_no_shape (t : TypeProtocol) :
  deserialize_type_proto_for_shape (serialize_type_into empty_type t) = Ok None.
Proof.
  induction t as [dtype d|dtype d|elem_type IH d|elem_type IH d];
    cbn [serialize_type_into empty_type deserialize_type_proto_for_shape];
    done.
Qed.

(** X14. A named value whose type, if it has one, is a tensor type comes
    back from [serialize_value] and [deserialize_value_info_proto] with its
    name, shape and type (constant value apart), provided the integer
    dimensions of its shape lie within [int64] and its dimensions and
    denotations are of the kind that is written. *)
Theorem tensor_value_round_trip (value : Value.t) (name : string) st :
  Value.name value = Some name →
  (∀ shape, Value.shape value = Some shape →
            Forall dimension_fits shape ∧ Forall dimension_kept shape) →
  (∀ type, Value.type value = Some type →
           is_TensorType type = true ∧ type_kept type) →
  ∃ proto,
    serialize_value value "" = Ok proto ∧
    deserialize_value_info_proto proto None st
    = Ok (length (heap st),
          mk_State (scoped_values st) (dicts st)
            (heap st ++ [Value.mk (Some name) (Value.shape value)
                           (Value.type value) None])).
Proof.
  intros Hname Hshape Htype.
  unfold serialize_value, serialize_value_into. rewrite Hname.
  cbn [mbind result_bind bool_decide negb vi_type].
  destruct (Value.shape value) as [shape|] eqn:Hs.
  - destruct (Hshape shape eq_refl) as [Hfit Hkept].
    rewrite (serialize_shape_fit _ shape Hfit). cbn [mbind result_bind].
    apply deserialize_dimensions_written in Hkept.
    eexists. split; [reflexivity|].
    apply (deserialize_value_info_proto_fresh
             (mk_ValueInfoProto name _) (Some shape) (Value.type value));
      cbn [vi_type].
    + destruct (Value.type value) as [type|] eqn:Ht.
      * destruct (Htype type eq_refl) as [Htensor _].
        destruct type; try discriminate. cbn. by rewrite Hkept.
      * cbn. by rewrite Hkept.
    + destruct (Value.type value) as [type|] eqn:Ht; [|done].
      destruct (Htype type eq_refl) as [_ Htk].
      apply without_empty_denotations_kept in Htk.
      rewrite deserialize_serialize_type_after_shape, Htk; [done|].
      right; by eexists.
  - eexists. split; [reflexivity|].
    apply (deserialize_value_info_proto_fresh
             (mk_ValueInfoProto name _) None (Value.type value));
      cbn [vi_type].
    + destruct (Value.type value) as [type|] eqn:Ht; [|done].
      destruct (Htype type eq_refl) as [Htensor _].
      by destruct type.
    + destruct (Value.type value) as [type|] eqn:Ht; [|done].
      destruct (Htype type eq_refl) as [_ Htk].
      apply without_empty_denotations_kept in Htk.
      rewrite deserialize_serialize_type_after_shape, Htk; [done|].
      by left.
Qed.

(** X15. A named value of a sparse tensor, sequence or optional type, the
    integer dimensions of whose shape lie within [int64], comes back without
    its shape: the shape is written into [tensor_type], which the type
    written after it unsets. *)
Theorem other_value_loses_shape (value : Value.t) (name : string) type st :
  Value.name value = Some name →
  Value.type value = Some type →
  is_TensorType type = false →
  (∀ shape, Value.shape value = Some shape → Forall dimension_fits shape) →
  ∃ proto,
    serialize_value value "" = Ok proto ∧
    deserialize_value_info_proto proto None st
    = Ok (length (heap st),
          mk_State (scoped_values st) (dicts st)
            (heap st ++ [Value.mk (Some name) None
                           (Some (without_empty_denotations type)) None])).
Proof.
  intros Hname Htype Hother Hshape.
  unfold serialize_value, serialize_value_into. rewrite Hname, Htype.
  cbn [mbind result_bind bool_decide negb vi_type].
  pose proof (serialize_type_no_shape type) as Hnone.
  destruct (Value.shape value) as [shape|] eqn:Hs.
  - rewrite (serialize_shape_fit _ shape (Hshape shape eq_refl)).
    cbn [mbind result_bind]. eexists. split; [reflexivity|].
    apply (deserialize_value_info_proto_fresh (mk_ValueInfoProto name _));
      cbn [vi_type].
    + destruct type as [dtype d|dtype d|elem_type d|elem_type d];
        try discriminate; exact Hnone.
    + apply deserialize_serialize_type_after_shape. right; by eexists.
  - eexists. split; [reflexivity|].
    apply (deserialize_value_info_proto_fresh (mk_ValueInfoProto name _));
      cbn [vi_type].
    + exact Hnone.
    + apply deserialize_serialize_type_after_shape. by left.
Qed.

End SerializeFacts.

Lemma tensor_value_round_trip_witness :
  ∃ proto,
    Serialize.serialize_value
      (Serde.Value.mk (Some "x")
         (Some [Serde.mk_Dimension (Some (inl 2)) None;
                Serde.mk_Dimension (Some (inr "N")) (Some "batch")])
         (Some (Serde.TensorType Serde.FLOAT None)) None) "" = Ok proto ∧
    Serde.deserialize_value_info_proto proto None Serde.empty_state
    = Ok (0%nat,
          Serde.mk_State [] []
            [Serde.Value.mk (Some "x")
               (Some [Serde.mk_Dimension (Some (inl 2)) None;
                      Serde.mk_Dimension (Some (inr "N")) (Some "batch")])
               (Some (Serde.TensorType Serde.FLOAT None)) None]).
Proof.
  apply (tensor_value_round_trip
           (Serde.Value.mk (Some "x")
              (Some [Serde.mk_Dimension (Some (inl 2)) None;
                     Serde.mk_Dimension (Some (inr "N")) (Some "batch")])
              (Some (Serde.TensorType Serde.FLOAT None)) None)
           "x" Serde.empty_state).
  - reflexivity.
  - intros shape [= <-]. split.
    + repeat constructor.
    + repeat constructor; cbn; unfold Serialize.kept; congruence.
  - intros type [= <-]. split; [reflexivity|]. cbn. unfold Serialize.kept.
    congruence.
Defined.

(** A dimension of [2^63] is one that [dim_value] does not hold: the value
    is not serialized. *)
Lemma serialize_value_raises_beyond_int64 :
  Serialize.serialize_value
    (Serde.Value.mk (Some "x")
       (Some [Serde.mk_Dimension (Some (inl (2 ^ 63))) None])
       (Some (Serde.TensorType Serde.FLOAT None)) None) ""
  = Raise (ValueError "Value out of range: 9223372036854775808").
Proof. vm_compute. reflexivity. Qed.

(** A sequence of float tensors with a shape attached. *)
Lemma other_value_loses_shape_witness :
  ∃ proto,
    Serialize.serialize_value
      (Serde.Value.mk (Some "xs")
         (Some [Serde.mk_Dimension (Some (inl 2)) None])
         (Some (Serde.SequenceType (Serde.TensorType Serde.FLOAT None) None))
         None) "" = Ok proto ∧
    Serde.deserialize_value_info_proto proto None Serde.empty_state
    = Ok (0%nat,
          Serde.mk_State [] []
            [Serde.Value.mk (Some "xs") None
               (Some (Serde.SequenceType (Serde.TensorType Serde.FLOAT None) None))
               None]).
Proof.
  apply (other_value_loses_shape
           (Serde.Value.mk (Some "xs")
              (Some [Serde.mk_Dimension (Some (inl 2)) None])
              (Some (Serde.SequenceType (Serde.TensorType Serde.FLOAT None) None))
              None)
           "xs" (Serde.SequenceType (Serde.TensorType Serde.FLOAT None) None)
           Serde.empty_state); try reflexivity.
  intros shape [= <-]. repeat constructor.
Defined.

(** ** The names of the value infos of functions *)

Section NameFacts.
Import Stdlib.Strings.Ascii.
Import Str FunctionValueInfoName.

Lemma app_nil_s (b : string) : "" +:+ b = b.
Proof. reflexivity. Qed.

Lemma app_cons_s c (a b : string) : String c a +:+ b = String c (a +:+ b).
Proof. reflexivity. Qed.

Lemma app_String_assoc (a : string) c (b : string) :
  (a +:+ String c "") +:+ b = a +:+ String c b.
Proof.
  induction a as [|x a IH]; [done|]. by rewrite !app_cons_s, IH.
Qed.

Lemma app_empty_r (a : string) : a +:+ "" = a.
Proof. induction a as [|x a IH]; [done|]. by rewrite app_cons_s, IH. Qed.

Lemma app_assoc_s (a b c : string) : (a +:+ b) +:+ c = a +:+ (b +:+ c).
Proof. induction a as [|x a IH]; [done|]. by rewrite !app_cons_s, IH. Qed.

Lemma has_char_app c (a b : string) :
  has_char c (a +:+ b) = has_char c a || has_char c b.
Proof.
  induction a as [|x a IH]; [done|].
  rewrite app_cons_s. cbn [has_char]. by rewrite IH, orb_assoc.
Qed.

(** Splitting at a slash. *)
Lemma split_slash_none piece (s : string) :
  has_char "/"%char s = false → split_from "/" 0 piece s = [piece +:+ s].
Proof.
  revert piece. induction s as [|c s IH]; intros piece; cbn [has_char].
  - intros _. cbn. by rewrite app_empty_r.
  - intros [Hc Hs]%orb_false_elim. apply bool_decide_eq_false in Hc.
    cbn [split_from String.prefix].
    destruct (ascii_dec "/"%char c) as [<-|_]; [done|].
    rewrite IH by done. by rewrite app_String_assoc.
Qed.

Lemma split_slash_first piece (s rest : string) :
  has_char "/"%char s = false →
  split_from "/" 0 piece (s +:+ String "/"%char rest)
  = (piece +:+ s) :: split_from "/" 0 "" rest.
Proof.
  revert piece. induction s as [|c s IH]; intros piece; cbn [has_char].
  - intros _. rewrite app_nil_s, app_empty_r. cbn. by destruct rest.
  - intros [Hc Hs]%orb_false_elim. apply bool_decide_eq_false in Hc.
    rewrite app_cons_s. cbn [split_from String.prefix].
    destruct (ascii_dec "/"%char c) as [<-|_]; [done|].
    rewrite IH by done. by rewrite app_String_assoc.
Qed.

(** Splitting at a double colon. *)
Lemma split_colons_none piece (s : string) :
  has_char ":"%char s = false →
  split_from "::" 0 piece s = [piece +:+ s].
Proof.
  revert piece. induction s as [|c s IH]; intros piece; cbn [has_char].
  - intros _. cbn. by rewrite app_empty_r.
  - intros [Hc Hs]%orb_false_elim. apply bool_decide_eq_false in Hc.
    cbn [split_from String.prefix].
    destruct (ascii_dec ":"%char c) as [<-|_]; [done|].
    rewrite IH by done. by rewrite app_String_assoc.
Qed.

Lemma split_colons_first piece (s rest : string) :
  has_char ":"%char s = false →
  split_from "::" 0 piece (s +:+ "::" +:+ rest)
  = (piece +:+ s) :: split_from "::" 0 "" rest.
Proof.
  revert piece. induction s as [|c s IH]; intros piece; cbn [has_char].
  - intros _. rewrite app_nil_s, app_empty_r. cbn. by destruct rest.
  - intros [Hc Hs]%orb_false_elim. apply bool_decide_eq_false in Hc.
    rewrite app_cons_s. cbn [split_from String.prefix].
    destruct (ascii_dec ":"%char c) as [<-|_]; [done|].
    rewrite IH by done. by rewrite app_String_assoc.
Qed.

(** X16. A name written by [format_name] is taken apart again by
    [_parse_experimental_function_value_info_name] into the domain, function
    name and value name it was made of, when the domain and the function name
    hold neither a colon nor a slash and the value name holds no slash. *)
Theorem parse_format_name (function_domain function_name value_name : string) :
  has_char ":"%char function_domain = false →
  has_char "/"%char function_domain = false →
  has_char ":"%char function_name = false →
  has_char "/"%char function_name = false →
  has_char "/"%char value_name = false →
  _parse_experimental_function_value_info_name
    (format_name function_domain function_name value_name)
  = Some (function_domain, function_name, value_name).
Proof.
  intros Hdc Hds Hnc Hns Hvs.
  unfold _parse_experimental_function_value_info_name, format_name, split.
  change ("/" +:+ value_name) with (String "/"%char value_name).
  rewrite split_slash_first.
  2:{ rewrite !has_char_app, Hds, Hns. reflexivity. }
  rewrite split_slash_none by done. rewrite !app_nil_s.
  rewrite split_colons_first by done.
  rewrite split_colons_none by done. by rewrite !app_nil_s.
Qed.

Lemma prefix_empty (s : string) : String.prefix "" s = true.
Proof. by destruct s. Qed.

Lemma split_slash_app piece (a b : string) :
  split_from "/" 0 piece (a +:+ String "/"%char b)
  = split_from "/" 0 piece a ++ split_from "/" 0 "" b.
Proof.
  revert piece. induction a as [|c a IH]; intros piece.
  - rewrite app_nil_s. cbn. by destruct b.
  - rewrite app_cons_s. cbn [split_from String.prefix].
    destruct (ascii_dec "/"%char c) as [<-|_].
    + rewrite !prefix_empty. cbn [String.length Nat.sub]. by rewrite IH.
    + apply IH.
Qed.

Lemma split_from_length sep skip piece (s : string) :
  (1 ≤ length (split_from sep skip piece s))%nat.
Proof.
  revert skip piece.
  induction s as [|c s IH]; intros skip piece; cbn [split_from].
  - cbn. lia.
  - destruct skip as [|skip]; [|apply IH].
    destruct (String.prefix sep (String c s)); [|apply IH].
    cbn [length]. lia.
Qed.

Lemma has_char_split c (s : string) :
  has_char c s = true → ∃ a b, s = a +:+ String c b.
Proof.
  induction s as [|x s IH]; cbn [has_char]; [done|].
  destruct (bool_decide_reflect (x = c)) as [->|_]; cbn [orb].
  - intros _. exists "", s. reflexivity.
  - intros (a & b & ->)%IH. exists (String x a), b. reflexivity.
Qed.

(** X17. A value name that holds a slash makes the name written by
    [format_name] one that is not recognised: the parser answers [None],
    whatever the domain and the function name are. *)
Theorem parse_format_name_with_slash
    (function_domain function_name value_name : string) :
  has_char "/"%char value_name = true →
  _parse_experimental_function_value_info_name
    (format_name function_domain function_name value_name)
  = None.
Proof.
  intros (a & b & ->)%has_char_split.
  unfold _parse_experimental_function_value_info_name, format_name, split.
  change ("/" +:+ a +:+ String "/"%char b)
    with (String "/"%char (a +:+ String "/"%char b)).
  rewrite !split_slash_app.
  pose proof (split_from_length "/" 0 ""
                (function_domain +:+ "::" +:+ function_name)) as H1.
  pose proof (split_from_length "/" 0 "" a) as H2.
  pose proof (split_from_length "/" 0 "" b) as H3.
  set (parts := _ ++ _ ++ _).
  assert (3 ≤ length parts)%nat as Hlen.
  { subst parts. rewrite !length_app. lia. }
  destruct parts as [|x [|y [|z l]]]; cbn in Hlen; [lia..|reflexivity].
Qed.

Lemma parse_format_name_witness :
  _parse_experimental_function_value_info_name
    (format_name "pkg.torch" "LlamaAttention" "present_key")
  = Some ("pkg.torch", "LlamaAttention", "present_key").
Proof. apply parse_format_name; reflexivity. Defined.

Lemma parse_format_name_with_slash_witness :
  _parse_experimental_function_value_info_name
    (format_name "pkg.torch" "LlamaAttention" "/model/layers.0/Add_output_0")
  = None.
Proof. apply parse_format_name_with_slash. reflexivity. Defined.

End NameFacts.

(** ** Nodes: the public entry point, and what a node defines *)

Section NodeEntryFacts.
Import Serde.

Lemma deserialize_attribute_keeps_scopes p : attribute_keeps_scopes p.
Proof.
  apply (AttributeProto_nested_ind graph_keeps_scopes node_keeps_scopes
           attribute_keeps_scopes);
    auto using graph_keeps_scopes_step, node_keeps_scopes_step,
      attribute_keeps_scopes_step.
Qed.

Lemma deserialize_attributes_keep_scopes attribute st attrs st' :
  mapM _deserialize_attribute attribute st = Ok (attrs, st') →
  scoped_values st' = scoped_values st.
Proof.
  intros Hrun.
  apply (mapM_stable (λ _, None)) in Hrun as [Hs _]; [exact Hs|].
  apply Forall_forall. intros p _. apply deserialize_attribute_keeps_scopes.
Qed.

(** Registering an output without a scope to register it in. *)
Lemma register_output_no_scope value_info output value st :
  scoped_values st = [] →
  ∃ e, register_output value_info output value st = Raise e.
Proof.
  intros Hnil. unfold register_output.
  erewrite bind_step by reflexivity.
  destruct (value_info !! output) as [info|].
  - destruct ((deserialize_value_info_proto info (Some value) ;; mret ())
                (mk_State (scoped_values st) (dicts st)
                   (alter (λ v, Value.mk (Some output) (Value.shape v)
                                  (Value.type v) (Value.const_value v))
                      value (heap st)))) as [[u st1]|e] eqn:Hinfo.
    + erewrite bind_step by exact Hinfo.
      apply bind_Ok in Hinfo as (r & st2 & Hde & Hret).
      apply mret_Ok in Hret as [_ ->].
      apply deserialize_value_info_proto_stable in Hde as [Hs _].
      cbn [scoped_values] in Hs.
      exists IndexError. apply bind_Raise. unfold scoped_values_last.
      by rewrite Hs, Hnil.
    + exists e. by apply bind_Raise.
  - erewrite bind_step by reflexivity.
    exists IndexError. apply bind_Raise. unfold scoped_values_last. cbn.
    by rewrite Hnil.
Qed.

(** X18. The public [deserialize_node] starts from an empty list of scopes:
    it succeeds only on a node without outputs whose inputs are all the
    empty name; any other node makes it raise. *)
Theorem deserialize_node_entry_point
    (input output : list string) (name op_type domain overload : string)
    (attribute : list AttributeProto) (metadata_props : list (string * string))
    (node : Node) (st : State) :
  deserialize_node
    (mk_NodeProto input output name op_type domain overload attribute
       metadata_props) = Ok (node, st) →
  output = [] ∧ ∀ n, n ∈ input → n = "".
Proof.
  unfold deserialize_node. rewrite deserialize_node_unfold. intros Hrun.
  apply bind_Ok in Hrun as (ins & st1 & Hins & Hrun).
  apply resolve_inputs_Ok in Hins as (-> & _ & Hdef).
  apply bind_Ok in Hrun as (attrs & st2 & Hattrs & Hrun).
  apply deserialize_attributes_keep_scopes in Hattrs as Hs2.
  apply bind_Ok in Hrun as (outs & st3 & Houts & Hrun).
  rewrite mapM_new_value in Houts. injection Houts as <- <-.
  split.
  - destruct output as [|o output]; [reflexivity|]. exfalso.
    apply bind_Ok in Hrun as (u & st4 & Hreg & _).
    unfold forM_ in Hreg. apply bind_Ok in Hreg as (us & st5 & Hreg & _).
    cbn [length seq zip mapM] in Hreg.
    apply bind_Ok in Hreg as (u1 & st6 & Hfirst & _).
    destruct (register_output_no_scope ∅ o (length (heap st2))
                (mk_State (scoped_values st2) (dicts st2)
                   (heap st2 ++ replicate (S (length output))
                                  (Value.mk None None None None))))
      as [e He]; [exact Hs2|].
    rewrite He in Hfirst. discriminate.
  - intros n Hin. destruct (decide (n = "")) as [->|Hne]; [reflexivity|].
    destruct (Hdef n Hin Hne) as [v Hv]. discriminate.
Qed.

End NodeEntryFacts.

Lemma deserialize_node_entry_point_witness :
  ([] : list string) = [] ∧ ∀ n, n ∈ [""] → n = "".
Proof.
  destruct (Serde.deserialize_node
              (Serde.mk_NodeProto [""] [] "n" "Relu" "" "" [] []))
    as [[node st]|e] eqn:Hrun.
  - exact (deserialize_node_entry_point [""] [] "n" "Relu" "" "" [] []
             node st Hrun).
  - vm_compute in Hrun. discriminate Hrun.
Defined.


Section NodeOutputFacts.
Import Serde.

Lemma deserialize_value_info_proto_dicts proto value st r st' :
  deserialize_value_info_proto proto value st = Ok (r, st') →
  scoped_values st' = scoped_values st ∧ dicts st' = dicts st.
Proof.
  unfold deserialize_value_info_proto. intros Hrun.
  apply bind_Ok in Hrun as (v & st1 & Hv & Hrun).
  assert (scoped_values st1 = scoped_values st ∧ dicts st1 = dicts st)
    as [Hs1 Hd1].
  { destruct value.
    - by apply mret_Ok in Hv as [_ ->].
    - unfold new_value in Hv. by injection Hv as _ <-. }
  apply bind_Ok in Hrun as (shape & st2 & Hs & Hrun).
  apply lift_Ok in Hs as [_ ->].
  apply bind_Ok in Hrun as (u1 & st3 & Hu1 & Hrun).
  unfold update_value in Hu1. injection Hu1 as _ <-.
  apply bind_Ok in Hrun as (type & st4 & Ht & Hrun).
  apply lift_Ok in Ht as [_ ->].
  apply bind_Ok in Hrun as (u2 & st5 & Hu2 & Hrun).
  unfold update_value in Hu2. injection Hu2 as _ <-.
  apply mret_Ok in Hrun as [_ ->]. by cbn.
Qed.

Lemma register_output_Ok value_info output value st u st' top :
  last (scoped_values st) = Some top →
  register_output value_info output value st = Ok (u, st') →
  scoped_values st' = scoped_values st ∧
  dicts st' = alter (<[output := value]>) top (dicts st).
Proof.
  intros Htop. unfold register_output. intros Hrun.
  apply bind_Ok in Hrun as (u1 & st1 & Hu1 & Hrun).
  unfold update_value in Hu1. injection Hu1 as _ <-.
  apply bind_Ok in Hrun as (u2 & st2 & Hinfo & Hrun).
  assert (scoped_values st2 = scoped_values st ∧ dicts st2 = dicts st)
    as [Hs2 Hd2].
  { destruct (value_info !! output) as [info|].
    - apply bind_Ok in Hinfo as (r & st3 & Hde & Hret).
      apply mret_Ok in Hret as [_ ->].
      by apply deserialize_value_info_proto_dicts in Hde.
    - by apply mret_Ok in Hinfo as [_ ->]. }
  apply bind_Ok in Hrun as (innermost & st3 & Hlast & Hrun).
  apply scoped_values_last_Ok in Hlast as [-> Hlast].
  rewrite Hs2, Htop in Hlast. injection Hlast as <-.
  unfold dict_setitem in Hrun. injection Hrun as Hst'. subst st'. cbn.
  by rewrite Hs2, Hd2.
Qed.

Lemma register_outputs_Ok value_info (pairs : list (string * ref)) st u st' top :
  last (scoped_values st) = Some top →
  forM_ (λ '(output, value), register_output value_info output value) pairs st
  = Ok (u, st') →
  scoped_values st' = scoped_values st ∧
  dicts st' = alter (λ d, foldl (λ d p, <[p.1 := p.2]> d) d pairs) top (dicts st).
Proof.
  intros Htop Hrun. unfold forM_ in Hrun.
  apply bind_Ok in Hrun as (us & st1 & Hrun & Hret).
  apply mret_Ok in Hret as [_ ->]. clear u.
  revert st us Htop Hrun. induction pairs as [|[o v] pairs IH];
    intros st us Htop Hrun.
  - apply mret_Ok in Hrun as [_ ->]. split; [reflexivity|].
    cbn [foldl]. symmetry. by apply list_alter_id.
  - cbn [mapM] in Hrun.
    apply bind_Ok in Hrun as (u1 & st2 & Hfirst & Hrun).
    apply bind_Ok in Hrun as (us' & st3 & Hrest & Hret).
    apply mret_Ok in Hret as [_ ->].
    apply (register_output_Ok _ _ _ _ _ _ top Htop) in Hfirst as [Hs2 Hd2].
    apply IH in Hrest as [Hs3 Hd3]; [|by rewrite Hs2].
    split; [congruence|]. rewrite Hd3, Hd2. cbn [foldl fst snd].
    by rewrite list_alter_alter_eq.
Qed.

Lemma foldl_insert_other (pairs : list (string * ref)) (d : gmap string ref) name :
  name ∉ pairs.*1 →
  foldl (λ d p, <[p.1 := p.2]> d) d pairs !! name = d !! name.
Proof.
  revert d. induction pairs as [|[o v] pairs IH]; intros d Hnot; [done|].
  rewrite fmap_cons, not_elem_of_cons in Hnot. destruct Hnot as [Hne Hnot].
  cbn [foldl fst snd]. rewrite IH by done. by rewrite lookup_insert_ne.
Qed.

Lemma foldl_insert_last (output : list string) (outputs : list ref)
    (d : gmap string ref) i o :
  length outputs = length output →
  output !! i = Some o →
  (∀ j, (i < j)%nat → output !! j ≠ Some o) →
  foldl (λ d p, <[p.1 := p.2]> d) d (zip output outputs) !! o = outputs !! i.
Proof.
  revert outputs d i.
  induction output as [|x output IH]; intros [|v outputs] d i Hlen Hi Hlast;
    try discriminate.
  cbn [zip foldl fst snd]. destruct i as [|i].
  - injection Hi as ->. cbn [lookup list_lookup].
    rewrite foldl_insert_other, lookup_insert_eq; [done|].
    intros Hin. apply list_elem_of_fmap in Hin as ([o' v'] & -> & Hin).
    apply list_elem_of_lookup in Hin as [j Hj].
    assert (output !! j = Some o').
    { revert Hj. clear. revert outputs j.
      induction output as [|y output IH]; intros [|w outputs] [|j]; cbn;
        try done.
      - by intros [= -> _].
      - apply IH. }
    by apply (Hlast (S j)); [lia|].
  - cbn [lookup list_lookup] in Hi |- *. apply IH.
    + cbn in Hlen. lia.
    + exact Hi.
    + intros j Hj. apply (Hlast (S j)). lia.
Qed.

Lemma zip_fst_elem_of {A B} (xs : list A) (ys : list B) x :
  x ∈ (zip xs ys).*1 → x ∈ xs.
Proof.
  revert ys. induction xs as [|a xs IH]; intros [|b ys]; cbn;
    try (by intros ?%elem_of_nil).
  rewrite !elem_of_cons. intros [->|Hin]; [by left|right; by eapply IH].
Qed.

Lemma find_in_scopes_ext_name ds ds' name l :
  (∀ d, d ∈ l → default ∅ (ds' !! d) !! name = default ∅ (ds !! d) !! name) →
  find_in_scopes ds' name l = find_in_scopes ds name l.
Proof.
  induction l as [|d l IH]; intros Hsame; [reflexivity|].
  cbn. rewrite (Hsame d) by apply list_elem_of_here.
  rewrite IH; [reflexivity|].
  intros d' Hd'. apply Hsame. by apply list_elem_of_further.
Qed.

(** X19. What a node defines.  After [_deserialize_node] has succeeded in a
    state with at least one scope, each output name of the node resolves to
    the output value made for its last occurrence among the outputs, and
    every other name resolves as it did before. *)
Theorem node_outputs_become_visible
    (input output : list string) (name op_type domain overload : string)
    (attribute : list AttributeProto) (metadata_props : list (string * string))
    (value_info : gmap string ValueInfoProto) (st : State) (node : Node)
    (st' : State) :
  wf_scopes st → scoped_values st ≠ [] →
  _deserialize_node
    (mk_NodeProto input output name op_type domain overload attribute
       metadata_props) value_info st = Ok (node, st') →
  length (node_outputs node) = length output ∧
  (∀ i o, output !! i = Some o →
          (∀ j, (i < j)%nat → output !! j ≠ Some o) →
          visible st' o = node_outputs node !! i) ∧
  (∀ n, n ∉ output → visible st' n = visible st n).
Proof.
  intros Hwf Hne Hrun. rewrite deserialize_node_unfold in Hrun.
  apply bind_Ok in Hrun as (ins & st1 & Hins & Hrun).
  apply resolve_inputs_Ok in Hins as (-> & _ & _).
  apply bind_Ok in Hrun as (attrs & st2 & Hattrs & Hrun).
  apply (mapM_stable (λ _, None)) in Hattrs as (Hs2 & _ & _ & Hk2); cycle 1.
  { apply Forall_forall. intros p _. apply deserialize_attribute_keeps_scopes. }
  apply bind_Ok in Hrun as (outs & st3 & Houts & Hrun).
  rewrite mapM_new_value in Houts. injection Houts as <- <-.
  apply bind_Ok in Hrun as (u & st4 & Hreg & Hrun).
  apply mret_Ok in Hrun as [-> Hst']. subst st4.
  destruct (exists_last Hne) as (scopes & top & Hscopes).
  assert (top < length (dicts st))%nat as Htop.
  { apply Hwf. rewrite Hscopes. apply elem_of_app. right. apply list_elem_of_here. }
  apply (register_outputs_Ok _ _ _ _ _ top) in Hreg as [Hs4 Hd4]; cycle 1.
  { cbn [scoped_values]. rewrite Hs2, Hscopes. apply last_snoc. }
  cbn [scoped_values dicts] in Hs4, Hd4.
  destruct (lookup_lt_is_Some_2 (dicts st) top Htop) as [d0 Hd0].
  assert (dicts st' !! top
          = Some (foldl (λ d p, <[p.1 := p.2]> d) d0
                    (zip output (seq (length (heap st2)) (length output)))))
    as Hnew.
  { rewrite Hd4, list_lookup_alter, Hk2, Hd0; [|exact Htop|discriminate].
    by rewrite decide_True. }
  cbn [node_outputs]. split; [apply length_seq|]. split.
  - intros i o Hi Hlast. unfold visible.
    rewrite Hs4, Hs2, Hscopes, reverse_snoc. cbn [find_in_scopes].
    rewrite Hnew. cbn [default]. unfold id.
    rewrite (foldl_insert_last output _ d0 i o (length_seq _ _) Hi Hlast).
    destruct (lookup_lt_is_Some_2 (seq (length (heap st2)) (length output)) i)
      as [v Hv].
    { rewrite length_seq. by apply lookup_lt_Some in Hi. }
    unfold ref in *. by rewrite Hv.
  - intros n Hn. unfold visible. rewrite Hs4, Hs2.
    apply find_in_scopes_ext_name. intros d Hd.
    apply (proj1 (elem_of_reverse _ _)) in Hd.
    destruct (decide (d = top)) as [->|Hother].
    + unfold ref in *. rewrite Hnew, Hd0. cbn [default]. unfold id.
      apply foldl_insert_other.
      intros Hin. apply Hn. by apply zip_fst_elem_of in Hin.
    + unfold ref in *. rewrite Hd4, list_lookup_alter_ne by done.
      rewrite Hk2; [reflexivity|by apply Hwf|discriminate].
Qed.

End NodeOutputFacts.

(** A node with the output [y], in a state with one empty scope. *)
Lemma node_outputs_become_visible_witness :
  match Serde._deserialize_node
          (Serde.mk_NodeProto [] ["y"] "n" "Relu" "" "" [] []) ∅
          (Serde.mk_State [0%nat] [∅] []) with
  | Ok (node, st') =>
      Serde.visible st' "y" = Serde.node_outputs node !! 0%nat
  | Raise _ => False
  end.
Proof.
  destruct (Serde._deserialize_node _ _ _) as [[node st']|e] eqn:Hrun.
  - refine (proj1 (proj2 (node_outputs_become_visible
                            [] ["y"] "n" "Relu" "" "" [] [] ∅
                            (Serde.mk_State [0%nat] [∅] []) node st' _ _ Hrun))
              0%nat "y" eq_refl _).
    + intros d Hd. apply list_elem_of_singleton in Hd as ->. cbn. lia.
    + discriminate.
    + intros [|j] Hj; [lia|discriminate].
  - vm_compute in Hrun. discriminate Hrun.
Defined.


(** ** Graphs: where the outputs come from *)

Section GraphOutputFacts.
Import Serde GraphNames.

Lemma foldl_insert_is_Some (pairs : list (string * ref)) (d : gmap string ref) name :
  is_Some (foldl (λ d p, <[p.1 := p.2]> d) d pairs !! name) →
  is_Some (d !! name) ∨ name ∈ pairs.*1.
Proof.
  destruct (decide (name ∈ pairs.*1)) as [Hin|Hnot]; [by right|].
  rewrite foldl_insert_other by done. by left.
Qed.

(** The effect of a node on the innermost scope. *)
Lemma deserialize_node_top_dict
    input output name op_type domain overload attribute metadata_props
    value_info st node st' top d0 :
  last (scoped_values st) = Some top →
  dicts st !! top = Some d0 →
  _deserialize_node
    (mk_NodeProto input output name op_type domain overload attribute
       metadata_props) value_info st = Ok (node, st') →
  scoped_values st' = scoped_values st ∧
  dicts st' !! top
  = Some (foldl (λ d p, <[p.1 := p.2]> d) d0 (zip output (node_outputs node))).
Proof.
  intros Hlast Hd0 Hrun. rewrite deserialize_node_unfold in Hrun.
  apply bind_Ok in Hrun as (ins & st1 & Hins & Hrun).
  apply resolve_inputs_Ok in Hins as (-> & _ & _).
  apply bind_Ok in Hrun as (attrs & st2 & Hattrs & Hrun).
  apply (mapM_stable (λ _, None)) in Hattrs as (Hs2 & _ & _ & Hk2); cycle 1.
  { apply Forall_forall. intros p _. apply deserialize_attribute_keeps_scopes. }
  apply bind_Ok in Hrun as (outs & st3 & Houts & Hrun).
  rewrite mapM_new_value in Houts. injection Houts as <- <-.
  apply bind_Ok in Hrun as (u & st4 & Hreg & Hrun).
  apply mret_Ok in Hrun as [-> Hst']. subst st4.
  apply (register_outputs_Ok _ _ _ _ _ top) in Hreg as [Hs4 Hd4]; cycle 1.
  { cbn [scoped_values]. by rewrite Hs2. }
  cbn [scoped_values dicts] in Hs4, Hd4.
  split; [congruence|]. cbn [node_outputs]. unfold ref in *.
  rewrite Hd4, list_lookup_alter, decide_True by done.
  rewrite Hk2, Hd0; [done| |discriminate].
  by apply lookup_lt_Some in Hd0.
Qed.

(** A loop keeps an invariant that each of its rounds keeps, and what each
    successful round shows of its element holds of every element. *)
Lemma mapM_invariant {A B} (I : State → Prop) (P : A → Prop) (f : A → M B) l :
  (∀ x, x ∈ l → ∀ st y st', I st → f x st = Ok (y, st') → I st' ∧ P x) →
  ∀ st ys st', I st → mapM f l st = Ok (ys, st') → I st' ∧ ∀ x, x ∈ l → P x.
Proof.
  induction l as [|x l IH]; intros Hf st ys st' HI Hrun.
  { apply mret_Ok in Hrun as [_ ->]. split; [exact HI|].
    by intros x ?%elem_of_nil. }
  cbn [mapM] in Hrun.
  apply bind_Ok in Hrun as (y & st1 & Hfx & Hrun).
  apply bind_Ok in Hrun as (ys' & st2 & Hrest & Hrun).
  apply mret_Ok in Hrun as [_ ->].
  destruct (Hf x (list_elem_of_here _ _) _ _ _ HI Hfx) as [HI1 HPx].
  destruct (IH (λ z Hz, Hf z (list_elem_of_further _ _ _ Hz)) _ _ _ HI1 Hrest)
    as [HI2 HP].
  split; [exact HI2|]. intros z [->|Hz]%elem_of_cons; [exact HPx|by apply HP].
Qed.

Lemma mapR_elem_of {A B} (f : A → Result B) l ys y :
  mapR f l = Ok ys → y ∈ ys → ∃ x, x ∈ l ∧ f x = Ok y.
Proof.
  revert ys. induction l as [|x l IH]; intros ys; cbn [mapR].
  { intros [= <-] ?%elem_of_nil. done. }
  destruct (f x) as [y'|e] eqn:Hx; cbn [mbind result_bind]; [|done].
  destruct (mapR f l) as [ys'|e]; cbn [mbind result_bind]; [|done].
  intros [= <-] [->|Hin]%elem_of_cons.
  - exists x. split; [apply list_elem_of_here|exact Hx].
  - destruct (IH ys' eq_refl Hin) as (x' & Hx' & Hfx').
    exists x'. split; [by apply list_elem_of_further|exact Hfx'].
Qed.

Lemma deserialize_tensor_name tensor base_path x :
  deserialize_tensor tensor base_path = Ok x →
  tensor_name x = TensorProto.name tensor.
Proof.
  unfold deserialize_tensor. case_bool_decide as Hloc.
  - destruct (DataType_of _); cbn [mbind result_bind]; [|done].
    by intros [= <-].
  - intros Hde.
    assert (∃ cls, x = ProtoTensor cls tensor) as [cls ->]; [|done].
    repeat case_match; try discriminate;
      apply new_tensor_Ok in Hde; eauto.
Qed.

Lemma register_initializer_within names values initializer st u st' :
  tensor_name initializer ∈ names →
  innermost_within names values st →
  register_initializer values initializer st = Ok (u, st') →
  innermost_within names values st'.
Proof.
  intros Hname (Hlast & d0 & Hd0 & Hkeys). unfold register_initializer.
  intros Hrun. apply bind_Ok in Hrun as (d & st1 & Hd & Hrun).
  unfold read_dict in Hd. injection Hd as <- <-. rewrite Hd0 in Hrun.
  cbn [default] in Hrun. unfold id in Hrun.
  destruct (d0 !! tensor_name initializer) as [value|] eqn:Hfound.
  - unfold update_value in Hrun. injection Hrun as Hst'. subst st'.
    split; [exact Hlast|]. by exists d0.
  - apply bind_Ok in Hrun as (dtype & st2 & Hdt & Hrun).
    apply lift_Ok in Hdt as [_ ->].
    apply bind_Ok in Hrun as (v & st3 & Hnew & Hrun).
    unfold new_value in Hnew. injection Hnew as <- <-.
    unfold dict_setitem in Hrun. injection Hrun as Hst'. subst st'.
    split; [exact Hlast|]. cbn [dicts].
    exists (<[tensor_name initializer := length (heap st)]> d0). split.
    + unfold ref in *. by rewrite list_lookup_alter, decide_True, Hd0.
    + intros name [<-|[_ Hold]]%lookup_insert_is_Some; [exact Hname|].
      by apply Hkeys.
Qed.

Lemma deserialize_node_within names values proto value_info st node st' :
  (∀ name, name ∈ node_proto_output proto → name ∈ names) →
  innermost_within names values st →
  _deserialize_node proto value_info st = Ok (node, st') →
  innermost_within names values st'.
Proof.
  intros Hout (Hlast & d0 & Hd0 & Hkeys) Hrun.
  destruct proto as [input output name op_type domain overload attribute
                       metadata_props].
  destruct (deserialize_node_top_dict _ _ _ _ _ _ _ _ _ _ _ _ _ _
              Hlast Hd0 Hrun) as [Hs Hd].
  split; [by rewrite Hs|]. eexists. split; [exact Hd|].
  intros n [Hold|Hnew]%foldl_insert_is_Some; [by apply Hkeys|].
  apply Hout. cbn [node_proto_output]. by apply zip_fst_elem_of in Hnew.
Qed.

Lemma graph_output_within names values info st r st' :
  innermost_within names values st →
  graph_output values info st = Ok (r, st') →
  innermost_within names values st' ∧ vi_name info ∈ names.
Proof.
  intros (Hlast & d0 & Hd0 & Hkeys). unfold graph_output. intros Hrun.
  apply bind_Ok in Hrun as (d & st1 & Hd & Hrun).
  unfold read_dict in Hd. injection Hd as <- <-. rewrite Hd0 in Hrun.
  cbn [default] in Hrun. unfold id in Hrun.
  destruct (d0 !! vi_name info) as [value|] eqn:Hfound; [|discriminate].
  apply deserialize_value_info_proto_dicts in Hrun as [Hs Hds].
  split; [|apply Hkeys; by rewrite Hfound].
  split; [by rewrite Hs|]. exists d0. by rewrite Hds.
Qed.

(** X20. The outputs of a graph are looked up in the scope of the graph
    itself: when [_deserialize_graph] succeeds, every output of the graph is
    named after one of its inputs or initializers or after an output of one
    of its own nodes; a value of an enclosing graph or of a subgraph does not
    do. *)
Theorem graph_outputs_are_defined_in_the_graph
    (name doc_string : option string) (initializer : list TensorProto.t)
    (input output value_info : list ValueInfoProto) (node : list NodeProto)
    (st : State) (g : Graph) (st' : State) :
  _deserialize_graph
    (mk_GraphProto name doc_string initializer input output value_info node) st
  = Ok (g, st') →
  ∀ info, info ∈ output →
          vi_name info ∈ defined_names input initializer node.
Proof.
  intros Hrun. rewrite deserialize_graph_unfold in Hrun.
  set (names := defined_names input initializer node).
  apply bind_Ok in Hrun as (initializers & st1 & Hinit & Hrun).
  apply lift_Ok in Hinit as [Hinit ->].
  apply bind_Ok in Hrun as (inputs & st2 & Hinputs & Hrun).
  apply bind_Ok in Hrun as (u1 & st3 & Hinfo & Hrun).
  apply bind_Ok in Hrun as (values & st4 & Hdict & Hrun).
  apply new_dict_Ok in Hdict as [-> ->].
  apply bind_Ok in Hrun as (u2 & st5 & Happ & Hrun).
  apply scoped_values_append_Ok in Happ. cbn in Happ. subst st5.
  set (values := length (dicts st3)) in *.
  apply bind_Ok in Hrun as (u3 & st6 & Hreg & Hrun).
  cbv zeta in Hrun.
  apply bind_Ok in Hrun as (nodes & st7 & Hnodes & Hrun).
  apply bind_Ok in Hrun as (outputs & st8 & Houts & _).
  assert (innermost_within names values
            (mk_State (scoped_values st3 ++ [values])
               (dicts st3 ++ [dict_of (zip (vi_name <$> input) inputs)])
               (heap st3))) as H5.
  { split; [apply last_snoc|]. cbn [dicts]. eexists. split.
    - subst values. unfold ref. by rewrite lookup_app_r, Nat.sub_diag.
    - intros n [Hempty|Hin]%foldl_insert_is_Some.
      + rewrite lookup_empty in Hempty. by destruct Hempty.
      + apply zip_fst_elem_of in Hin. subst names. unfold defined_names.
        apply elem_of_app. by left. }
  unfold forM_ in Hreg. apply bind_Ok in Hreg as (us & st6' & Hreg & Hret).
  apply mret_Ok in Hret as [_ ->].
  apply (mapM_invariant (innermost_within names values) (λ _, True)) in Hreg
    as [H6 _]; [|clear Hreg|exact H5].
  2:{ intros x Hx s y s' HI Hr. split; [|done].
      eapply (register_initializer_within names values x); [|exact HI|exact Hr].
      destruct (mapR_elem_of _ _ _ _ Hinit Hx) as (t & Ht & Hde).
      apply deserialize_tensor_name in Hde. rewrite Hde.
      subst names. unfold defined_names. apply elem_of_app. right.
      apply elem_of_app. left. apply list_elem_of_fmap. by exists t. }
  apply (mapM_invariant (innermost_within names values) (λ _, True)) in Hnodes
    as [H7 _]; [|clear Hnodes|exact H6].
  2:{ intros x Hx s y s' HI Hr. split; [|done].
      eapply (deserialize_node_within names values x); [|exact HI|exact Hr].
      intros n Hn. subst names. unfold defined_names.
      apply elem_of_app. right. apply elem_of_app. right.
      apply list_elem_of_bind. by exists x. }
  apply (mapM_invariant (innermost_within names values)
           (λ info, vi_name info ∈ names)) in Houts as [_ Hall];
    [exact Hall| |exact H7].
  intros x _ s y s' HI Hr. by apply (graph_output_within names values x s y s').
Qed.

End GraphOutputFacts.

(** The graph with the [If] node: its output [z] is the output of that
    node. *)
Lemma graph_outputs_are_defined_in_the_graph_witness :
  match Serde.deserialize_graph Scenarios.nested_graph with
  | Ok _ =>
      ∀ info, info ∈ [Scenarios.untyped "z"] →
              Serde.vi_name info
              ∈ GraphNames.defined_names [Scenarios.untyped "x"] []
                  [Scenarios.if_node]
  | Raise _ => False
  end.
Proof.
  destruct (Serde.deserialize_graph Scenarios.nested_graph)
    as [[g st']|e] eqn:Hrun.
  - exact (graph_outputs_are_defined_in_the_graph
             (Some "main") None [] [Scenarios.untyped "x"]
             [Scenarios.untyped "z"] [] [Scenarios.if_node]
             Serde.empty_state g st' Hrun).
  - vm_compute in Hrun. discriminate Hrun.
Defined.


(** ** Opset imports and metadata props *)

Section DictFacts.
Context {K V : Type} `{EqDecision K}.
Implicit Types (d : PyDict.t K V) (l : list (K * V)).

Lemma setitem_keys d k v :
  (PyDict.setitem d k v).*1 = if decide (k ∈ d.*1) then d.*1 else d.*1 ++ [k].
Proof.
  unfold PyDict.setitem. destruct (decide (k ∈ d.*1)) as [Hin|Hnot].
  - clear Hin. induction d as [|[k' v'] d IH]; [done|].
    cbn. rewrite IH. by destruct (decide (k' = k)) as [->|].
  - by rewrite fmap_app.
Qed.

Lemma setitem_NoDup d k v : NoDup d.*1 → NoDup (PyDict.setitem d k v).*1.
Proof.
  intros Hd. rewrite setitem_keys. destruct (decide (k ∈ d.*1)); [done|].
  apply NoDup_app. split; [done|]. split; [|apply NoDup_singleton].
  intros x Hx ->%list_elem_of_singleton. done.
Qed.

Lemma foldl_setitem_NoDup d l :
  NoDup d.*1 →
  NoDup (foldl (λ d item, PyDict.setitem d item.1 item.2) d l).*1.
Proof.
  revert d. induction l as [|[k v] l IH]; intros d Hd; [done|].
  cbn [foldl]. apply IH. by apply setitem_NoDup.
Qed.

Lemma foldl_setitem_fresh d l :
  NoDup (d ++ l).*1 →
  foldl (λ d item, PyDict.setitem d item.1 item.2) d l = d ++ l.
Proof.
  revert d. induction l as [|[k v] l IH]; intros d Hd.
  - by rewrite app_nil_r.
  - cbn [foldl fst snd]. unfold PyDict.setitem.
    rewrite fmap_app, fmap_cons in Hd. cbn [fst] in Hd.
    apply NoDup_app in Hd as Hd'. destruct Hd' as (_ & Hdisj & _).
    destruct (decide (k ∈ d.*1)) as [Hin|_].
    { destruct (Hdisj k Hin). apply list_elem_of_here. }
    rewrite IH.
    + by rewrite <- app_assoc.
    + rewrite <- app_assoc, fmap_app. exact Hd.
Qed.

Lemma of_items_NoDup l : NoDup (PyDict.of_items l).*1.
Proof. apply foldl_setitem_NoDup. constructor. Qed.

Lemma of_items_fixed l : PyDict.of_items l = l ↔ NoDup l.*1.
Proof.
  split.
  - intros Heq. rewrite <- Heq. apply of_items_NoDup.
  - intros Hl. by apply (foldl_setitem_fresh [] l).
Qed.

Lemma get_cons k v d k' :
  PyDict.get ((k, v) :: d) k' = if decide (k = k') then Some v else PyDict.get d k'.
Proof.
  unfold PyDict.get. cbn [list_find fst].
  destruct (decide (k = k')) as [->|Hne]; [done|].
  by destruct (list_find (λ item, item.1 = k') d) as [[i [k0 v0]]|].
Qed.

Lemma get_None d k : k ∉ d.*1 → PyDict.get d k = None.
Proof.
  induction d as [|[k0 v0] d IH]; [done|].
  rewrite fmap_cons, not_elem_of_cons. cbn [fst]. intros [Hne Hnot].
  rewrite get_cons, decide_False by done. by apply IH.
Qed.

Lemma get_app_fresh d k v k' :
  k ∉ d.*1 →
  PyDict.get (d ++ [(k, v)]) k'
  = if decide (k' = k) then Some v else PyDict.get d k'.
Proof.
  induction d as [|[k0 v0] d IH]; intros Hnot.
  - cbn [app]. rewrite get_cons.
    destruct (decide (k = k')) as [->|Hne].
    + by rewrite decide_True.
    + by rewrite decide_False.
  - rewrite fmap_cons, not_elem_of_cons in Hnot. cbn [fst] in Hnot.
    destruct Hnot as [Hne Hnot].
    rewrite <- app_comm_cons, !get_cons, IH by done.
    destruct (decide (k0 = k')) as [->|Hne']; [|done].
    by rewrite decide_False.
Qed.

Lemma get_replace_other d k v k' :
  k' ≠ k →
  PyDict.get ((λ item, if decide (item.1 = k) then (k, v) else item) <$> d) k'
  = PyDict.get d k'.
Proof.
  intros Hne. induction d as [|[k0 v0] d IH]; [done|].
  rewrite fmap_cons. cbn beta. cbn [fst].
  destruct (decide (k0 = k)) as [->|Hne0]; rewrite !get_cons, IH.
  - destruct (decide (k = k')); [congruence|done].
  - done.
Qed.

Lemma get_replace_same d k v :
  k ∈ d.*1 →
  PyDict.get ((λ item, if decide (item.1 = k) then (k, v) else item) <$> d) k
  = Some v.
Proof.
  induction d as [|[k0 v0] d IH]; [by intros ?%elem_of_nil|].
  rewrite !fmap_cons, elem_of_cons. cbn beta. cbn [fst]. intros Hin.
  destruct (decide (k0 = k)) as [->|Hne0]; rewrite get_cons.
  - by rewrite decide_True.
  - rewrite decide_False by done. apply IH. by destruct Hin as [->|Hin].
Qed.

Lemma get_setitem d k v k' :
  PyDict.get (PyDict.setitem d k v) k'
  = if decide (k' = k) then Some v else PyDict.get d k'.
Proof.
  unfold PyDict.setitem. destruct (decide (k ∈ d.*1)) as [Hin|Hnot];
    [|by apply get_app_fresh].
  destruct (decide (k' = k)) as [->|Hne].
  - by apply get_replace_same.
  - by apply get_replace_other.
Qed.

Lemma get_foldl_setitem d l k :
  PyDict.get (foldl (λ d item, PyDict.setitem d item.1 item.2) d l) k
  = match last (filter (λ item, item.1 = k) l) with
    | Some item => Some item.2
    | None => PyDict.get d k
    end.
Proof.
  revert d. induction l as [|[k0 v0] l IH]; intros d; [done|].
  cbn [foldl fst snd]. rewrite IH, get_setitem.
  destruct (decide (k0 = k)) as [->|Hne].
  - rewrite filter_cons_True by done. rewrite last_cons, decide_True by done.
    by destruct (last (filter (λ item, item.1 = k) l)).
  - rewrite filter_cons_False by done. by rewrite decide_False.
Qed.

End DictFacts.

Section OpsetFacts.
Import OpsetImports.


End OpsetFacts.

Section MetadataFacts.
Import Serde MetadataProps.

Lemma dict_of_list_to_map {V} (items : list (string * V)) :
  dict_of items = list_to_map (reverse items).
Proof.
  unfold dict_of. rewrite <- (reverse_involutive items) at 1.
  generalize (reverse items). intros l. clear items.
  induction l as [|[k v] l IH]; [done|].
  rewrite reverse_cons, foldl_app. cbn [foldl list_to_map foldr fst snd].
  by rewrite IH.
Qed.

Lemma sorted_keys (from_ : gmap string string) :
  sorted from_ ≡ₚ (map_to_list from_).*1.
Proof. apply sorting.merge_sort_Permutation. Qed.

(** X22. Metadata props are written in the order of their keys, each key
    once, and [dict_of], by which [_deserialize_node] reads them, gives the
    mapping back. *)
Theorem metadata_props_are_sorted (from_ : gmap string string) :
  let entries := _serialize_metadata_props_into [] from_ in
  Sorted.StronglySorted String.le entries.*1 ∧
  NoDup entries.*1 ∧
  dict_of entries = from_.
Proof.
  cbv zeta. unfold _serialize_metadata_props_into. cbn [app].
  assert (((λ key, (key, from_ !!! key)) <$> sorted from_).*1 = sorted from_)
    as Hkeys.
  { rewrite <- list_fmap_compose. apply list_fmap_id. }
  rewrite Hkeys.
  assert (NoDup (sorted from_)) as Hnodup.
  { rewrite sorted_keys. apply NoDup_fst_map_to_list. }
  split; [apply sorting.StronglySorted_merge_sort; apply _|].
  split; [exact Hnodup|].
  rewrite dict_of_list_to_map. apply map_eq. intros key.
  apply option_eq. intros value.
  rewrite <- elem_of_list_to_map.
  2:{ by rewrite fmap_reverse, Hkeys, reverse_Permutation. }
  rewrite elem_of_reverse, list_elem_of_fmap. split.
  - intros (k & [= -> ->] & Hin). rewrite sorted_keys in Hin.
    apply list_elem_of_fmap in Hin as ([k' v'] & -> & Hin).
    apply elem_of_map_to_list in Hin. cbn [fst].
    by rewrite (lookup_total_correct _ _ _ Hin).
  - intros Hlookup. exists key. split.
    + by rewrite (lookup_total_correct _ _ _ Hlookup).
    + rewrite sorted_keys. apply list_elem_of_fmap. exists (key, value).
      split; [done|]. by apply elem_of_map_to_list.
Qed.

End MetadataFacts.

(** ** Functions *)

Section FunctionFacts.
Import Serde GraphNames Functions.

Lemma with_scopes_Ok {A} scopes (call : M A) st a st' :
  with_scopes scopes call st = Ok (a, st') →
  ∃ st1, call (mk_State scopes (dicts st) (heap st)) = Ok (a, st1) ∧
         st' = mk_State (scoped_values st) (dicts st1) (heap st1).
Proof.
  unfold with_scopes.
  destruct (call _) as [[a' st1]|e]; [|done].
  intros [= -> <-]. by exists st1.
Qed.

Lemma dict_within_mono names names' values st :
  (∀ n, n ∈ names → n ∈ names') →
  dict_within names values st → dict_within names' values st.
Proof. intros Hsub (d & Hd & Hkeys). exists d. split; [done|]. auto. Qed.

(** One node of the body of a function. *)
Lemma function_node_within names values proto value_info st node st' :
  dict_within names values st →
  with_scopes [values] (_deserialize_node proto value_info) st = Ok (node, st') →
  (∀ n, n ∈ node_proto_input proto → n ≠ "" → n ∈ names) ∧
  dict_within (names ++ node_proto_output proto) values st'.
Proof.
  intros (d & Hd & Hkeys) Hrun.
  apply with_scopes_Ok in Hrun as (st1 & Hrun & ->).
  split.
  - destruct proto as [input output name op_type domain overload attribute
                         metadata_props].
    rewrite deserialize_node_unfold in Hrun.
    apply bind_Ok in Hrun as (ins & st2 & Hins & _).
    apply resolve_inputs_Ok in Hins as (_ & _ & Hdef).
    intros n Hin Hne. destruct (Hdef n Hin Hne) as [v Hv].
    unfold visible in Hv. cbn in Hv. unfold ref in *. rewrite Hd in Hv.
    cbn in Hv. apply Hkeys.
    destruct (d !! n) as [v'|]; [by eexists|discriminate].
  - eapply (deserialize_node_within (names ++ node_proto_output proto) values)
      in Hrun as (_ & d1 & Hd1 & Hkeys1).
    + by exists d1.
    + intros n Hn. apply elem_of_app. by right.
    + split; [done|]. exists d. split; [done|].
      intros n Hn. apply elem_of_app. left. by apply Hkeys.
Qed.

Lemma function_nodes_within names values value_info nodes st ys st' :
  dict_within names values st →
  mapM (λ node, with_scopes [values] (_deserialize_node node value_info))
    nodes st = Ok (ys, st') →
  (∀ before node after,
     nodes = before ++ node :: after →
     ∀ n, n ∈ node_proto_input node → n ≠ "" →
          n ∈ names ++ (before ≫= node_proto_output)) ∧
  dict_within (names ++ (nodes ≫= node_proto_output)) values st'.
Proof.
  revert names st ys.
  induction nodes as [|x nodes IH]; intros names st ys Hwithin Hrun.
  { apply mret_Ok in Hrun as [_ ->]. split.
    - intros [|? ?] ? ? ?; discriminate.
    - cbn. by rewrite app_nil_r. }
  cbn [mapM] in Hrun.
  apply bind_Ok in Hrun as (y & st1 & Hx & Hrun).
  apply bind_Ok in Hrun as (ys' & st2 & Hrest & Hret).
  apply mret_Ok in Hret as [_ ->].
  destruct (function_node_within _ _ _ _ _ _ _ Hwithin Hx) as [Hins H1].
  destruct (IH _ _ _ H1 Hrest) as [Hrest_ins H2].
  split.
  - intros [|b before] node after Heq n Hn Hne.
    + injection Heq as <- _. cbn. rewrite app_nil_r. by apply Hins.
    + injection Heq as <- ->.
      specialize (Hrest_ins before node after eq_refl n Hn Hne).
      cbn. by rewrite app_assoc.
  - cbn. by rewrite app_assoc.
Qed.

Lemma mapR_dict_getitem_Ok {V} (d : gmap string V) keys vs :
  mapR (dict_getitem d) keys = Ok vs → ∀ n, n ∈ keys → is_Some (d !! n).
Proof.
  revert vs. induction keys as [|o keys IH]; intros vs Hrun n Hn;
    [by apply elem_of_nil in Hn|].
  cbn [mapR] in Hrun.
  destruct (dict_getitem d o) as [v|e] eqn:Ho;
    cbn [mbind result_bind] in Hrun; [|discriminate].
  destruct (mapR (dict_getitem d) keys) as [vs'|e] eqn:Hrest;
    cbn [mbind result_bind] in Hrun; [|discriminate].
  apply elem_of_cons in Hn as [->|Hn]; [|by apply (IH vs')].
  unfold dict_getitem in Ho. destruct (d !! o); [by eexists|discriminate].
Qed.

(** X23. The body of a function is closed.  When [deserialize_function]
    succeeds, every named input of a node of the function is an input of the
    function or an output of a node that comes before it, and every output
    of the function is an input of the function or an output of one of its
    nodes: no value from outside a function is visible in it. *)
Theorem function_body_is_closed (proto : FunctionProto) (st : State)
    (function : Function) (st' : State) :
  deserialize_function proto st = Ok (function, st') →
  (∀ before node after,
     fp_node proto = before ++ node :: after →
     ∀ n, n ∈ node_proto_input node → n ≠ "" →
          n ∈ fp_input proto ++ (before ≫= node_proto_output)) ∧
  (∀ n, n ∈ fp_output proto → n ∈ defined_names proto).
Proof.
  unfold deserialize_function. intros Hrun.
  apply bind_Ok in Hrun as (inputs & st1 & Hinputs & Hrun).
  apply bind_Ok in Hrun as (values & st2 & Hdict & Hrun).
  apply new_dict_Ok in Hdict as [-> ->].
  cbv zeta in Hrun.
  apply bind_Ok in Hrun as (nodes & st3 & Hnodes & Hrun).
  apply bind_Ok in Hrun as (d & st4 & Hd & Hrun).
  unfold read_dict in Hd. injection Hd as <- <-.
  apply bind_Ok in Hrun as (outputs & st5 & Houts & _).
  apply lift_Ok in Houts as [Houts _].
  apply function_nodes_within with (names := fp_input proto) in Hnodes
    as [Hins (d & Hd & Hkeys)].
  - split; [exact Hins|]. intros n Hn. apply Hkeys.
    unfold ref in *. rewrite Hd in Houts. cbn [default] in Houts.
    unfold id in Houts. by apply (mapR_dict_getitem_Ok _ _ _ Houts).
  - eexists. split.
    + cbn [dicts]. unfold ref. by rewrite lookup_app_r, Nat.sub_diag.
    + intros n [Hempty|Hin]%foldl_insert_is_Some.
      * rewrite lookup_empty in Hempty. by destruct Hempty.
      * by apply zip_fst_elem_of in Hin.
Qed.

End FunctionFacts.

Lemma function_body_is_closed_witness :
  match Functions.deserialize_function FunctionScenarios.relu_function
          Serde.empty_state with
  | Ok _ =>
      ∀ n, n ∈ ["y"] →
           n ∈ Functions.defined_names FunctionScenarios.relu_function
  | Raise _ => False
  end.
Proof.
  destruct (Functions.deserialize_function _ _) as [[function st']|e] eqn:Hrun.
  - exact (proj2 (function_body_is_closed FunctionScenarios.relu_function
                    Serde.empty_state function st' Hrun)).
  - vm_compute in Hrun. discriminate Hrun.
Defined.


(** ** External tensors and value infos *)

Section MoreTensorFacts.
Import Serde.

Lemma path_join_empty (location : string) : path_join "" location = location.
Proof. unfold path_join. by destruct (String.prefix "/" location). Qed.

Lemma extend_int64_fit (field values : list Z) :
  Forall (λ n, int64 n = true) values →
  extend_int64 field values = Ok (field ++ values).
Proof.
  intros Hfit. revert field.
  induction Hfit as [|n values Hn _ IH]; intros field.
  { by rewrite app_nil_r. }
  cbn [extend_int64]. unfold set_int64. rewrite Hn. cbn [mbind result_bind].
  by rewrite IH, <- app_assoc.
Qed.

Lemma extend_int64_not_fit (field values : list Z) :
  ¬ Forall (λ n, int64 n = true) values →
  ∃ msg, extend_int64 field values = Raise (ValueError msg).
Proof.
  revert field. induction values as [|n values IH]; intros field Hfit.
  { destruct Hfit. constructor. }
  cbn [extend_int64]. unfold set_int64.
  destruct (int64 n) eqn:Hn; cbn [mbind result_bind]; [|by eexists].
  apply IH. intros Hrest. apply Hfit. by constructor.
Qed.

(** X24. [serialize_tensor] raises [ValueError] exactly on an external
    tensor with a dimension outside [int64].  Otherwise the tensor comes back
    from [serialize_tensor] and [deserialize_tensor] with its path joined to
    the [base_path] and with a [doc_string] of [None] turned into the empty
    string, and as it was otherwise: so it comes back as it was, read without
    a [base_path], exactly when its dimensions lie within [int64] and its
    [doc_string] is not [None]. *)
Theorem external_tensor_round_trip
    (path : string) (offset length : option Z) (dtype : DataType)
    (name : string) (shape : list Z) (doc_string : option string) :
  let tensor := ExternalTensor path offset length dtype name shape doc_string in
  ((∃ msg, serialize_tensor tensor = Raise (ValueError msg))
   ↔ ¬ Forall (λ n, int64 n = true) shape) ∧
  (Forall (λ n, int64 n = true) shape →
   ∀ base_path,
     serialize_tensor tensor ≫= (λ proto, deserialize_tensor proto base_path)
     = Ok (ExternalTensor (path_join base_path path) offset length dtype name
             shape (Some (default "" doc_string)))) ∧
  (serialize_tensor tensor ≫= (λ proto, deserialize_tensor proto "") = Ok tensor
   ↔ Forall (λ n, int64 n = true) shape ∧ doc_string ≠ None).
Proof.
  cbv zeta.
  assert (Forall (λ n, int64 n = true) shape →
          ∀ base_path,
            serialize_tensor
              (ExternalTensor path offset length dtype name shape doc_string)
              ≫= (λ proto, deserialize_tensor proto base_path)
            = Ok (ExternalTensor (path_join base_path path) offset length dtype
                    name shape (Some (default "" doc_string)))) as Hany.
  { intros Hfit base_path. unfold serialize_tensor, serialize_tensor_into.
    rewrite (extend_int64_fit _ _ Hfit). cbn [mbind result_bind].
    unfold deserialize_tensor. cbn. rewrite DataType_of_value. cbn.
    destruct doc_string as [doc_string|]; [|reflexivity].
    by destruct (bool_decide (doc_string = "")) eqn:Hdoc;
      [apply bool_decide_eq_true in Hdoc as ->|]. }
  destruct (decide (Forall (λ n, int64 n = true) shape)) as [Hfit|Hfit].
  - split; [|split; [exact Hany|]].
    + unfold serialize_tensor, serialize_tensor_into.
      rewrite (extend_int64_fit _ _ Hfit). cbn [mbind result_bind].
      split; [by intros [msg Hmsg]|done].
    + rewrite (Hany Hfit), path_join_empty.
      split.
      * intros [= Hdoc]. split; [exact Hfit|]. by rewrite <- Hdoc.
      * intros [_ Hdoc]. by destruct doc_string.
  - unfold serialize_tensor, serialize_tensor_into.
    destruct (extend_int64_not_fit (TensorProto.dims TensorProto.empty) shape Hfit)
      as [msg ->].
    cbn [mbind result_bind]. split; [|split].
    + split; [done|by exists msg].
    + done.
    + split; [discriminate|by intros [? _]].
Qed.

Lemma deserialize_type_proto_for_type_shape :
  ∀ proto type,
    deserialize_type_proto_for_type proto = Ok type →
    ∃ shape, deserialize_type_proto_for_shape proto = Ok shape.
Proof.
  fix IH 1.
  intros [d e s|d e s|d [e|]|d [e|]|d|d] type; cbn; intros Htype;
    try discriminate; try (eexists; reflexivity).
  - destruct (deserialize_type_proto_for_type e) as [t|err] eqn:He;
      [|discriminate]. exact (IH e t He).
  - destruct (deserialize_type_proto_for_type e) as [t|err] eqn:He;
      [|discriminate]. exact (IH e t He).
Qed.

(** X25. [deserialize_value_info_proto] succeeds exactly when the type of
    the proto can be read: a proto whose type can be read has a shape that
    can be read, and nothing else can fail. *)
Theorem value_info_is_read_when_its_type_is
    (proto : ValueInfoProto) (value : option ref) (st : State) :
  is_ok (deserialize_value_info_proto proto value st)
  = is_ok (deserialize_type_proto_for_type (vi_type proto)).
Proof.
  unfold deserialize_value_info_proto.
  destruct (deserialize_type_proto_for_type (vi_type proto)) as [type|e] eqn:Ht.
  - destruct (deserialize_type_proto_for_type_shape _ _ Ht) as [shape Hs].
    rewrite Hs. by destruct value.
  - destruct (deserialize_type_proto_for_shape (vi_type proto)) as [shape|e'];
      by destruct value.
Qed.

End MoreTensorFacts.

(** A dimension of [2^63] is one that [dims] does not hold: the external
    tensor is not serialized. *)
Lemma serialize_tensor_raises_beyond_int64 :
  Serde.serialize_tensor
    (Serde.ExternalTensor "weights.bin" None None Serde.FLOAT "w" [2 ^ 63] None)
  = Raise (ValueError "Value out of range: 9223372036854775808").
Proof. vm_compute. reflexivity. Qed.

(** ** The sizes of an attention layer *)

Section AttentionFacts.
Import MultiheadAttention.
Variable lookup : Functions.FunctionProto → string → option LegacyIR.Value.

Lemma getitem_Return shape i dim :
  getitem shape i = Return dim → shape !! i = Some dim.
Proof. unfold getitem. destruct (shape !! i); [by intros [= ->]|done]. Qed.

(** X26. When [infer_attn_size_config] returns, the function has three
    outputs, the head size is not zero, and the number of attention heads is
    the hidden size divided by the head size, rounded down: a hidden size
    that is no multiple of the head size is accepted, and its remainder is
    dropped. *)
Theorem infer_attn_size_config_sizes
    (function : Functions.FunctionProto) (config : AttnSizeConfig) :
  infer_attn_size_config lookup function = Return config →
  length (Functions.fp_output function) = 3%nat ∧
  head_size config ≠ 0 ∧
  num_attention_heads config = hidden_size config / head_size config ∧
  hidden_size config
  = num_attention_heads config * head_size config
    + hidden_size config `mod` head_size config.
Proof.
  unfold infer_attn_size_config.
  destruct (Functions.fp_output function) as [|pv [|mid [|ao [|? ?]]]];
    try discriminate.
  destruct (lookup function pv ≫= LegacyIR.shape) as [pv_shape|];
    [|discriminate].
  destruct (lookup function ao ≫= LegacyIR.shape) as [ao_shape|];
    [|discriminate].
  destruct (getitem pv_shape 3) as [h|e]; [|discriminate].
  destruct (getitem pv_shape 1) as [kv|e]; [|discriminate].
  destruct (getitem ao_shape 2) as [H|e]; [|discriminate].
  cbn [mbind outcome_bind]. unfold floordiv.
  destruct (Z.eqb_spec h 0) as [->|Hne]; [discriminate|].
  cbn [mbind outcome_bind]. intros [= <-].
  cbn [head_size hidden_size num_attention_heads].
  split; [reflexivity|]. split; [exact Hne|]. split; [reflexivity|].
  rewrite (Z.mul_comm (H / h) h). by apply Z.div_mod.
Qed.

(** X27. With both shapes known, a [present_value] of fewer than four
    dimensions or an [attn_output] of fewer than three makes
    [infer_attn_size_config] raise [IndexError], which is not the
    [FunctionRewriteError] that it raises itself. *)
Theorem infer_attn_size_config_escapes
    (function : Functions.FunctionProto) (present_value name attn_output : string)
    (present_value_ir attn_output_ir : LegacyIR.Value)
    (present_value_shape attn_output_shape : list Z) :
  Functions.fp_output function = [present_value; name; attn_output] →
  lookup function present_value = Some present_value_ir →
  LegacyIR.shape present_value_ir = Some present_value_shape →
  lookup function attn_output = Some attn_output_ir →
  LegacyIR.shape attn_output_ir = Some attn_output_shape →
  (length present_value_shape < 4 ∨ length attn_output_shape < 3)%nat →
  infer_attn_size_config lookup function = Raised IndexError.
Proof.
  intros Hout Hpv Hpvs Hao Haos. unfold infer_attn_size_config.
  rewrite Hout, Hpv, Hao. cbn [mbind option_bind]. rewrite Hpvs, Haos.
  unfold getitem. intros [Hshort|Hshort].
  - by rewrite (lookup_ge_None_2 present_value_shape 3) by lia.
  - destruct (present_value_shape !! 3%nat) as [h|]; [|done].
    destruct (present_value_shape !! 1%nat) as [kv|]; [|done].
    by rewrite (lookup_ge_None_2 attn_output_shape 2) by lia.
Qed.

End AttentionFacts.

(** Thirty-two heads of size 128. *)
Lemma infer_attn_size_config_sizes_witness :
  length (Functions.fp_output MultiheadAttention.attention) = 3%nat ∧
  128 ≠ 0 ∧
  32 = 4096 / 128 ∧
  4096 = 32 * 128 + 4096 `mod` 128.
Proof.
  apply (infer_attn_size_config_sizes
           (MultiheadAttention.known_shapes [1; 32; 16; 128] [1; 16; 4096])
           MultiheadAttention.attention
           (MultiheadAttention.mk_AttnSizeConfig 32 32 128 4096)).
  reflexivity.
Defined.

(** A [present_value] of three dimensions. *)
Lemma infer_attn_size_config_escapes_witness :
  MultiheadAttention.infer_attn_size_config
    (MultiheadAttention.known_shapes [1; 32; 128] [1; 16; 4096])
    MultiheadAttention.attention
  = MultiheadAttention.Raised MultiheadAttention.IndexError.
Proof.
  apply (infer_attn_size_config_escapes
           (MultiheadAttention.known_shapes [1; 32; 128] [1; 16; 4096])
           MultiheadAttention.attention
           "present_value" "present_key" "attn_output"
           (LegacyIR.mk_Value (Some [1; 32; 128]) None)
           (LegacyIR.mk_Value (Some [1; 16; 4096]) None)
           [1; 32; 128] [1; 16; 4096]
           eq_refl eq_refl eq_refl eq_refl eq_refl).
  left. cbn. lia.
Defined.
